(** * mne-pipeline-hd: a shallow embedding of the owned glue logic

    The pipeline is a GUI and batch-orchestration layer.  This development
    embeds the pieces of it that carry logic of their own (event-code
    rewriting, registries, settings, the per-subject lookups, the two
    window state machines) and proves or refutes the specified behaviour.

    Python conventions used throughout:
    - a raised exception is the [Raise] branch of [result];
    - a [dict] with string keys whose iteration order is irrelevant is a
      [gmap string _]; where the order of [items()] is observable (files
      written entry by entry) it is an association list;
    - interaction with Qt dialogs is an explicit list of user responses. *)

From stdpp Require Import gmap strings list fin_maps pretty.
From Stdlib Require Import Ascii ZArith Lia.

Open Scope Z_scope.

(** ** Exceptions and the error monad *)

Inductive exn : Type :=
  | AssertionError
  | IndexError
  | KeyError (k : string)
  | AttributeError
  | RuntimeError
  | ValueError.

#[global] Instance exn_eq_dec : EqDecision exn.
Proof. solve_decision. Defined.

Inductive result (A : Type) : Type :=
  | Ok (a : A)
  | Raise (e : exn).
Arguments Ok {A} a.
Arguments Raise {A} e.

#[global] Instance result_eq_dec {A} `{EqDecision A} : EqDecision (result A).
Proof. solve_decision. Defined.

Definition bind {A B} (m : result A) (k : A → result B) : result B :=
  match m with
  | Ok a => k a
  | Raise e => Raise e
  end.

Notation "'let!' x ':=' m 'in' k" := (bind m (fun x => k))
  (at level 10, x name, m at level 100, k at level 200).

Definition result_map {A B} (f : A → B) (m : result A) : result B :=
  match m with
  | Ok a => Ok (f a)
  | Raise e => Raise e
  end.

#[global] Instance result_fmap : FMap result := @result_map.

(** ** custom_functions/melofix.py *)

Module Melofix.

(** One row of the events array: sample, previous value, event code. *)
Abbreviation event := (Z * Z * Z)%type (only parsing).

Definition code (e : event) : Z := e.2.
Definition set_code (c : Z) (e : event) : event := (e.1, c).

(** numpy row indexing: [i] in [0, len) is itself, [i] in [-len, 0) counts
    from the end, anything else raises IndexError. *)
Definition np_index (len : nat) (i : Z) : option nat :=
  if (0 <=? i) && (i <? Z.of_nat len) then Some (Z.to_nat i)
  else if (- Z.of_nat len <=? i) && (i <? 0) then Some (Z.to_nat (i + Z.of_nat len))
  else None.

(** [events[i, 2]] *)
Definition get (ev : list event) (i : Z) : result Z :=
  match np_index (length ev) i with
  | Some k =>
      match ev !! k with
      | Some e => Ok (code e)
      | None => Raise IndexError
      end
  | None => Raise IndexError
  end.

(** [events[i, 2] = c] *)
Definition set (ev : list event) (i : Z) (c : Z) : result (list event) :=
  match np_index (length ev) i with
  | Some k => Ok (alter (set_code c) k ev)
  | None => Raise IndexError
  end.

(** The chained comparison
    [events[n-1,2] == events[n-2,2] == events[n-3,2] == events[n-4,2]]:
    evaluated left to right, stopping at the first unequal pair. *)
Definition all_equal4 (ev : list event) (n : Z) : result bool :=
  let! a := get ev (n - 1) in
  let! b := get ev (n - 2) in
  if negb (a =? b) then Ok false else
  let! c := get ev (n - 3) in
  if negb (b =? c) then Ok false else
  let! d := get ev (n - 4) in
  Ok (c =? d).

(** The four assignments of one branch, in source order. *)
Definition assign4 (ev : list event) (n : Z) (onset rest : Z)
  : result (list event) :=
  let! ev := set ev (n - 4) onset in
  let! ev := set ev (n - 3) rest in
  let! ev := set ev (n - 2) rest in
  set ev (n - 1) rest.

(** One iteration of [for n in range(len(events))]. *)
Definition body (ev : list event) (n : Z) : result (list event) :=
  let! cn := get ev n in
  if cn =? 58 then
    let! fixed := all_equal4 ev n in
    if fixed then assign4 ev n 1 2 else assign4 ev n 3 4
  else Ok ev.

Fixpoint loop (ns : list Z) (ev : list event) : result (list event) :=
  match ns with
  | [] => Ok ev
  | n :: ns => let! ev := body ev n in loop ns ev
  end.

(** [range(len(events))] *)
Definition range (len : nat) : list Z := Z.of_nat <$> seq 0 len.

(** The function from the point where [events] has been read; the result
    is the array handed to [mne.event.write_events]. *)
Definition melofix_event_handling (events : list event) : result (list event) :=
  if Nat.eqb (length events) 0 then Raise AssertionError
  else loop (range (length events)) events.

(** The effect of one branch on an array in which event [n] has four
    predecessors, written with positions instead of numpy indices. *)
Definition rewrite4 (n : nat) (onset rest : Z) (ev : list event) : list event :=
  alter (set_code rest) (n - 1)%nat
    (alter (set_code rest) (n - 2)%nat
      (alter (set_code rest) (n - 3)%nat
        (alter (set_code onset) (n - 4)%nat ev))).

(** Position [j] is one of the four positions before a code-58 event. *)
Definition predecessor_of_58 (ev : list event) (j : nat) : Prop :=
  ∃ n e, ev !! n = Some e ∧ code e = 58 ∧ (j < n ≤ j + 4)%nat.

Definition codes (ev : list event) : list Z := code <$> ev.
Definition of_codes (cs : list Z) : list event := (λ c, (0, 0, c)) <$> cs.

End Melofix.

(** ** Python strings *)

Module PyStr.

(** The text of the escape [\n]. *)
Definition nl : string := String "010"%char EmptyString.

Fixpoint drop (n : nat) (s : string) : string :=
  match n, s with
  | O, _ => s
  | S n, String _ s => drop n s
  | S _, EmptyString => EmptyString
  end.

(** [s[-n:]] for [n > 0]: the last [n] characters, the whole string when it
    is shorter. *)
Definition last_chars (n : nat) (s : string) : string :=
  drop (String.length s - n) s.

Fixpoint replicate (n : nat) (c : ascii) : string :=
  match n with
  | O => EmptyString
  | S n => String c (replicate n c)
  end.

(** [f'{x:0w}'] for a non-negative integer: decimal digits, zero-padded on
    the left to at least [w] characters. *)
Definition format_0w (w : nat) (x : N) : string :=
  let d := pretty x in
  replicate (w - String.length d) "0"%char +:+ d.

Fixpoint int_digits (acc : N) (s : string) : option N :=
  match s with
  | EmptyString => Some acc
  | String c s =>
      match Ascii.is_nat c with
      | Some d => int_digits (10 * acc + N.of_nat d)%N s
      | None => None
      end
  end.

(** [int(s)] on a string of decimal digits (leading zeros allowed); any
    other text is rejected with ValueError.  Signs, surrounding blanks and
    digit separators, which [int] also accepts, do not occur in the
    strings this is applied to. *)
Definition int (s : string) : result N :=
  match s with
  | EmptyString => Raise ValueError
  | _ => match int_digits 0%N s with
         | Some n => Ok n
         | None => Raise ValueError
         end
  end.

End PyStr.

(** ** pipeline_functions/gui_functions.py: bad-channel selection *)

Module BadChannelsSelect.

Definition channel_count : nat := 122.

(** [ch_name = f'MEG {x:03}'] *)
Definition ch_name (x : N) : string := "MEG " +:+ PyStr.format_0w 3 x.

(** [range(1, channel_count + 1)] *)
Definition channels : list N := N.of_nat <$> seq 1 channel_count.

(** The dictionary [bad_chkbts] in insertion order; a check box is
    represented by its checked state.  [initui] creates every box
    unchecked. *)
Abbreviation chkbts := (list (string * bool)) (only parsing).

Definition initui : chkbts := (λ x, (ch_name x, false)) <$> channels.

(** [bad_dict_assign]: the loop over [bad_chkbts] that collects the names
    of the checked boxes in [bad_channels] and their numbers in
    [second_list]; [second_list] is what is passed on to be saved. *)
Fixpoint bad_dict_assign_loop (boxes : chkbts) (bad_channels : list string)
    (second_list : list N) : result (list string * list N) :=
  match boxes with
  | [] => Ok (bad_channels, second_list)
  | (ch, checked) :: boxes =>
      if checked then
        let! n := PyStr.int (PyStr.last_chars 3 ch) in
        bad_dict_assign_loop boxes (bad_channels ++ [ch]) (second_list ++ [n])
      else bad_dict_assign_loop boxes bad_channels second_list
  end.

Definition bad_dict_assign (boxes : chkbts) : result (list string * list N) :=
  bad_dict_assign_loop boxes [] [].

(** The boxes after the user has (un)checked them: same keys as [initui],
    channel [x] checked exactly when [checked x]. *)
Definition boxes_with (checked : N → bool) : chkbts :=
  (λ x, (ch_name x, checked x)) <$> channels.

(** The label of channel [x] has three digits after ['MEG '], they are the
    label's last three characters, and they read back as [x]: a test that
    can be run on every channel. *)
Definition label_ok (x : N) : bool :=
  bool_decide (String.length (PyStr.format_0w 3 x) = 3%nat) &&
  bool_decide (PyStr.last_chars 3 (ch_name x) = PyStr.format_0w 3 x) &&
  bool_decide (PyStr.int (PyStr.last_chars 3 (ch_name x)) = Ok x).

End BadChannelsSelect.

(** ** pipeline_functions/gui_functions.py: sub-dict assignment *)

Module SubDict.

(** Values held by the dictionary: text read from the file or chosen in the
    list widget, or [None] (assigned by [sub_dict_assign_none]). *)
Inductive pyval : Type :=
  | PStr (s : string)
  | PNone.

(** How an f-string renders a value. *)
Definition str (v : pyval) : string :=
  match v with
  | PStr s => s
  | PNone => "None"
  end.

(** A [dict] in insertion order. *)
Abbreviation pydict := (list (string * pyval)) (only parsing).

Definition keys (d : pydict) : list string := d.*1.

(** [k in d] *)
Definition contains (k : string) (d : pydict) : bool :=
  bool_decide (k ∈ keys d).

(** [d[k]] as a partial function *)
Fixpoint getitem (k : string) (d : pydict) : option pyval :=
  match d with
  | [] => None
  | (k', v) :: d => if decide (k = k') then Some v else getitem k d
  end.

(** [d[k] = v]: an existing key keeps its position, a new key goes last. *)
Fixpoint setitem (k : string) (v : pyval) (d : pydict) : pydict :=
  match d with
  | [] => [(k, v)]
  | (k', v') :: d =>
      if decide (k = k') then (k', v) :: d else (k', v') :: setitem k v d
  end.

(** [d.update({k: v})] *)
Definition update1 (k : string) (v : pyval) (d : pydict) : pydict :=
  setitem k v d.

(** The text of one [sd.write(f'{key}:{value}\n')]. *)
Definition entry_line (kv : string * pyval) : string :=
  kv.1 +:+ ":" +:+ str kv.2 +:+ PyStr.nl.

Section assign.
(** [suborg.read_sub_dict] lives in the subject-organisation module; here
    it is a parameter mapping the text of the file to the dictionary read
    from it. *)
Variable read_sub_dict : string → pydict.

(** The dictionary that is written back when the file exists. *)
Definition assigned (content : string) (choice1 : string) (v : pyval) : pydict :=
  let existing_dict := read_sub_dict content in
  if contains choice1 existing_dict
  then setitem choice1 v existing_dict
  else update1 choice1 v existing_dict.

(** [sub_dict_assign]: [file] is the text of the file at [dict_path], or
    [None] when [isfile(dict_path)] is false; the result is the list of
    strings written to the freshly truncated file, in order. *)
Definition sub_dict_assign (file : option string) (choice1 choice2 : string)
  : list string :=
  match file with
  | None => [choice1 +:+ ":" +:+ choice2 +:+ PyStr.nl]
  | Some content => entry_line <$> assigned content choice1 (PStr choice2)
  end.

(** [sub_dict_assign_none] *)
Definition sub_dict_assign_none (file : option string) (choice : string)
  : list string :=
  match file with
  | None => [choice +:+ ":None" +:+ PyStr.nl]
  | Some content => entry_line <$> assigned content choice PNone
  end.
End assign.

End SubDict.

(** ** gui/main_window.py: settings *)

Module Settings.

Section settings.
(** The type of JSON values stored in the settings. *)
Context {V : Type}.

(** [load_settings].  [file] is the object parsed from
    [mne_pipeline_hd-settings.json], or [None] when opening it raises
    FileNotFoundError.  The loop copies every default whose key is not
    in the loaded settings.  (In the [None] case the source binds
    [settings] to the very object [default_settings].) *)
Definition load_settings (default_settings : gmap string V)
    (file : option (gmap string V)) : gmap string V :=
  match file with
  | Some settings =>
      let missing :=
        filter (λ kv, settings !! kv.1 = None) (map_to_list default_settings) in
      foldl (λ acc kv, <[kv.1 := kv.2]> acc) settings missing
  | None => default_settings
  end.

(** [get_setting] *)
Definition get_setting (settings default_settings : gmap string V)
    (setting : string) : result V :=
  match settings !! setting with
  | Some value => Ok value
  | None =>
      match default_settings !! setting with
      | Some value => Ok value
      | None => Raise (KeyError setting)
      end
  end.
End settings.

End Settings.

(** ** Regular expressions used by the sources

    Each pattern is applied with [re.match], which anchors at the start of
    the string only.  [.] matches every character except the line feed. *)

Module Re.

Definition dot (c : ascii) : bool := negb (Ascii.eqb c "010").

Definition is_digit (c : ascii) : bool :=
  match Ascii.is_nat c with Some _ => true | None => false end.

Definition is_lower (c : ascii) : bool :=
  let n := nat_of_ascii c in (97 <=? n)%nat && (n <=? 122)%nat.

(** [s.startswith(p)] *)
Fixpoint startswith (p s : string) : bool :=
  match p, s with
  | EmptyString, _ => true
  | String a p, String b s => Ascii.eqb a b && startswith p s
  | String _ _, EmptyString => false
  end.

(** [re.match('.*' + lit, s)] as a test, [lit] being literal text: some
    occurrence of [lit] is preceded by characters that [.] accepts. *)
Fixpoint match_dotstar_lit (lit s : string) : bool :=
  startswith lit s ||
  match s with
  | String c s => dot c && match_dotstar_lit lit s
  | EmptyString => false
  end.

(** [r'.*_functions\.csv'] and [r'.*_parameters\.csv'] *)
Definition functions_match : string → bool := match_dotstar_lit "_functions.csv".
Definition parameters_match : string → bool := match_dotstar_lit "_parameters.csv".

(** [$]: at the end of the string, or before a line feed that ends it. *)
Definition at_end (s : string) : bool :=
  bool_decide (s = "") || bool_decide (s = PyStr.nl).

(** The tail [.*(\.py)$] of the module pattern with greedy backtracking:
    first let [.*] take the next character, fall back to matching
    [\.py$] here.  The result is the text taken by [.*]. *)
Fixpoint module_tail (s : string) : option string :=
  match s with
  | EmptyString => None
  | String c s' =>
      match (if dot c then module_tail s' else None) with
      | Some g => Some (String c g)
      | None =>
          if startswith ".py" s && at_end (PyStr.drop 3 s) then Some "" else None
      end
  end.

(** [re.match(r'(.+)(\.py)$', s)]: [group(1)] of the match, if any. *)
Definition custom_module_match (s : string) : option string :=
  match s with
  | EmptyString => None
  | String c s' => if dot c then String c <$> module_tail s' else None
  end.

(** [group()] of that match: the whole matched text. *)
Definition group0 (g1 : string) : string := g1 +:+ ".py".

Fixpoint take_while (p : ascii → bool) (s : string) : string :=
  match s with
  | String c s' => if p c then String c (take_while p s') else EmptyString
  | EmptyString => EmptyString
  end.

(** [re.match(r'pp[0-9]+[a-z]?', s).group()], [None] when there is no
    match.  Nothing follows the optional letter, so the greedy choices are
    never undone. *)
Definition match_pp (s : string) : option string :=
  if startswith "pp" s then
    let rest := PyStr.drop 2 s in
    let ds := take_while is_digit rest in
    if bool_decide (ds = "") then None
    else
      match PyStr.drop (String.length ds) rest with
      | String c _ =>
          if is_lower c then Some ("pp" +:+ ds +:+ String c "")
          else Some ("pp" +:+ ds)
      | EmptyString => Some ("pp" +:+ ds)
      end
  else None.

(** [re.match(r'.*', s).group()]: always matches. *)
Definition match_any (s : string) : option string := Some (take_while dot s).

End Re.

(** ** gui/main_window.py: custom packages and the registries *)

Module CustomModules.

(** A pandas DataFrame read with [index_col=0]: rows in order, each with
    its index label and its cells by column name. *)
Abbreviation row := (gmap string string) (only parsing).
Abbreviation dataframe := (list (string * row)) (only parsing).

Definition index (df : dataframe) : list string := df.*1.

(** [df[col] = val] for a scalar [val] *)
Definition set_column (col val : string) (df : dataframe) : dataframe :=
  (λ r, (r.1, <[col := val]> r.2)) <$> df.

(** [read.loc[~read.index.isin(existing.index)]] *)
Definition not_in_index (existing : dataframe) (r : string * row) : bool :=
  negb (bool_decide (r.1 ∈ index existing)).

Definition to_append (read existing : dataframe) : dataframe :=
  List.filter (not_in_index existing) read.

(** [existing.append(rows)] *)
Definition append (existing rows : dataframe) : dataframe := existing ++ rows.

(** The four lines that extend the two registries with the tables of one
    custom package. *)
Definition extend_registries (pkg_name : string)
    (pd_funcs pd_params read_pd_funcs read_pd_params : dataframe)
    : dataframe * dataframe :=
  let read_pd_funcs := set_column "pkg_name" pkg_name read_pd_funcs in
  let pd_funcs_to_append := to_append read_pd_funcs pd_funcs in
  let pd_funcs := append pd_funcs pd_funcs_to_append in
  let pd_params_to_append := to_append read_pd_params pd_params in
  let pd_params := append pd_params pd_params_to_append in
  (pd_funcs, pd_params).

(** [file_dict]: paths of the two tables and the matches of the module
    files ([group(1)] of each). *)
Record file_dict : Type := {
  functions : option string;
  parameters : option string;
  modules : list string
}.

(** [os.path.join] *)
Definition join (a b : string) : string := a +:+ "/" +:+ b.

(** The loop over [listdir(pkg_path)] that fills [file_dict]. *)
Definition classify (pkg_path : string) (fd : file_dict) (file_name : string)
    : file_dict :=
  if Re.functions_match file_name then
    {| functions := Some (join pkg_path file_name);
       parameters := parameters fd; modules := modules fd |}
  else if Re.parameters_match file_name then
    {| functions := functions fd;
       parameters := Some (join pkg_path file_name); modules := modules fd |}
  else
    match Re.custom_module_match file_name with
    | Some g1 =>
        if negb (bool_decide (g1 = "__init__")) then
          {| functions := functions fd; parameters := parameters fd;
             modules := modules fd ++ [g1] |}
        else fd
    | None => fd
    end.

Definition visible_file (f : string) : bool :=
  negb (Re.startswith "." f || Re.startswith "_" f).

Definition scan (pkg_path : string) (files : list string) : file_dict :=
  foldl (classify pkg_path)
        {| functions := None; parameters := None; modules := [] |}
        (List.filter visible_file files).

(** The values of [file_dict] as Python objects. *)
Inductive value : Type :=
  | VNone
  | VPath (p : string)
  | VList (l : list string).

Definition values (fd : file_dict) : list value :=
  [ from_option VPath VNone (functions fd);
    from_option VPath VNone (parameters fd);
    VList (modules fd) ].

(** [value is not None] *)
Definition is_not_None (v : value) : bool :=
  match v with VNone => false | _ => true end.

(** [value != []] *)
Definition ne_empty_list (v : value) : bool :=
  match v with VList [] => false | _ => true end.

(** [all([value is not None or value != [] for value in file_dict.values()])] *)
Definition whole_set (fd : file_dict) : bool :=
  forallb (λ v, is_not_None v || ne_empty_list v) (values fd).

(** [[key for key in file_dict if file_dict[key] is None]] *)
Definition missing_keys (fd : file_dict) : list string :=
  (if functions fd is None then ["functions"] else []) ++
  (if parameters fd is None then ["parameters"] else []).

(** Dialogs raised during the import. *)
Inductive dialog : Type :=
  | ImportProblem (pkg_name : string) (missing : list string)
  | ModuleError (module_name : string)
  | PackageError (pkg_name : string).

(** The part of the window the import writes to: [all_modules['custom']]
    (package name to the names of its imported modules), the two
    registries, and the dialogs shown so far. *)
Record window : Type := {
  custom : gmap string (gset string);
  pd_funcs : dataframe;
  pd_params : dataframe;
  dialogs : list dialog
}.

(** No 'Import-Problem' warning among the dialogs. *)
Definition no_import_problem (ds : list dialog) : Prop :=
  ∀ pkg missing, ImportProblem pkg missing ∉ ds.

Section import.
(** What the environment decides: whether executing the module file at a
    path succeeds (creating its spec and module object is taken to), and
    what [pd.read_csv] yields for a path ([None] when it raises). *)
Variable exec_module_ok : string → bool.
Variable read_csv : string → option dataframe.
Variable custom_pkg_path : string.

(** [pd.read_csv(path, ...)] where [path] may be [None]: pandas rejects
    [None]. *)
Definition read_csv_at (path : option string) : option dataframe :=
  match path with
  | Some p => read_csv p
  | None => None
  end.

(** The loop over [file_dict['modules']]. *)
Definition import_module (pkg_name pkg_path : string)
    (acc : window * nat) (module_name : string) : window * nat :=
  let '(w, correct_count) := acc in
  let module_file_name := Re.group0 module_name in
  if exec_module_ok (join pkg_path module_file_name) then
    ({| custom := alter (λ ms, {[module_name]} ∪ ms) pkg_name (custom w);
        pd_funcs := pd_funcs w; pd_params := pd_params w;
        dialogs := dialogs w |}, S correct_count)
  else
    ({| custom := custom w; pd_funcs := pd_funcs w; pd_params := pd_params w;
        dialogs := dialogs w ++ [ModuleError module_name] |}, correct_count).

(** The body of the loop over the package directories. *)
Definition import_package (w : window) (pkg : string * list string) : window :=
  let '(pkg_name, files) := pkg in
  let pkg_path := join custom_pkg_path pkg_name in
  let fd := scan pkg_path files in
  if whole_set fd then
    let w := {| custom := <[pkg_name := ∅]> (custom w);
                pd_funcs := pd_funcs w; pd_params := pd_params w;
                dialogs := dialogs w |} in
    let '(w, correct_count) :=
      foldl (import_module pkg_name pkg_path) (w, O) (modules fd) in
    if Nat.eqb (length (modules fd)) correct_count then
      match read_csv_at (functions fd), read_csv_at (parameters fd) with
      | Some read_pd_funcs, Some read_pd_params =>
          let '(fs, ps) :=
            extend_registries pkg_name (pd_funcs w) (pd_params w)
                              read_pd_funcs read_pd_params in
          {| custom := custom w; pd_funcs := fs; pd_params := ps;
             dialogs := dialogs w |}
      | _, _ =>
          {| custom := custom w; pd_funcs := pd_funcs w; pd_params := pd_params w;
             dialogs := dialogs w ++ [PackageError pkg_name] |}
      end
    else w
  else
    {| custom := custom w; pd_funcs := pd_funcs w; pd_params := pd_params w;
       dialogs := dialogs w ++ [ImportProblem pkg_name (missing_keys fd)] |}.

(** [import_custom_modules].  [basic_funcs] and [basic_params] are the
    tables shipped with the program; [dirs] lists the entries of the
    custom-package directory that are directories, each with the names
    of the files in it. *)
Definition import_custom_modules (basic_funcs basic_params : dataframe)
    (dirs : list (string * list string)) : window :=
  foldl import_package
        {| custom := ∅; pd_funcs := basic_funcs; pd_params := basic_params;
           dialogs := [] |}
        (List.filter (λ d, negb (Re.startswith "." d.1)) dirs).
End import.

End CustomModules.

(** ** Project discovery in the two windows *)

(** Values stored in the JSON settings file. *)
Inductive json : Type :=
  | JNull
  | JString (s : string)
  | JBool (b : bool)
  | JNumber (n : Z).

#[global] Instance json_eq_dec : EqDecision json.
Proof. solve_decision. Defined.

(** [x in projects] for a list of strings: only a string can be equal to
    an element. *)
Definition json_in (x : json) (projects : list string) : bool :=
  match x with
  | JString s => bool_decide (s ∈ projects)
  | _ => false
  end.

(** gui/main_window.py *)
Module NewWindow.

Record window : Type := {
  settings : gmap string json;
  default_settings : gmap string json;
  current_project : json;
  projects : list string
}.

(** The answer given in a question box. *)
Inductive button : Type := Yes | No.

Section get_projects.
(** The names returned by [listdir(projects_path)] and the test
    [isdir(join(projects_path, p, 'data'))]. *)
Variable listdir : list string.
Variable has_data_dir : string → bool.

(** What [msg_box.exec()] evaluates to.  [msg_box] is the value returned
    by the static [QMessageBox.question], a button code, so the call is
    decided by the toolkit; it is left open here. *)
Variable msg_box_exec : result button.

(** The [while checking_projects] loop.  Each element of [answers] is
    what one [QInputDialog.getText] returns; the loop blocks ([None])
    when the answers are used up. *)
Fixpoint ask_project (answers : list (string * bool)) (w : window)
    : option (result window) :=
  match answers with
  | [] => None
  | (text, ok) :: answers =>
      let w := {| settings := settings w; default_settings := default_settings w;
                  current_project := JString text; projects := projects w |} in
      if ok && negb (bool_decide (text = "")) then
        Some (Ok {| settings := <["current_project" := JString text]> (settings w);
                    default_settings := default_settings w;
                    current_project := JString text;
                    projects := projects w ++ [text] |})
      else
        match msg_box_exec with
        | Raise e => Some (Raise e)
        | Ok Yes => Some (Raise RuntimeError)
        | Ok No => ask_project answers w
        end
  end.

(** [get_projects] *)
Definition get_projects (answers : list (string * bool)) (w : window)
    : option (result window) :=
  match Settings.get_setting (settings w) (default_settings w) "current_project" with
  | Raise e => Some (Raise e)
  | Ok cur =>
      let ps := List.filter has_data_dir listdir in
      let w := {| settings := settings w; default_settings := default_settings w;
                  current_project := cur; projects := ps |} in
      if Nat.eqb (length ps) 0 then ask_project answers w
      else if bool_decide (cur = JNull) || negb (json_in cur ps) then
        match ps with
        | first :: _ =>
            Some (Ok {| settings := <["current_project" := JString first]> (settings w);
                        default_settings := default_settings w;
                        current_project := JString first;
                        projects := ps |})
        | [] => Some (Raise IndexError)
        end
      else Some (Ok w)
  end.
End get_projects.

(** *** Starting a run *)

(** What [start] and the run dialog act on: the flag, the number of
    worker threads currently executing the pipeline, and counters of the
    dialogs created and warning boxes shown. *)
Record run_state : Type := {
  pipeline_running : bool;
  workers : nat;
  run_dialogs : nat;
  warnings : nat
}.

(** After [__init__]. *)
Definition init : run_state :=
  {| pipeline_running := false; workers := 0; run_dialogs := 0; warnings := 0 |}.

(** Modelled from the spec: [RunDialog] (pipeline_functions/function_utils,
    not among the sources).  Creating the dialog starts the one worker
    thread that runs the selected functions and marks the pipeline as
    running, as the comment on [pipeline_running] says ("True, if Pipeline
    is running (to avoid parallel starts of RunDialog)"). *)
Definition RunDialog (s : run_state) : run_state :=
  {| pipeline_running := true; workers := S (workers s);
     run_dialogs := S (run_dialogs s); warnings := warnings s |}.

(** Modelled from the spec: the end of the worker thread of a [RunDialog]
    (finished, failed or cancelled): the pipeline is no longer running. *)
Definition thread_finished (s : run_state) : run_state :=
  {| pipeline_running := false; workers := pred (workers s);
     run_dialogs := run_dialogs s; warnings := warnings s |}.

(** [MainWindow.start]: saving, reloading the modules and choosing the
    plot backend come before the dialog is created; they are taken to
    return and do not touch the run state. *)
Definition start (s : run_state) : run_state :=
  if pipeline_running s then
    {| pipeline_running := pipeline_running s; workers := workers s;
       run_dialogs := run_dialogs s; warnings := S (warnings s) |}
  else RunDialog s.

(** The events that change the run state: the user triggers Start, or
    the worker of the current run ends (possible only while one runs). *)
Inductive step : run_state → run_state → Prop :=
  | step_start s : step s (start s)
  | step_finished s : (0 < workers s)%nat → step s (thread_finished s).

Inductive reachable : run_state → Prop :=
  | reach_init : reachable init
  | reach_step s s' : reachable s → step s s' → reachable s'.

(** The flag is set exactly while the one worker runs. *)
Definition run_inv (s : run_state) : Prop :=
  (pipeline_running s = true ∧ workers s = 1%nat) ∨
  (pipeline_running s = false ∧ workers s = 0%nat).

End NewWindow.

(** pipeline_functions/gui_functions.py *)
Module OldWindow.

Section get_paths.
(** The file system and the two dialogs, each shown at most once. *)
Variable isdir : string → bool.
Variable listdir : string → list string.
Variable has_data_dir : string → string → bool.
Variable getExistingDirectory : string.
Variable getText : string * bool.

(** The OS key-value store holds text; [value(key)] is [None] for a key
    that was never set. *)
Record paths : Type := {
  qsettings : gmap string string;
  home_path : string;
  project_name : option string;
  projects : list string
}.

(** The first half of [get_paths]: the home path and the store after it.
    A stored home path that is a directory is kept; otherwise the
    directory dialog decides. *)
Definition get_home_path (qs : gmap string string)
    : result (string * gmap string string) :=
  let ask :=
    let hp := getExistingDirectory in
    if bool_decide (hp = "") then Raise RuntimeError
    else Ok (hp, <["home_path" := hp]> qs) in
  match qs !! "home_path" with
  | None => ask
  | Some h => if negb (isdir h) then ask else Ok (h, qs)
  end.

(** [project_name is None or project_name not in projects] *)
Definition unknown_project (name : option string) (ps : list string) : bool :=
  match name with
  | None => true
  | Some n => negb (bool_decide (n ∈ ps))
  end.

(** [get_paths] *)
Definition get_paths (qs : gmap string string) : result paths :=
  let! hq := get_home_path qs in
  let '(home, qs) := hq in
  let stored := qs !! "project_name" in
  let ps := List.filter (has_data_dir home) (listdir home) in
  if Nat.eqb (length ps) 0 then
    let '(text, ok) := getText in
    if ok then
      Ok {| qsettings := <["project_name" := text]> qs;
            home_path := home; project_name := Some text;
            projects := ps ++ [text] |}
    else Raise RuntimeError
  else if unknown_project stored ps then
    match ps with
    | first :: _ =>
        Ok {| qsettings := <["project_name" := first]> qs;
              home_path := home; project_name := Some first;
              projects := ps |}
    | [] => Raise IndexError
    end
  else Ok {| qsettings := qs; home_path := home; project_name := stored;
             projects := ps |}.
End get_paths.

(** *** Start, Stop and the launcher *)

Record window : Type := {
  visible : bool;
  make_it_stop : bool
}.

(** After [win = MainWindow(); win.show()]. *)
Definition shown : window := {| visible := true; make_it_stop := false |}.

(** [self.close()]: [closeEvent] stores the settings and accepts. *)
Definition close (w : window) : window :=
  {| visible := false; make_it_stop := make_it_stop w |}.

Definition start (w : window) : window := close w.

Definition stop (w : window) : window :=
  let w := close w in
  {| visible := visible w; make_it_stop := true |}.

(** [clear] unchecks the function buttons; neither field is touched. *)
Definition clear (w : window) : window := w.

(** What the user can do with the window. *)
Inductive action : Type :=
  | PressStart
  | PressStop
  | PressClear
  | CloseWindow.

Definition handle (a : action) (w : window) : window :=
  match a with
  | PressStart => start w
  | PressStop => stop w
  | PressClear => clear w
  | CloseWindow => close w
  end.

(** [app.exec_()]: handle the user's actions until the last window is
    closed; [None] while the event loop is still waiting. *)
Fixpoint exec_ (actions : list action) (w : window) : option window :=
  if visible w then
    match actions with
    | [] => None
    | a :: actions => exec_ actions (handle a w)
    end
  else Some w.

(** How the launcher ends. *)
Inductive outcome : Type :=
  | SystemExit (status : Z)
  | FallThrough.

(** The [__main__] block: run the window, then stop the interpreter when
    asked to, otherwise fall through to what follows. *)
Definition launcher (actions : list action) : option outcome :=
  match exec_ actions shown with
  | Some win => Some (if make_it_stop win then SystemExit 0 else FallThrough)
  | None => None
  end.

End OldWindow.

(** ** Pipeline.py: the dictionary lookups at the head of the subject loop *)

Module Driver.

(** The three functions of the subject organisation that add entries. *)
Inductive add_function : Type :=
  | add_erm_dict
  | add_sub_dict
  | add_bad_channels_dict.

#[global] Instance add_function_eq_dec : EqDecision add_function.
Proof. solve_decision. Defined.

(** What the loop head does that is visible from outside: the lines it
    prints (the subject header and the three messages, each with the key
    of the KeyError) and the calls it makes. *)
Inductive effect : Type :=
  | PrintHeader (name : string)
  | PrintNoErm (k : string)
  | PrintNoMri (k : string)
  | PrintNoBads (k : string)
  | Call (f : add_function).

#[global] Instance effect_eq_dec : EqDecision effect.
Proof. solve_decision. Defined.

(** The variables the lookups bind.  They are module-level names, so a
    lookup that fails leaves the binding of the previous subject, or none
    ([None]) for the first. *)
Record bindings : Type := {
  ermsub : option string;
  subtomri : option string;
  bad_channels : option (list N)
}.

Definition unbound : bindings :=
  {| ermsub := None; subtomri := None; bad_channels := None |}.

Section subject_loop.
(** [unspecified_names] and the three dictionaries read before the loop. *)
Variable unspecified_names : bool.
Variable erm_dict : gmap string string.
Variable sub_to_mri : gmap string string.
Variable bad_channels_dict : gmap string (list N).

(** The add functions live in the subject-organisation module: whether a
    call of one of them returns ([None]) or raises is a parameter. *)
Variable add_outcome : add_function → option exn.

Definition call (f : add_function) (st : bindings * list effect)
    : result (bindings * list effect) :=
  let st := (st.1, st.2 ++ [Call f]) in
  match add_outcome f with
  | None => Ok st
  | Some e => Raise e
  end.

(** [prefix = re.match(pattern, name).group()]; a failed match is [None],
    which has no [group]. *)
Definition prefix_of (name : string) : result string :=
  let m := if unspecified_names then Re.match_any name else Re.match_pp name in
  match m with
  | Some p => Ok p
  | None => Raise AttributeError
  end.

(** The head of one iteration of [for name in subjects], up to and
    including the three [try]/[except KeyError] blocks. *)
Definition lookups (st : bindings * list effect) (name : string)
    : result (bindings * list effect) :=
  let st := (st.1, st.2 ++ [PrintHeader name]) in
  let! prefix := prefix_of name in
  let! st :=
    match erm_dict !! prefix with
    | Some v =>
        Ok ({| ermsub := Some v; subtomri := subtomri st.1;
               bad_channels := bad_channels st.1 |}, st.2)
    | None => call add_erm_dict (st.1, st.2 ++ [PrintNoErm prefix])
    end in
  let! st :=
    match sub_to_mri !! prefix with
    | Some v =>
        Ok ({| ermsub := ermsub st.1; subtomri := Some v;
               bad_channels := bad_channels st.1 |}, st.2)
    | None => call add_sub_dict (st.1, st.2 ++ [PrintNoMri prefix])
    end in
  match bad_channels_dict !! name with
  | Some v =>
      Ok ({| ermsub := ermsub st.1; subtomri := subtomri st.1;
             bad_channels := Some v |}, st.2)
  | None => call add_bad_channels_dict (st.1, st.2 ++ [PrintNoBads name])
  end.

End subject_loop.

End Driver.

(** ** The intended reading of the event-code rewriting *)

Module MelofixSpec.
Import Melofix.

(** Every code-58 event has four events before it, and two code-58 events
    are at least five positions apart: the four-event groups do not
    overlap and hold no code-58 event. *)
Definition spaced (ev : list event) : Prop :=
  (∀ n e, ev !! n = Some e → code e = 58 → (4 ≤ n)%nat) ∧
  (∀ n m e e', ev !! n = Some e → code e = 58 →
               ev !! m = Some e' → code e' = 58 →
               (n < m)%nat → (n + 5 ≤ m)%nat).

Definition code_at (ev : list event) (i : nat) : option Z := code <$> ev !! i.

(** The codes of the four events before position [n], earliest first. *)
Definition window (ev : list event) (n : nat) : list (option Z) :=
  [code_at ev (n - 4); code_at ev (n - 3); code_at ev (n - 2); code_at ev (n - 1)].

(** Whether four codes are all equal. *)
Definition all_same (w : list (option Z)) : bool :=
  match w with
  | [Some d; Some c; Some b; Some a] => (a =? b) && (b =? c) && (c =? d)
  | _ => false
  end.

(** Onset and continuation codes of the fixed and of the melody paradigm. *)
Definition expected (w : list (option Z)) : list (option Z) :=
  if all_same w then [Some 1; Some 2; Some 2; Some 2]
  else [Some 3; Some 4; Some 4; Some 4].

End MelofixSpec.

Module MelofixOutcome.
Import Melofix.

(** What a run may change: the first two columns are kept, and a row whose
    code differs from the input's has one of the codes 1 to 4. *)
Definition recoded (ev ev' : list event) : Prop :=
  fst <$> ev' = fst <$> ev ∧
  ∀ j, ev' !! j = ev !! j ∨ ∃ e', ev' !! j = Some e' ∧ 1 ≤ code e' ≤ 4.

End MelofixOutcome.

(** ** Text files as the sub-dict helpers read them *)

Module TextFile.

(** The content of a file is the text seen in text mode, where every line
    end is the single character [\n]. *)

(** [f.readlines()], also the lines of [for line in f]: each line with its
    line feed; the last line has none when the text does not end in one. *)
Fixpoint readlines (s : string) : list string :=
  match s with
  | EmptyString => []
  | String c s' =>
      if Ascii.eqb c "010" then String c EmptyString :: readlines s'
      else
        match readlines s' with
        | [] => [String c EmptyString]
        | l :: ls => String c l :: ls
        end
  end.

(** The text that a sequence of [write] calls leaves in a file opened
    with ['w']. *)
Definition written (chunks : list string) : string :=
  foldr String.append EmptyString chunks.

(** No line feed in the text. *)
Fixpoint no_nl (s : string) : bool :=
  match s with
  | EmptyString => true
  | String c s' => negb (Ascii.eqb c "010") && no_nl s'
  end.

(** A name followed by a line feed. *)
Definition line_of (body : string) : string := body +:+ PyStr.nl.

(** [s[:-1]] *)
Fixpoint drop_last (s : string) : string :=
  match s with
  | EmptyString => EmptyString
  | String c EmptyString => EmptyString
  | String c s' => String c (drop_last s')
  end.

End TextFile.

(** ** pipeline_functions/gui_functions.py: the other sub-dict buttons *)

Module SubDictButtons.
Import SubDict.

(** [delete_last]: read all lines, write all but the last back.  The
    result is the new text of the file. *)
Definition delete_last (content : string) : string :=
  let dlist := TextFile.readlines content in
  TextFile.written (take (length dlist - 1) dlist).

(** The dictionary [all_items] of [sub_dict_assign_all_none]: one
    [update] per item of the list widget. *)
Definition all_items (items : list string) : pydict :=
  foldl (λ d t, update1 t PNone d) [] items.

(** [sub_dict_assign_all_none].  [reply_yes] tells whether the question
    was answered with Yes; [file] is the text of the file, [None] when it
    does not exist.  The result is the list of strings written, or [None]
    when the file is not opened at all. *)
Definition sub_dict_assign_all_none (reply_yes : bool) (file : option string)
    (items : list string) : option (list string) :=
  if reply_yes then
    match file with
    | None => Some (entry_line <$> all_items items)
    | Some _ => Some (entry_line <$> all_items items)
    end
  else None.

(** The items of a list widget filled by
    [for idx, line in enumerate(f): widget.insertItem(idx, line[:-1])]. *)
Definition list_items (content : string) : list string :=
  TextFile.drop_last <$> TextFile.readlines content.

End SubDictButtons.

Module TextFileEnds.

(** The text is empty or ends with a line feed. *)
Fixpoint ends_nl (s : string) : bool :=
  match s with
  | EmptyString => true
  | String c s' =>
      match s' with
      | EmptyString => Ascii.eqb c "010"
      | String _ _ => ends_nl s'
      end
  end.

End TextFileEnds.

(** ** pipeline_functions/gui_functions.py: more of the bad-channel dialog *)

Module BadChannelsDialog.
Import BadChannelsSelect.

(** The grid cell (row, column) of the check box of channel [x] in
    [initui]: [r = 0 + (x - 1) // 10], [c = 1 + (x - 1) % 10]. *)
Definition cell (x : Z) : Z * Z := (0 + (x - 1) / 10, 1 + (x - 1) mod 10).

(** [self.bad_chkbts[ch].setChecked(True)]; a label that is no key of
    the dictionary raises KeyError. *)
Fixpoint set_checked (ch : string) (boxes : chkbts) : result chkbts :=
  match boxes with
  | [] => Raise (KeyError ch)
  | (k, b) :: boxes =>
      if decide (ch = k) then Ok ((k, true) :: boxes)
      else cons (k, b) <$> set_checked ch boxes
  end.

(** The loop [for bad in self.bad_dict[name]]. *)
Fixpoint check_all (bads : list string) (boxes : chkbts) : result chkbts :=
  match bads with
  | [] => Ok boxes
  | bad :: bads => let! boxes := set_checked bad boxes in check_all bads boxes
  end.

(** [bad_dict_selected]: uncheck every box, then check the boxes of the
    channels stored for the selected file, if it has an entry. *)
Definition bad_dict_selected (bad_dict : gmap string (list string))
    (name : string) (boxes : chkbts) : result chkbts :=
  let boxes := (λ kb : string * bool, (kb.1, false)) <$> boxes in
  match bad_dict !! name with
  | Some bads => check_all bads boxes
  | None => Ok boxes
  end.

End BadChannelsDialog.

(** ** pipeline_functions/gui_functions.py: the function buttons of the older
    window *)

Module OldFuncButtons.

(** The truth value of an integer. *)
Definition truthy (v : Z) : bool := negb (v =? 0).

(** [for f, v in opd.all_fs.items(): self.func_dict.update({f: v})], from
    the empty dictionary of [__init__]. *)
Definition load_defaults (all_fs : gmap string Z) : gmap string Z :=
  foldl (λ d fv, <[fv.1 := fv.2]> d) ∅ (map_to_list all_fs).

(** The cache after the entries of functions that no longer exist are
    deleted ([del_list]). *)
Definition clean_cache (all_fs pre_func_dict : gmap string Z) : gmap string Z :=
  let del_list :=
    List.filter (λ k, negb (bool_decide (is_Some (all_fs !! k))))
                (map_to_list pre_func_dict).*1 in
  foldl (λ d k, delete k d) pre_func_dict del_list.

(** One step of [for f in self.func_dict]: a function that is off by
    default takes the cached value, if there is one. *)
Definition merge_one (pre_func_dict : gmap string Z)
    (func_dict : gmap string Z) (f : string) : gmap string Z :=
  match pre_func_dict !! f with
  | Some cached =>
      match func_dict !! f with
      | Some v => if negb (truthy v) then <[f := cached]> func_dict else func_dict
      | None => func_dict
      end
  | None => func_dict
  end.

(** The first part of [make_func_bts].  [pre_func_dict] is the stored
    value of ['func_checked'], [None] when nothing is stored. *)
Definition merge_cache (all_fs : gmap string Z)
    (pre_func_dict : option (gmap string Z)) : gmap string Z :=
  let func_dict := load_defaults all_fs in
  match pre_func_dict with
  | Some pre =>
      let pre := clean_cache all_fs pre in
      foldl (merge_one pre) func_dict (map_to_list func_dict).*1
  | None => func_dict
  end.

(** A [for] loop over a list whose body may raise. *)
Fixpoint for_each {A B : Type} (body : A → B → result A) (a : A) (l : list B)
    : result A :=
  match l with
  | [] => Ok a
  | b :: l => let! a := body a b in for_each body a l
  end.

(** What the body of [for function in ...] does to [func_dict]: a
    function that is selected is set to 1 (and its button checked); a
    function without an entry raises KeyError.  The button is connected
    to [select_func] only afterwards. *)
Definition check_button (func_dict : gmap string Z) (function : string)
    : result (gmap string Z) :=
  match func_dict !! function with
  | Some v => Ok (if truthy v then <[function := 1]> func_dict else func_dict)
  | None => Raise (KeyError function)
  end.

(** [func_dict] after [make_func_bts].  [calcplot_fs] is
    [opd.calcplot_fs]: the tabs in order, each with its function groups
    in order, each with its functions. *)
Definition make_func_bts (all_fs : gmap string Z)
    (pre_func_dict : option (gmap string Z))
    (calcplot_fs : list (string * list (string * list string)))
    : result (gmap string Z) :=
  for_each (λ func_dict tab,
              for_each (λ func_dict function_group,
                          for_each check_button func_dict function_group.2)
                       func_dict tab.2)
           (merge_cache all_fs pre_func_dict) calcplot_fs.

(** The functions that get a button, in the order of the loops. *)
Definition buttons (calcplot_fs : list (string * list (string * list string)))
    : list string :=
  tab ← calcplot_fs; function_group ← tab.2; function_group.2.

(** The widgets put into the grid of a tab. *)
Inductive widget : Type :=
  | GroupLabel (function_group : string)
  | FuncButton (function : string).

Definition r_max : nat := 15.

(** The counters of the grid and the widgets placed so far, each with
    its (row, column). *)
Record grid : Type := {
  r_cnt : nat;
  c_cnt : nat;
  placed : list (widget * (nat * nat))
}.

(** The body of [for function in ...]: place the button, go down one row,
    start a new column at [r_max]. *)
Definition add_button (g : grid) (function : string) : grid :=
  let placed := placed g ++ [(FuncButton function, (r_cnt g, c_cnt g))] in
  let r := S (r_cnt g) in
  if (r_max <=? r)%nat
  then {| r_cnt := 0; c_cnt := S (c_cnt g); placed := placed |}
  else {| r_cnt := r; c_cnt := c_cnt g; placed := placed |}.

(** The body of [for function_group in ...]: the label, then the
    buttons. *)
Definition add_group (g : grid) (group : string * list string) : grid :=
  let r := if (r_max <? r_cnt g)%nat then 0%nat else r_cnt g in
  let g := {| r_cnt := S r; c_cnt := c_cnt g;
              placed := placed g ++ [(GroupLabel group.1, (r, c_cnt g))] |} in
  foldl add_button g group.2.

(** The grid of one tab; [groups] is [opd.calcplot_fs[tab_name]] in its
    order. *)
Definition layout_tab (groups : list (string * list string))
    : list (widget * (nat * nat)) :=
  placed (foldl add_group {| r_cnt := 0; c_cnt := 0; placed := [] |} groups).

(** All widgets placed so far lie in rows up to 15, at pairwise different
    cells, and before the cell the counters point to, column by column. *)
Definition grid_ok (bound : nat) (g : grid) : Prop :=
  (r_cnt g ≤ bound)%nat ∧
  NoDup (snd <$> placed g) ∧
  ∀ p, p ∈ placed g →
       (p.2.1 ≤ 15)%nat ∧ (16 * p.2.2 + p.2.1 < 16 * c_cnt g + r_cnt g)%nat.

(** The first action that is not a press of Clear. *)
Fixpoint first_closing (actions : list OldWindow.action) : option OldWindow.action :=
  match actions with
  | [] => None
  | OldWindow.PressClear :: actions => first_closing actions
  | a :: _ => Some a
  end.

End OldFuncButtons.

(** ** gui/main_window.py: the function buttons and the project tools of
    the newer window *)

Module NewWindowTools.
Import CustomModules.

(** *** The selection kept in step with the function table *)

(** [pd_funcs['module'].isin(selected_modules)] for one row; a row
    without a module is not in the list. *)
Definition module_selected (selected_modules : list string)
    (r : string * row) : bool :=
  match r.2 !! "module" with
  | Some m => bool_decide (m ∈ selected_modules)
  | None => false
  end.

Definition cleaned_pd_funcs (pd_funcs : dataframe)
    (selected_modules : list string) : dataframe :=
  List.filter (module_selected selected_modules) pd_funcs.

(** The two loops of [add_func_bts] over [sel_functions]: drop the
    functions that are not in the table, add the missing ones with 0.
    Each list comprehension is built before its loop runs. *)
Definition sync_sel_functions (idx : list string) (sel_functions : gmap string Z)
    : gmap string Z :=
  let f_rm := List.filter (λ f, negb (bool_decide (f ∈ idx)))
                          (map_to_list sel_functions).*1 in
  let sel_functions := foldl (λ s f, delete f s) sel_functions f_rm in
  let f_add := List.filter (λ f, bool_decide (sel_functions !! f = None)) idx in
  foldl (λ s f, <[f := 0]> s) sel_functions f_add.

(** [sel_functions] after [add_func_bts]; nothing is done for an empty
    table.  (Ordering the table by group is taken to succeed.) *)
Definition add_func_bts_selection (pd_funcs : dataframe)
    (selected_modules : list string) (sel_functions : gmap string Z)
    : gmap string Z :=
  let cleaned := cleaned_pd_funcs pd_funcs selected_modules in
  if Nat.eqb (length cleaned) 0 then sel_functions
  else sync_sel_functions (index cleaned) sel_functions.

(** *** The rows of group boxes in a tab *)

(** A group box with the width of its size hint. *)
Abbreviation group_box := (string * Z)%type (only parsing).

Record tab_layout : Type := {
  h_size : Z;
  tab_h_layout : list group_box;
  tab_v_layout : list (list group_box)
}.

(** The end of the body of [for function_group, _ in group_grouped]:
    start a new row when the box does not fit, then add the box. *)
Definition add_group_box (max_h_size : Z) (t : tab_layout) (box : group_box)
    : tab_layout :=
  let h := h_size t + box.2 in
  if h >? max_h_size then
    {| h_size := box.2; tab_h_layout := [box];
       tab_v_layout := tab_v_layout t ++ [tab_h_layout t] |}
  else
    {| h_size := h; tab_h_layout := tab_h_layout t ++ [box];
       tab_v_layout := tab_v_layout t |}.

(** The rows of a tab, top to bottom. *)
Definition tab_rows (max_h_size : Z) (boxes : list group_box)
    : list (list group_box) :=
  let t := foldl (add_group_box max_h_size)
                 {| h_size := 0; tab_h_layout := []; tab_v_layout := [] |} boxes in
  if (0 <? length (tab_h_layout t))%nat
  then tab_v_layout t ++ [tab_h_layout t]
  else tab_v_layout t.

Definition row_width (r : list group_box) : Z := foldr (λ b w, b.2 + w) 0 r.

(** *** Buttons and selection *)

Record push_button : Type := {
  isChecked : bool;
  isEnabled : bool
}.

Definition truthy (v : Z) : bool := negb (v =? 0).

(** [func_selected] *)
Definition func_selected (bt_dict : gmap string push_button)
    (sel_functions : gmap string Z) (function : string) : result (gmap string Z) :=
  match bt_dict !! function with
  | Some b => Ok (<[function := if isChecked b then 1 else 0]> sel_functions)
  | None => Raise (KeyError function)
  end.

(** [func_group_toggled] *)
Definition func_group_toggled (bt_dict : gmap string push_button)
    (sel_functions : gmap string Z) : gmap string Z :=
  foldl (λ s fb, <[fb.1 := if isChecked fb.2 && isEnabled fb.2 then 1 else 0]> s)
        sel_functions (map_to_list bt_dict).

(** [update_selected_funcs]: every button is unchecked and then checked
    again if its function is selected. *)
Definition update_selected_funcs (bt_dict : gmap string push_button)
    (sel_functions : gmap string Z) : gmap string push_button :=
  map_imap (λ function b,
              Some {| isChecked := match sel_functions !! function with
                                   | Some v => truthy v
                                   | None => false
                                   end;
                      isEnabled := isEnabled b |}) bt_dict.

(** [clear] *)
Definition clear (bt_dict : gmap string push_button) (sel_functions : gmap string Z)
    : gmap string push_button * gmap string Z :=
  ((λ b, {| isChecked := false; isEnabled := isEnabled b |}) <$> bt_dict,
   foldl (λ s fb, <[fb.1 := 0]> s) sel_functions (map_to_list bt_dict)).

(** *** Adding and changing the project *)

(** The window of [NewWindow] together with the items of the project
    box. *)
Record project_state : Type := {
  win : NewWindow.window;
  project_box : list string
}.

(** [save_main], as far as it touches the settings. *)
Definition save_main (w : NewWindow.window) : NewWindow.window :=
  {| NewWindow.settings :=
       <["current_project" := NewWindow.current_project w]> (NewWindow.settings w);
     NewWindow.default_settings := NewWindow.default_settings w;
     NewWindow.current_project := NewWindow.current_project w;
     NewWindow.projects := NewWindow.projects w |}.

(** [update_project_box], called at the end of [project_updated]: the box
    is rebuilt from [projects]; selecting the first project when the
    current one is not listed fails on an empty list. *)
Definition update_project_box (s : project_state) : result project_state :=
  let s' := {| win := win s; project_box := NewWindow.projects (win s) |} in
  if json_in (NewWindow.current_project (win s)) (NewWindow.projects (win s))
  then Ok s'
  else match NewWindow.projects (win s) with
       | _ :: _ => Ok s'
       | [] => Raise IndexError
       end.

(** [add_project]; [project] and [ok] are what the input dialog returns.
    (Creating the project object and refreshing the docks are taken to
    succeed.) *)
Definition add_project (project : string) (ok : bool) (s : project_state)
    : result project_state :=
  let w := save_main (win s) in
  if ok then
    let w := {| NewWindow.settings :=
                  <["current_project" := JString project]> (NewWindow.settings w);
                NewWindow.default_settings := NewWindow.default_settings w;
                NewWindow.current_project := JString project;
                NewWindow.projects := NewWindow.projects w ++ [project] |} in
    update_project_box {| win := w; project_box := project_box s ++ [project] |}
  else Ok {| win := w; project_box := project_box s |}.

(** [project_changed]; [itemText] of an index outside the box is the
    empty string. *)
Definition project_changed (idx : nat) (s : project_state) : result project_state :=
  let w := save_main (win s) in
  let w := {| NewWindow.settings := NewWindow.settings w;
              NewWindow.default_settings := NewWindow.default_settings w;
              NewWindow.current_project := JString (default "" (project_box s !! idx));
              NewWindow.projects := NewWindow.projects w |} in
  update_project_box {| win := w; project_box := project_box s |}.

(** The box lists the projects, and the current project is one of
    them. *)
Definition projects_ok (s : project_state) : Prop :=
  project_box s = NewWindow.projects (win s) ∧
  ∃ p, NewWindow.current_project (win s) = JString p ∧
       p ∈ NewWindow.projects (win s).

End NewWindowTools.

(** ** Reading the log of the subject loop *)

Module DriverLog.


End DriverLog.

(** ** The directories and files the two windows create

    The calls of [os] and [os.path] are modelled over a file system that
    maps a path to a directory or to a regular file with its text.  A
    path is given by its components, innermost first; names are taken to
    be single components (no separator, neither [.] nor [..]), and links
    and access rights are left out. *)

Module FileSystem.

Inductive node : Type :=
  | Dir
  | File (text : string).

Abbreviation path := (list string) (only parsing).
Abbreviation tree := (gmap (list string) node) (only parsing).

(** The subclasses of OSError that the calls below raise. *)
Inductive os_error : Type :=
  | FileExistsError
  | FileNotFoundError
  | NotADirectoryError
  | IsADirectoryError.

Inductive os_result (A : Type) : Type :=
  | Done (a : A)
  | OSError (e : os_error).
Arguments Done {A} a.
Arguments OSError {A} e.

(** A [for] loop whose body may raise. *)
Fixpoint os_for {A B : Type} (body : A → B → os_result A) (a : A) (l : list B)
    : os_result A :=
  match l with
  | [] => Done a
  | b :: l =>
      match body a b with
      | Done a => os_for body a l
      | OSError e => OSError e
      end
  end.

(** [os.path.join(p, name)]; an empty [name] only adds a separator. *)
Definition join (p : path) (name : string) : path :=
  if bool_decide (name = "") then p else name :: p.

(** [os.path.exists], [os.path.isdir], [os.path.isfile] *)
Definition exists_ (p : path) (t : tree) : bool :=
  match t !! p with Some _ => true | None => false end.

Definition isdir (p : path) (t : tree) : bool :=
  match t !! p with Some Dir => true | _ => false end.

Definition isfile (p : path) (t : tree) : bool :=
  match t !! p with Some (File _) => true | _ => false end.

(** [os.mkdir(p)]: the parent is resolved first. *)
Definition mkdir (p : path) (t : tree) : os_result tree :=
  match p with
  | [] => OSError FileExistsError
  | _ :: parent =>
      match t !! parent with
      | Some Dir =>
          if exists_ p t then OSError FileExistsError else Done (<[p := Dir]> t)
      | Some (File _) => OSError NotADirectoryError
      | None => OSError FileNotFoundError
      end
  end.



(** *** pipeline_functions/gui_functions.py: [make_paths] *)

Section make_paths.
Variable home_path : path.
Variable project_name : string.







End make_paths.

(** *** gui/main_window.py: [make_base_paths] *)

Definition base_paths (home_path : path) : list path :=
  [join home_path "projects"; join home_path "freesurfer";
   join home_path "custom_packages"].

(** [make_base_paths]; storing the configuration of mne is taken to
    succeed. *)
Definition make_base_paths (home_path : path) (t : tree) : os_result tree :=
  os_for (λ t p, if negb (isdir p t) then mkdir p t else Done t)
         t (base_paths home_path).

End FileSystem.

(** ** Pipeline.py: the lookups of one subject with what they print

    The lookups of [Driver] again, now keeping what was printed and
    called up to the point where an error ends the iteration. *)

Module DriverTrace.
Import Driver.

Section trace.
Variable unspecified_names : bool.
Variable erm_dict : gmap string string.
Variable sub_to_mri : gmap string string.
Variable bad_channels_dict : gmap string (list N).
Variable add_outcome : add_function → option exn.

(** A call of an add function: the call is made; if the function raises,
    its error is what ends the iteration. *)
Definition call (f : add_function) (st : bindings * list effect)
    : (bindings * list effect) * option exn :=
  ((st.1, st.2 ++ [Call f]), add_outcome f).

(** The statements after a [try] block run only if no error left it. *)
Definition next (r : (bindings * list effect) * option exn)
    (k : bindings * list effect → (bindings * list effect) * option exn)
    : (bindings * list effect) * option exn :=
  match r.2 with
  | None => k r.1
  | Some _ => r
  end.

(** The head of one iteration of [for name in subjects]: the state it
    reaches and the error that ends it, if one does. *)
Definition lookups (st : bindings * list effect) (name : string)
    : (bindings * list effect) * option exn :=
  let st := (st.1, st.2 ++ [PrintHeader name]) in
  match prefix_of unspecified_names name with
  | Raise e => (st, Some e)
  | Ok prefix =>
      next
        match erm_dict !! prefix with
        | Some v =>
            (({| ermsub := Some v; subtomri := subtomri st.1;
                 bad_channels := bad_channels st.1 |}, st.2), None)
        | None => call add_erm_dict (st.1, st.2 ++ [PrintNoErm prefix])
        end
        (λ st,
           next
             match sub_to_mri !! prefix with
             | Some v =>
                 (({| ermsub := ermsub st.1; subtomri := Some v;
                      bad_channels := bad_channels st.1 |}, st.2), None)
             | None => call add_sub_dict (st.1, st.2 ++ [PrintNoMri prefix])
             end
             (λ st,
                match bad_channels_dict !! name with
                | Some v =>
                    (({| ermsub := ermsub st.1; subtomri := subtomri st.1;
                         bad_channels := Some v |}, st.2), None)
                | None =>
                    call add_bad_channels_dict (st.1, st.2 ++ [PrintNoBads name])
                end))
  end.
End trace.

End DriverTrace.

(** ** gui/main_window.py: the home path of the newer window *)

Module HomePath.

(** How [get_home_path] can end: with the home path set and the base
    paths made, with the RuntimeError of a cancelled start, or with the
    error that [make_base_paths] raised after the home path was set. *)
Inductive ended : Type :=
  | Home (home_path : string)
  | UserCanceled
  | BasePathsError (home_path : string) (e : FileSystem.os_error).

Section get_home_path.
(** [isdir] and [os.access(_, os.W_OK)]. *)
Variable isdir : string → bool.
Variable writable : string → bool.

(** What [make_base_paths] does once the home path is set: it returns
    ([None]) or raises the error of an [os.mkdir]. *)
Variable make_base_paths : string → option FileSystem.os_error.

(** The first [if]/[elif] chain of the loop: each of its three branches
    opens the directory dialog. *)
Definition needs_dialog (hp : option string) : bool :=
  match hp with
  | None => true
  | Some h =>
      if bool_decide (h = "") then true
      else if negb (isdir h) then true
      else negb (writable h)
  end.

(** The [while checking_home_path] loop.  [dialogs] are the answers of
    the directory dialog and [answers] those of the question box, in the
    order they are given; the loop blocks ([None]) when it needs one that
    is not there.  [fuel] bounds the number of iterations. *)
Fixpoint home_loop (fuel : nat) (hp : option string) (dialogs : list string)
    (answers : list NewWindow.button) : option ended :=
  match fuel with
  | O => None
  | S fuel =>
      let asked :=
        if needs_dialog hp then
          match dialogs with
          | [] => None
          | d :: dialogs => Some (d, dialogs)
          end
        else
          match hp with
          | Some h => Some (h, dialogs)
          | None => None
          end in
      match asked with
      | None => None
      | Some (hp, dialogs) =>
          if bool_decide (hp = "") then
            match answers with
            | [] => None
            | NewWindow.Yes :: _ => Some UserCanceled
            | NewWindow.No :: answers => home_loop fuel (Some hp) dialogs answers
            end
          else if negb (writable hp) then home_loop fuel (Some hp) dialogs answers
          else
            match make_base_paths hp with
            | None => Some (Home hp)
            | Some e => Some (BasePathsError hp e)
            end
      end
  end.

(** [get_home_path]: [stored] is [qsettings.value('home_path')].  Every
    iteration but the last uses up an answer of the directory dialog, so
    one iteration more than there are answers is always enough. *)
Definition get_home_path (stored : option string) (dialogs : list string)
    (answers : list NewWindow.button) : option ended :=
  home_loop (S (length dialogs)) stored dialogs answers.
End get_home_path.

End HomePath.

(** * Properties *)

(** ** The patterns on sample names *)

Example functions_match_ex :
  Re.functions_match "melofix_functions.csv" = true ∧
  Re.functions_match "functions.csv" = false ∧
  Re.functions_match "old_functions.csv.bak" = true.
Proof. repeat split. Qed.

Example custom_module_match_ex :
  Re.custom_module_match "melofix.py" = Some "melofix" ∧
  Re.custom_module_match ".py" = None ∧
  Re.custom_module_match "a.py.py" = Some "a.py" ∧
  Re.custom_module_match "notes.pyc" = None.
Proof. repeat split. Qed.

Example match_pp_ex :
  Re.match_pp "pp1a_256_b" = Some "pp1a" ∧
  Re.match_pp "pp20_128_a" = Some "pp20" ∧
  Re.match_pp "subject_01" = None ∧
  Re.match_any "subject_01" = Some "subject_01".
Proof. repeat split. Qed.

(** ** Event-code rewriting (melofix) *)

Section melofix_facts.
Import Melofix.

Lemma np_index_nat (len : nat) (z : Z) (k : nat) :
  z = Z.of_nat k → (k < len)%nat → np_index len z = Some k.
Proof.
  intros -> Hk. unfold np_index.
  destruct (Z.leb_spec 0 (Z.of_nat k)); [|lia].
  destruct (Z.ltb_spec (Z.of_nat k) (Z.of_nat len)); [|lia].
  simpl. by rewrite Nat2Z.id.
Qed.

Lemma get_nat (ev : list event) (z : Z) (k : nat) e :
  z = Z.of_nat k → ev !! k = Some e → get ev z = Ok (code e).
Proof.
  intros Hz He. unfold get.
  rewrite (np_index_nat _ z k) by eauto using lookup_lt_Some.
  by rewrite He.
Qed.

Lemma set_nat (ev : list event) (z : Z) (k : nat) c :
  z = Z.of_nat k → (k < length ev)%nat →
  set ev z c = Ok (alter (set_code c) k ev).
Proof. intros Hz Hk. unfold set. by rewrite (np_index_nat _ z k). Qed.

Lemma assign4_back (ev : list event) (n : nat) onset rest :
  (4 ≤ n)%nat → (n < length ev)%nat →
  assign4 ev (Z.of_nat n) onset rest = Ok (rewrite4 n onset rest ev).
Proof.
  intros H4 Hn. unfold assign4, rewrite4.
  rewrite (set_nat ev _ (n - 4)) by lia. simpl.
  rewrite (set_nat _ _ (n - 3)) by (rewrite ?length_alter; lia). simpl.
  rewrite (set_nat _ _ (n - 2)) by (rewrite ?length_alter; lia). simpl.
  by rewrite (set_nat _ _ (n - 1)) by (rewrite ?length_alter; lia).
Qed.

Lemma all_equal4_ok (ev : list event) (n : nat) :
  (4 ≤ n)%nat → (n < length ev)%nat →
  ∃ b, all_equal4 ev (Z.of_nat n) = Ok b.
Proof.
  intros H4 Hn. unfold all_equal4.
  destruct (lookup_lt_is_Some_2 ev (n - 1)%nat) as [e1 H1]; [lia|].
  destruct (lookup_lt_is_Some_2 ev (n - 2)%nat) as [e2 H2]; [lia|].
  destruct (lookup_lt_is_Some_2 ev (n - 3)%nat) as [e3 H3]; [lia|].
  destruct (lookup_lt_is_Some_2 ev (n - 4)%nat) as [e4 He4]; [lia|].
  rewrite (get_nat ev (Z.of_nat n - 1) (n - 1)%nat e1 ltac:(lia) H1),
          (get_nat ev (Z.of_nat n - 2) (n - 2)%nat e2 ltac:(lia) H2).
  simpl. destruct (negb _); [eauto|].
  rewrite (get_nat ev (Z.of_nat n - 3) (n - 3)%nat e3 ltac:(lia) H3). simpl.
  destruct (negb _); [eauto|].
  rewrite (get_nat ev (Z.of_nat n - 4) (n - 4)%nat e4 ltac:(lia) He4). simpl. eauto.
Qed.

Lemma get_here (ev : list event) (n : nat) e :
  ev !! n = Some e → get ev (Z.of_nat n) = Ok (code e).
Proof. intros He. by apply (get_nat ev _ n). Qed.

(** An iteration at an event whose code is not 58 changes nothing. *)
Lemma body_other (ev : list event) (n : nat) e :
  ev !! n = Some e → code e ≠ 58 → body ev (Z.of_nat n) = Ok ev.
Proof.
  intros He Hc. unfold body. rewrite (get_here _ _ _ He). simpl.
  by destruct (Z.eqb_spec (code e) 58).
Qed.

(** An iteration at a code-58 event with four predecessors rewrites
    exactly those four, to 1,2,2,2 or to 3,4,4,4. *)
Lemma body_58 (ev : list event) (n : nat) e :
  ev !! n = Some e → code e = 58 → (4 ≤ n)%nat →
  ∃ b, all_equal4 ev (Z.of_nat n) = Ok b ∧
       body ev (Z.of_nat n) =
         Ok (if b then rewrite4 n 1 2 ev else rewrite4 n 3 4 ev).
Proof.
  intros He Hc H4. pose proof (lookup_lt_Some _ _ _ He) as Hn.
  destruct (all_equal4_ok ev n H4 Hn) as [b Hb]. exists b. split; [done|].
  unfold body. rewrite (get_here _ _ _ He). simpl. rewrite Hc. simpl.
  rewrite Hb. simpl. destruct b; by apply assign4_back.
Qed.

Lemma rewrite4_length n o r (ev : list event) :
  length (rewrite4 n o r ev) = length ev.
Proof. unfold rewrite4. by rewrite !length_alter. Qed.

Lemma rewrite4_lookup_other n o r (ev : list event) j :
  (4 ≤ n)%nat → (j + 4 < n ∨ n ≤ j)%nat → rewrite4 n o r ev !! j = ev !! j.
Proof.
  intros H4 Hj. unfold rewrite4.
  rewrite !list_lookup_alter_ne by lia. done.
Qed.

Lemma alter_code_columns c k (ev : list event) :
  fst <$> alter (set_code c) k ev = fst <$> ev.
Proof.
  apply list_eq. intros j. rewrite !list_lookup_fmap, list_lookup_alter.
  case_decide; [subst|done]. by destruct (ev !! j).
Qed.

Lemma rewrite4_columns n o r (ev : list event) :
  fst <$> rewrite4 n o r ev = fst <$> ev.
Proof. unfold rewrite4. by rewrite !alter_code_columns. Qed.

(** The codes of the four predecessors after one branch. *)
Lemma rewrite4_codes n o r (ev : list event) :
  (4 ≤ n)%nat → (n ≤ length ev)%nat →
  code <$> rewrite4 n o r ev !! (n - 4)%nat = Some o ∧
  code <$> rewrite4 n o r ev !! (n - 3)%nat = Some r ∧
  code <$> rewrite4 n o r ev !! (n - 2)%nat = Some r ∧
  code <$> rewrite4 n o r ev !! (n - 1)%nat = Some r.
Proof.
  intros H4 Hn. unfold rewrite4.
  destruct (lookup_lt_is_Some_2 ev (n - 1)%nat) as [e1 H1]; [lia|].
  destruct (lookup_lt_is_Some_2 ev (n - 2)%nat) as [e2 H2]; [lia|].
  destruct (lookup_lt_is_Some_2 ev (n - 3)%nat) as [e3 H3]; [lia|].
  destruct (lookup_lt_is_Some_2 ev (n - 4)%nat) as [e4 He4]; [lia|].
  repeat split.
  - rewrite !list_lookup_alter_ne by lia.
    by rewrite list_lookup_alter_eq, He4.
  - rewrite !list_lookup_alter_ne by lia.
    rewrite list_lookup_alter_eq, list_lookup_alter_ne by lia. by rewrite H3.
  - rewrite list_lookup_alter_ne by lia.
    rewrite list_lookup_alter_eq, !list_lookup_alter_ne by lia. by rewrite H2.
  - rewrite list_lookup_alter_eq, !list_lookup_alter_ne by lia. by rewrite H1.
Qed.

(** The loop from position [k] on, started in a state that still agrees
    with the input from [k] on and outside the predecessors of 58s. *)
Lemma loop_frame (ev : list event) :
  (∀ n e, ev !! n = Some e → code e = 58 → (4 ≤ n)%nat) →
  ∀ m k cur,
    (k + m = length ev)%nat →
    fst <$> cur = fst <$> ev →
    (∀ j, (k ≤ j)%nat → cur !! j = ev !! j) →
    (∀ j, ¬ predecessor_of_58 ev j → cur !! j = ev !! j) →
    ∃ ev', loop (Z.of_nat <$> seq k m) cur = Ok ev' ∧
           fst <$> ev' = fst <$> ev ∧
           (∀ j, ¬ predecessor_of_58 ev j → ev' !! j = ev !! j).
Proof.
  intros H58. induction m as [|m IH]; intros k cur Hkm Hcol Hup Hfree.
  { exists cur. simpl. eauto. }
  simpl.
  destruct (lookup_lt_is_Some_2 ev k) as [e He]; [lia|].
  assert (cur !! k = Some e) as Hcur by (rewrite Hup; [done|lia]).
  destruct (decide (code e = 58)) as [Hc|Hc].
  - pose proof (H58 _ _ He Hc) as H4.
    destruct (body_58 cur k e Hcur Hc H4) as (b & _ & ->). simpl.
    set (cur' := if b then rewrite4 k 1 2 cur else rewrite4 k 3 4 cur).
    assert (∀ j, (j + 4 < k ∨ k ≤ j)%nat → cur' !! j = cur !! j) as Hother.
    { intros j Hj. unfold cur'. destruct b; by apply rewrite4_lookup_other. }
    apply (IH (S k) cur'); [lia| | |].
    + unfold cur'. destruct b; by rewrite rewrite4_columns.
    + intros j Hj. rewrite Hother by lia. apply Hup. lia.
    + intros j Hj. rewrite Hother; [by apply Hfree|].
      destruct (decide (j + 4 < k ∨ k ≤ j)%nat) as [|Hin]; [done|].
      exfalso. apply Hj. exists k, e. repeat split; [done..|lia|lia].
  - rewrite (body_other cur k e Hcur Hc). simpl.
    apply (IH (S k) cur); [lia|done| |done].
    intros j Hj. apply Hup. lia.
Qed.

(** When every code-58 event has four events before it, the function
    returns, keeps the first two columns, and keeps every row that is
    not one of the four predecessors of a code-58 event. *)
Theorem melofix_frame (ev : list event) :
  ev ≠ [] →
  (∀ n e, ev !! n = Some e → code e = 58 → (4 ≤ n)%nat) →
  ∃ ev', melofix_event_handling ev = Ok ev' ∧
         fst <$> ev' = fst <$> ev ∧
         (∀ j, ¬ predecessor_of_58 ev j → ev' !! j = ev !! j).
Proof.
  intros Hne H58. unfold melofix_event_handling.
  destruct ev as [|e0 ev0]; [done|]. simpl Nat.eqb. cbv iota.
  apply (loop_frame (e0 :: ev0) H58 (length (e0 :: ev0)) 0%nat); auto.
Qed.

Lemma melofix_frame_witness :
  ∃ ev', melofix_event_handling (of_codes [7;7;7;7;58;9]) = Ok ev' ∧
         fst <$> ev' = fst <$> of_codes [7;7;7;7;58;9] ∧
         (∀ j, ¬ predecessor_of_58 (of_codes [7;7;7;7;58;9]) j →
               ev' !! j = of_codes [7;7;7;7;58;9] !! j).
Proof.
  apply melofix_frame; [done|].
  intros n e He Hc.
  do 4 (destruct n as [|n]; [simpl in He; injection He as <-; by compute in Hc|]).
  lia.
Defined.

(** The assertion on an empty array. *)
Lemma melofix_empty : melofix_event_handling [] = Raise AssertionError.
Proof. reflexivity. Qed.

End melofix_facts.


(** C8.  On an array whose first event has code 58 the indices [n-1 .. n-4]
    are negative and numpy counts them from the end: the four events that
    FOLLOW the code-58 event are rewritten (here to 1,2,2,2).  No event of
    this array precedes a code-58 event, so by the claim every event keeps
    its code; the last four do not. *)
Theorem melofix_first_event_58_wraps :
  let events := Melofix.of_codes [58; 5; 5; 5; 5] in
  Melofix.melofix_event_handling events = Ok (Melofix.of_codes [58; 1; 2; 2; 2]) ∧
  (∀ j, ¬ Melofix.predecessor_of_58 events j) ∧
  (∀ j e, (1 ≤ j)%nat → events !! j = Some e →
          ∃ e', Melofix.melofix_event_handling events = Ok e' ∧
                Melofix.code <$> e' !! j ≠ Some (Melofix.code e)).
Proof.
  split; [reflexivity|split].
  - intros j (n & e & He & Hc & Hj).
    destruct n as [|n]; [lia|].
    do 4 (destruct n as [|n];
          [simpl in He; injection He as <-; by compute in Hc|]).
    done.
  - intros j e Hj He. eexists. split; [reflexivity|].
    destruct j as [|j]; [lia|].
    do 4 (destruct j as [|j];
          [simpl in He; injection He as <-; by compute|]).
    done.
Qed.

(** With fewer than four events the same indices are out of range and the
    function stops with IndexError, not with the assertion. *)
Lemma melofix_short_array_IndexError :
  Melofix.melofix_event_handling (Melofix.of_codes [5; 58]) = Raise IndexError.
Proof. reflexivity. Qed.

(** ** Bad-channel labels *)

Section bad_channel_facts.
Import BadChannelsSelect.

Lemma labels_ok : forallb label_ok channels = true.
Proof. vm_compute. reflexivity. Qed.

Lemma elem_of_channels (x : N) : (1 ≤ x ≤ 122)%N → x ∈ channels.
Proof.
  intros Hx. unfold channels, channel_count.
  apply list_elem_of_fmap. exists (N.to_nat x). split; [lia|].
  apply elem_of_seq. lia.
Qed.

Lemma label_ok_channel (x : N) : x ∈ channels → label_ok x = true.
Proof.
  intros Hx. pose proof labels_ok as H.
  rewrite forallb_forall in H. apply H. by apply list_elem_of_In.
Qed.

(** The loop of [bad_dict_assign] over boxes whose labels convert back. *)
Lemma bad_dict_assign_loop_spec (checked : N → bool) (xs : list N) :
  (∀ x, x ∈ xs → PyStr.int (PyStr.last_chars 3 (ch_name x)) = Ok x) →
  ∀ acc1 acc2,
    bad_dict_assign_loop ((λ x, (ch_name x, checked x)) <$> xs) acc1 acc2
    = Ok (acc1 ++ (ch_name <$> List.filter checked xs),
          acc2 ++ List.filter checked xs).
Proof.
  induction xs as [|x xs IH]; intros Hxs acc1 acc2; simpl.
  { by rewrite !app_nil_r. }
  assert (∀ y, y ∈ xs → PyStr.int (PyStr.last_chars 3 (ch_name y)) = Ok y)
    as Hxs' by (intros; apply Hxs; by right).
  destruct (checked x) eqn:Hc; simpl.
  - rewrite Hxs by left. simpl. rewrite IH by done.
    by rewrite <- !app_assoc.
  - by apply IH.
Qed.
End bad_channel_facts.

(** C10.  For a channel number [x] from 1 to 122 the label is ['MEG ']
    followed by three characters, the zero-padded [x]; the integer value of
    the label's last three characters is [x] again; and for any choice of
    checked boxes [bad_dict_assign] collects the names of the checked
    boxes together with exactly their numbers. *)
Theorem bad_channel_label_left_inverse (checked : N → bool) (x : N) :
  (1 ≤ x ≤ 122)%N →
  BadChannelsSelect.ch_name x = "MEG " +:+ PyStr.format_0w 3 x ∧
  String.length (PyStr.format_0w 3 x) = 3%nat ∧
  PyStr.int (PyStr.last_chars 3 (BadChannelsSelect.ch_name x)) = Ok x ∧
  BadChannelsSelect.bad_dict_assign (BadChannelsSelect.boxes_with checked)
  = Ok (BadChannelsSelect.ch_name <$> List.filter checked BadChannelsSelect.channels,
        List.filter checked BadChannelsSelect.channels).
Proof.
  intros Hx.
  pose proof (label_ok_channel x (elem_of_channels x Hx)) as Hok.
  unfold BadChannelsSelect.label_ok in Hok.
  apply andb_prop in Hok as [Hok H3]. apply andb_prop in Hok as [H1 H2].
  apply bool_decide_eq_true in H1, H2, H3.
  repeat split; [done..|].
  unfold BadChannelsSelect.bad_dict_assign, BadChannelsSelect.boxes_with.
  rewrite (bad_dict_assign_loop_spec checked); [done|].
  intros y Hy. pose proof (label_ok_channel y Hy) as Hy'.
  unfold BadChannelsSelect.label_ok in Hy'. apply andb_prop in Hy' as [_ Hy'].
  by apply bool_decide_eq_true in Hy'.
Qed.

Lemma bad_channel_label_left_inverse_witness :
  BadChannelsSelect.ch_name 7 = "MEG " +:+ PyStr.format_0w 3 7 ∧
  String.length (PyStr.format_0w 3 7) = 3%nat ∧
  PyStr.int (PyStr.last_chars 3 (BadChannelsSelect.ch_name 7)) = Ok 7%N ∧
  BadChannelsSelect.bad_dict_assign (BadChannelsSelect.boxes_with (N.eqb 7))
  = Ok (BadChannelsSelect.ch_name <$> List.filter (N.eqb 7) BadChannelsSelect.channels,
        List.filter (N.eqb 7) BadChannelsSelect.channels).
Proof. apply (bad_channel_label_left_inverse (N.eqb 7) 7%N). lia. Defined.

Example bad_dict_assign_ex :
  BadChannelsSelect.bad_dict_assign
    (BadChannelsSelect.boxes_with (λ x, N.eqb x 7 || N.eqb x 103))
  = Ok (["MEG 007"; "MEG 103"], [7%N; 103%N]).
Proof. vm_compute. reflexivity. Qed.

(** ** Sub-dict files *)

Section sub_dict_facts.
Import SubDict.

Lemma getitem_setitem_eq k v (d : pydict) : getitem k (setitem k v d) = Some v.
Proof.
  induction d as [|[k' v'] d IH]; simpl.
  - by rewrite decide_True.
  - destruct (decide (k = k')) as [->|Hne]; simpl.
    + by rewrite decide_True.
    + by rewrite decide_False.
Qed.

Lemma getitem_setitem_ne k k0 v (d : pydict) :
  k0 ≠ k → getitem k0 (setitem k v d) = getitem k0 d.
Proof.
  intros Hne. induction d as [|[k' v'] d IH]; simpl.
  - by rewrite decide_False.
  - destruct (decide (k = k')) as [->|Hk]; simpl.
    + by rewrite !decide_False.
    + destruct (decide (k0 = k')); done.
Qed.

Lemma setitem_keys_present k v (d : pydict) :
  k ∈ keys d → keys (setitem k v d) = keys d.
Proof.
  unfold keys. induction d as [|[k' v'] d IH]; simpl; intros Hin.
  - by apply elem_of_nil in Hin.
  - destruct (decide (k = k')) as [->|Hk]; simpl; [done|].
    f_equal. apply IH. apply elem_of_cons in Hin as [?|?]; done.
Qed.

Lemma setitem_absent k v (d : pydict) :
  k ∉ keys d → setitem k v d = d ++ [(k, v)].
Proof.
  unfold keys. induction d as [|[k' v'] d IH]; simpl; intros Hin; [done|].
  apply not_elem_of_cons in Hin as [Hne Hin].
  rewrite decide_False by done. by rewrite IH.
Qed.

Lemma setitem_NoDup k v (d : pydict) :
  NoDup (keys d) → NoDup (keys (setitem k v d)).
Proof.
  intros Hd. destruct (decide (k ∈ keys d)) as [Hin|Hin].
  - by rewrite setitem_keys_present.
  - rewrite setitem_absent by done. unfold keys in *.
    rewrite fmap_app. apply NoDup_app. split; [done|]. split.
    + intros x Hx Hx'. apply list_elem_of_singleton in Hx'. simpl in Hx'.
      by subst.
    + apply NoDup_singleton.
Qed.

(** An entry other than the assigned one is found in the new dictionary
    exactly when it was in the old one, at the same position. *)
Lemma setitem_lookup_other k v (d : pydict) i k0 v0 :
  k0 ≠ k → setitem k v d !! i = Some (k0, v0) ↔ d !! i = Some (k0, v0).
Proof.
  intros Hne. revert i. induction d as [|[k' v'] d IH]; intros i; simpl.
  - destruct i; simpl; [|done]. split; [intros [=]; congruence|done].
  - destruct (decide (k = k')) as [->|Hk].
    + destruct i; simpl; [|done]. split; intros [=]; congruence.
    + destruct i; simpl; [done|]. apply IH.
Qed.

Variable read_sub_dict : string → pydict.

Lemma assigned_setitem content k v :
  assigned read_sub_dict content k v = setitem k v (read_sub_dict content).
Proof. unfold assigned, update1. by destruct (contains _ _). Qed.
End sub_dict_facts.

(** C6.  For a file that exists, [sub_dict_assign] writes one line per
    entry of a dictionary [d'] with distinct keys, and the line of an
    entry is its key, a colon, the text of its value and a line feed.  In
    [d'] the selected key maps to the selected value, so its line reads
    ['choice1:choice2']; every other key has the entry it had before, at
    the same position, so its line is at that position and reads
    ['key:value'] with the value that was read; a key that was present
    keeps the set of keys unchanged, an absent key is added after all
    existing entries, as the last line. *)
Theorem sub_dict_assign_keeps_other_entries
    (read_sub_dict : string → SubDict.pydict) (content choice1 choice2 : string) :
  NoDup (SubDict.keys (read_sub_dict content)) →
  let written :=
    SubDict.sub_dict_assign read_sub_dict (Some content) choice1 choice2 in
  ∃ d' : SubDict.pydict,
    written
      = (λ kv, kv.1 +:+ ":" +:+ match kv.2 with
                                | SubDict.PStr value => value
                                | SubDict.PNone => "None"
                                end +:+ String "010"%char EmptyString) <$> d' ∧
    NoDup (SubDict.keys d') ∧
    SubDict.getitem choice1 d' = Some (SubDict.PStr choice2) ∧
    (∀ k, k ≠ choice1 →
       SubDict.getitem k d' = SubDict.getitem k (read_sub_dict content)) ∧
    (∀ i k v, k ≠ choice1 →
       d' !! i = Some (k, v) ↔ read_sub_dict content !! i = Some (k, v)) ∧
    (choice1 ∈ SubDict.keys (read_sub_dict content) →
       SubDict.keys d' = SubDict.keys (read_sub_dict content)) ∧
    (choice1 ∉ SubDict.keys (read_sub_dict content) →
       d' = read_sub_dict content ++ [(choice1, SubDict.PStr choice2)]) ∧
    length written = length d' ∧
    (∃ i, SubDict.keys d' !! i = Some choice1 ∧
          written !! i
          = Some (choice1 +:+ ":" +:+ choice2 +:+ String "010"%char EmptyString)) ∧
    (∀ i k value, k ≠ choice1 →
       read_sub_dict content !! i = Some (k, SubDict.PStr value) →
       written !! i
       = Some (k +:+ ":" +:+ value +:+ String "010"%char EmptyString)).
Proof.
  intros Hnd written.
  exists (SubDict.assigned read_sub_dict content choice1 (SubDict.PStr choice2)).
  assert (Hw : written
               = (λ kv, kv.1 +:+ ":" +:+ match kv.2 with
                                         | SubDict.PStr value => value
                                         | SubDict.PNone => "None"
                                         end +:+ String "010"%char EmptyString)
                 <$> SubDict.assigned read_sub_dict content choice1
                                      (SubDict.PStr choice2)).
  { unfold written, SubDict.sub_dict_assign. apply list_fmap_ext.
    intros i [k [v|]] _; reflexivity. }
  rewrite assigned_setitem in *.
  assert (Hget : SubDict.getitem choice1
                   (SubDict.setitem choice1 (SubDict.PStr choice2)
                                    (read_sub_dict content))
                 = Some (SubDict.PStr choice2)) by apply getitem_setitem_eq.
  assert (Hother : ∀ i k v, k ≠ choice1 →
            SubDict.setitem choice1 (SubDict.PStr choice2) (read_sub_dict content) !! i
              = Some (k, v) ↔ read_sub_dict content !! i = Some (k, v)).
  { intros i k v Hk. by apply setitem_lookup_other. }
  split; [exact Hw|]. split; [by apply setitem_NoDup|]. split; [exact Hget|].
  split; [intros k Hk; by apply getitem_setitem_ne|].
  split; [exact Hother|]. split; [apply setitem_keys_present|].
  split; [apply setitem_absent|].
  split; [by rewrite Hw, length_fmap|]. split.
  - assert (∃ i, SubDict.setitem choice1 (SubDict.PStr choice2)
                         (read_sub_dict content) !! i
                       = Some (choice1, SubDict.PStr choice2)) as [i Hi].
    { clear -Hget. induction (SubDict.setitem _ _ _) as [|[k v] d IH]; [done|].
      cbn in Hget. destruct (decide (choice1 = k)) as [<-|Hne].
      - injection Hget as ->. by exists 0%nat.
      - destruct (IH Hget) as [i Hi]. by exists (S i). }
    exists i. split.
    + unfold SubDict.keys. by rewrite list_lookup_fmap, Hi.
    + by rewrite Hw, list_lookup_fmap, Hi.
  - intros i k value Hk Hi. apply (Hother i k _ Hk) in Hi.
    by rewrite Hw, list_lookup_fmap, Hi.
Qed.

Lemma sub_dict_assign_keeps_other_entries_witness :
  SubDict.sub_dict_assign
    (λ _, [("pp1a", SubDict.PStr "mri1"); ("pp2", SubDict.PStr "mri2")])
    (Some "") "pp2" "mri7" !! 0%nat
  = Some ("pp1a:mri1" +:+ String "010"%char EmptyString) ∧
  ∃ i, SubDict.sub_dict_assign
         (λ _, [("pp1a", SubDict.PStr "mri1"); ("pp2", SubDict.PStr "mri2")])
         (Some "") "pp2" "mri7" !! i
       = Some ("pp2:mri7" +:+ String "010"%char EmptyString).
Proof.
  destruct (sub_dict_assign_keeps_other_entries
              (λ _, [("pp1a", SubDict.PStr "mri1"); ("pp2", SubDict.PStr "mri2")])
              "" "pp2" "mri7")
    as (d' & _ & _ & _ & _ & _ & _ & _ & _ & (i & _ & Hsel) & Hlines).
  - unfold SubDict.keys. simpl. apply NoDup_cons. split.
    + intros Hin. apply list_elem_of_singleton in Hin. discriminate.
    + apply NoDup_singleton.
  - split.
    + by apply (Hlines 0%nat "pp1a" "mri1").
    + by exists i.
Defined.

(** The same for [sub_dict_assign_none], which stores [None]; the line of
    the selected key then reads ['key:None']. *)
Lemma sub_dict_assign_none_keeps_other_entries
    (read_sub_dict : string → SubDict.pydict) (content choice : string) :
  ∃ d' : SubDict.pydict,
    SubDict.sub_dict_assign_none read_sub_dict (Some content) choice
      = SubDict.entry_line <$> d' ∧
    SubDict.getitem choice d' = Some SubDict.PNone ∧
    (∀ k, k ≠ choice →
       SubDict.getitem k d' = SubDict.getitem k (read_sub_dict content)).
Proof.
  exists (SubDict.assigned read_sub_dict content choice SubDict.PNone).
  rewrite assigned_setitem. split; [|split].
  - unfold SubDict.sub_dict_assign_none. by rewrite assigned_setitem.
  - apply getitem_setitem_eq.
  - intros k Hk. by apply getitem_setitem_ne.
Qed.

Example sub_dict_assign_ex :
  SubDict.sub_dict_assign
    (λ _, [("pp1a", SubDict.PStr "mri1"); ("pp2", SubDict.PStr "mri2")])
    (Some "") "pp1a" "mri9"
  = ["pp1a:mri9" +:+ PyStr.nl; "pp2:mri2" +:+ PyStr.nl].
Proof. reflexivity. Qed.

(** ** Settings *)

Section settings_facts.
Context {V : Type}.
Implicit Types settings default_settings acc : gmap string V.

(** Copying the missing defaults one by one. *)
Lemma fill_missing_lookup settings (l : list (string * V)) :
  NoDup l.*1 →
  ∀ acc k,
    foldl (λ acc kv, <[kv.1 := kv.2]> acc) acc
          (filter (λ kv, settings !! kv.1 = None) l) !! k
    = match (if decide (settings !! k = None)
             then (list_to_map l : gmap string V) !! k else None) with
      | Some v => Some v
      | None => acc !! k
      end.
Proof.
  induction l as [|[k1 v1] l IH]; intros Hnd acc k.
  { simpl. rewrite lookup_empty. by destruct (decide _). }
  apply NoDup_cons in Hnd as [Hk1 Hnd]. simpl in Hk1.
  rewrite filter_cons. simpl.
  destruct (decide (settings !! k1 = None)) as [Hs|Hs]; simpl; rewrite IH by done.
  - destruct (decide (settings !! k = None)) as [Hk|Hk].
    + destruct (decide (k = k1)) as [->|Hne].
      * rewrite (not_elem_of_list_to_map_1 l k1 Hk1).
        by rewrite !lookup_insert_eq.
      * by rewrite !(lookup_insert_ne _ k1 k) by done.
    + assert (k1 ≠ k) by congruence.
      by rewrite lookup_insert_ne by done.
  - destruct (decide (settings !! k = None)) as [Hk|Hk]; [|done].
    assert (k1 ≠ k) by congruence.
    by rewrite lookup_insert_ne by done.
Qed.

(** After [load_settings] a key is looked up in the file first and in
    the defaults second. *)
Lemma load_settings_lookup default_settings settings k :
  Settings.load_settings default_settings (Some settings) !! k
  = match settings !! k with
    | Some v => Some v
    | None => default_settings !! k
    end.
Proof.
  unfold Settings.load_settings.
  rewrite fill_missing_lookup by apply NoDup_fst_map_to_list.
  rewrite list_to_map_to_list.
  destruct (decide (settings !! k = None)) as [->|Hk].
  - by destruct (default_settings !! k).
  - by destruct (settings !! k).
Qed.
End settings_facts.

(** C7.  For a key [s] of [default_settings]: the loaded settings have an
    entry for [s]; it is the file's entry when the file has one and the
    default otherwise; without a file the settings are the defaults; and
    [get_setting], on whatever the settings have become, returns the
    settings' entry when there is one and the default otherwise, without
    raising. *)
Theorem load_settings_covers_defaults {V : Type}
    (default_settings : gmap string V) (file : option (gmap string V))
    (s : string) (d : V) :
  default_settings !! s = Some d →
  is_Some (Settings.load_settings default_settings file !! s) ∧
  (∀ settings, file = Some settings →
     Settings.load_settings default_settings file !! s
     = Some (default d (settings !! s))) ∧
  (∀ settings k v, file = Some settings → settings !! k = Some v →
     Settings.load_settings default_settings file !! k = Some v) ∧
  (file = None → Settings.load_settings default_settings file = default_settings) ∧
  (∀ settings : gmap string V,
     Settings.get_setting settings default_settings s
     = Ok (default d (settings !! s))).
Proof.
  intros Hd. repeat split.
  - destruct file as [settings|]; simpl; [|by rewrite Hd].
    change (is_Some (Settings.load_settings default_settings (Some settings) !! s)).
    rewrite load_settings_lookup, Hd. by destruct (settings !! s).
  - intros settings ->. rewrite load_settings_lookup, Hd.
    by destruct (settings !! s).
  - intros settings k v -> Hk. by rewrite load_settings_lookup, Hk.
  - by intros ->.
  - intros settings. unfold Settings.get_setting. rewrite Hd.
    by destruct (settings !! s).
Qed.

Lemma load_settings_covers_defaults_witness :
  is_Some (Settings.load_settings
             ({["current_project" := JNull; "show_plots" := JBool true]} : gmap string json)
             (Some {["current_project" := JString "p1"]}) !! "show_plots") ∧
  Settings.get_setting (∅ : gmap string json)
     {["current_project" := JNull; "show_plots" := JBool true]} "show_plots"
  = Ok (JBool true).
Proof.
  destruct (load_settings_covers_defaults
              ({["current_project" := JNull; "show_plots" := JBool true]} : gmap string json)
              (Some {["current_project" := JString "p1"]})
              "show_plots" (JBool true)) as (H1 & _ & _ & _ & H5).
  - reflexivity.
  - split; [exact H1|]. exact (H5 ∅).
Defined.

(** For a key known neither to the settings nor to the defaults
    [get_setting] raises the KeyError of the second lookup. *)
Lemma get_setting_unknown {V : Type} (settings default_settings : gmap string V) s :
  settings !! s = None → default_settings !! s = None →
  Settings.get_setting settings default_settings s = Raise (KeyError s).
Proof. intros H1 H2. unfold Settings.get_setting. by rewrite H1, H2. Qed.

(** ** The registries and the custom packages *)

Section registry_facts.
Import CustomModules.

Lemma elem_of_to_append (read existing : dataframe) r :
  r ∈ to_append read existing ↔ r ∈ read ∧ r.1 ∉ index existing.
Proof.
  unfold to_append, not_in_index.
  rewrite list_elem_of_In, filter_In, <- list_elem_of_In, negb_true_iff,
          bool_decide_eq_false.
  tauto.
Qed.

(** The rows of a registered name are the same before and after. *)
Lemma append_keeps_registered (read existing : dataframe) name :
  name ∈ index existing →
  List.filter (λ r, bool_decide (r.1 = name)) (append existing (to_append read existing))
  = List.filter (λ r, bool_decide (r.1 = name)) existing.
Proof.
  intros Hname. unfold append. rewrite List.filter_app.
  rewrite <- (app_nil_r (List.filter _ existing)) at 2. f_equal.
  induction read as [|r read IH]; simpl; [done|].
  unfold not_in_index at 1.
  destruct (bool_decide (r.1 ∈ index existing)) eqn:Hin; simpl; [done|].
  apply bool_decide_eq_false in Hin.
  rewrite bool_decide_eq_false_2; [done|]. congruence.
Qed.

Lemma set_column_index col val (df : dataframe) :
  index (set_column col val df) = index df.
Proof.
  unfold index, set_column. rewrite <- list_fmap_compose.
  by apply list_fmap_ext.
Qed.

(** The completeness test accepts every [file_dict]: an operand that is
    [None] differs from the empty list, and every other operand is not
    [None]. *)
Lemma whole_set_always (fd : file_dict) : whole_set fd = true.
Proof.
  unfold whole_set, values.
  destruct (functions fd), (parameters fd), (modules fd); reflexivity.
Qed.

Variable exec_module_ok : string → bool.
Variable read_csv : string → option dataframe.
Variable custom_pkg_path : string.

Lemma import_module_no_problem pkg_name pkg_path ms w n :
  no_import_problem (dialogs w) →
  no_import_problem
    (dialogs (foldl (import_module exec_module_ok pkg_name pkg_path) (w, n) ms).1).
Proof.
  revert w n. induction ms as [|m ms IH]; intros w n Hw; simpl; [done|].
  destruct (exec_module_ok _); apply IH; simpl; [done|].
  intros pkg missing Hin. apply elem_of_app in Hin as [Hin|Hin].
  - by apply (Hw pkg missing).
  - apply list_elem_of_singleton in Hin. discriminate.
Qed.

Lemma import_package_no_problem w pkg :
  no_import_problem (dialogs w) →
  no_import_problem
    (dialogs (import_package exec_module_ok read_csv custom_pkg_path w pkg)).
Proof.
  intros Hw. destruct pkg as [pkg_name files]. unfold import_package.
  rewrite whole_set_always.
  set (fd := scan _ _). set (w0 := {| custom := _ |}).
  pose proof (import_module_no_problem pkg_name (join custom_pkg_path pkg_name)
                (modules fd) w0 0%nat Hw) as Hm.
  destruct (foldl _ _ _) as [w1 c]. simpl in Hm.
  destruct (Nat.eqb _ _); [|done].
  destruct (read_csv_at _ _) as [rf|]; [destruct (read_csv_at _ _) as [rp|]|].
  - by destruct (extend_registries _ _ _ _ _).
  - simpl. intros pkg missing Hin. apply elem_of_app in Hin as [Hin|Hin].
    + by apply (Hm pkg missing).
    + apply list_elem_of_singleton in Hin. discriminate.
  - simpl. intros pkg missing Hin. apply elem_of_app in Hin as [Hin|Hin].
    + by apply (Hm pkg missing).
    + apply list_elem_of_singleton in Hin. discriminate.
Qed.

(** Whatever the package directories contain, the import never shows the
    'Import-Problem' warning. *)
Lemma import_never_warns basic_funcs basic_params dirs :
  no_import_problem
    (dialogs (import_custom_modules exec_module_ok read_csv custom_pkg_path
                basic_funcs basic_params dirs)).
Proof.
  unfold import_custom_modules.
  set (w0 := {| custom := ∅ |}).
  assert (no_import_problem (dialogs w0)) as H0.
  { intros pkg missing Hin. by apply elem_of_nil in Hin. }
  revert H0. generalize w0. clear w0.
  induction (List.filter _ dirs) as [|d ds IH]; intros w Hw; simpl; [done|].
  apply IH. by apply import_package_no_problem.
Qed.
End registry_facts.

(** C5.  Extending the registries with the tables of a custom package
    appends, after the existing rows, exactly the rows of the package
    whose index name is not in the existing registry; for a name that is
    already registered the rows under that name are afterwards the ones
    that were there before, neither replaced nor multiplied. *)
Theorem custom_package_never_overrides
    (pkg_name : string)
    (pd_funcs pd_params read_pd_funcs read_pd_params : CustomModules.dataframe) :
  ∃ fa pa : CustomModules.dataframe,
    CustomModules.extend_registries pkg_name pd_funcs pd_params
                                    read_pd_funcs read_pd_params
      = (pd_funcs ++ fa, pd_params ++ pa) ∧
    (∀ r, r ∈ fa ↔
          r ∈ CustomModules.set_column "pkg_name" pkg_name read_pd_funcs ∧
          r.1 ∉ CustomModules.index pd_funcs) ∧
    (∀ r, r ∈ pa ↔ r ∈ read_pd_params ∧ r.1 ∉ CustomModules.index pd_params) ∧
    (∀ name, name ∈ CustomModules.index pd_funcs →
       List.filter (λ r, bool_decide (r.1 = name)) (pd_funcs ++ fa)
       = List.filter (λ r, bool_decide (r.1 = name)) pd_funcs) ∧
    (∀ name, name ∈ CustomModules.index pd_params →
       List.filter (λ r, bool_decide (r.1 = name)) (pd_params ++ pa)
       = List.filter (λ r, bool_decide (r.1 = name)) pd_params).
Proof.
  exists (CustomModules.to_append
            (CustomModules.set_column "pkg_name" pkg_name read_pd_funcs) pd_funcs),
         (CustomModules.to_append read_pd_params pd_params).
  split; [reflexivity|]. split; [|split; [|split]].
  - intros r. apply elem_of_to_append.
  - intros r. apply elem_of_to_append.
  - intros name Hn. by apply append_keeps_registered.
  - intros name Hn. by apply append_keeps_registered.
Qed.

Lemma custom_package_never_overrides_witness :
  ∃ fa pa : CustomModules.dataframe,
    CustomModules.extend_registries "melofix"
      [("filter_raw", {["target" := "MEEG"]})] []
      [("filter_raw", {["target" := "Other"]}); ("melofix_event_handling", ∅)] []
    = ([("filter_raw", {["target" := "MEEG"]})] ++ fa, [] ++ pa) ∧
    List.filter (λ r, bool_decide (r.1 = "filter_raw"))
                ([("filter_raw", ({["target" := "MEEG"]} : gmap string string))] ++ fa)
    = [("filter_raw", {["target" := "MEEG"]})].
Proof.
  destruct (custom_package_never_overrides "melofix"
              [("filter_raw", {["target" := "MEEG"]})] []
              [("filter_raw", {["target" := "Other"]}); ("melofix_event_handling", ∅)] [])
    as (fa & pa & He & _ & _ & Hf & _).
  exists fa, pa. split; [exact He|]. rewrite Hf; [reflexivity|].
  unfold CustomModules.index. simpl. apply list_elem_of_singleton. reflexivity.
Defined.

(** C1.  A package directory that holds a module file but neither table
    passes the completeness test: the package is entered in
    [all_modules['custom']], its module is imported, and the only dialog is
    the error of reading the tables; no 'Import-Problem' warning is
    shown. *)
Theorem incomplete_package_is_loaded :
  let w := CustomModules.import_custom_modules
             (λ _, true) (λ _, Some []) "custom_packages" [] []
             [("melofix", ["melofix.py"])] in
  CustomModules.missing_keys
    (CustomModules.scan "custom_packages/melofix" ["melofix.py"])
    = ["functions"; "parameters"] ∧
  CustomModules.whole_set
    (CustomModules.scan "custom_packages/melofix" ["melofix.py"]) = true ∧
  CustomModules.custom w !! "melofix" = Some {["melofix"]} ∧
  CustomModules.dialogs w = [CustomModules.PackageError "melofix"].
Proof. vm_compute. repeat split; reflexivity. Qed.

(** A package directory with both tables and no module file is accepted
    as well, and its tables extend the registries. *)
Lemma package_without_module_is_loaded :
  let w := CustomModules.import_custom_modules
             (λ _, true) (λ _, Some [("f", ∅)]) "custom_packages" [] []
             [("pkg", ["pkg_functions.csv"; "pkg_parameters.csv"])] in
  CustomModules.custom w !! "pkg" = Some ∅ ∧
  CustomModules.index (CustomModules.pd_funcs w) = ["f"] ∧
  CustomModules.dialogs w = [].
Proof. vm_compute. repeat split; reflexivity. Qed.

(** ** Starting a run in the newer window *)

Section run_facts.
Import NewWindow.

Lemma run_inv_step s s' : run_inv s → step s s' → run_inv s'.
Proof.
  intros Hs Hstep. destruct Hstep as [s|s Hw].
  - unfold start. destruct Hs as [[Hr Hw]|[Hr Hw]]; rewrite Hr.
    + left. by simpl.
    + left. simpl. by rewrite Hw.
  - destruct Hs as [[Hr Hw']|[Hr Hw']]; [|lia].
    right. simpl. by rewrite Hw'.
Qed.

Lemma reachable_run_inv s : reachable s → run_inv s.
Proof.
  induction 1 as [|s s' _ IH Hstep]; [by right|].
  by apply (run_inv_step s).
Qed.
End run_facts.

(** C3.  In every reachable state at most one worker runs the pipeline,
    and the flag is set exactly when one does.  [start] on a state whose
    flag is set shows the warning and creates no dialog and no worker;
    [start] creates a dialog only from a state whose flag is clear, and
    then the flag is set. *)
Theorem at_most_one_run (s : NewWindow.run_state) :
  NewWindow.reachable s →
  (NewWindow.workers s ≤ 1)%nat ∧
  (NewWindow.pipeline_running s = true ↔ NewWindow.workers s = 1%nat) ∧
  (NewWindow.pipeline_running s = true →
     NewWindow.run_dialogs (NewWindow.start s) = NewWindow.run_dialogs s ∧
     NewWindow.workers (NewWindow.start s) = NewWindow.workers s ∧
     NewWindow.warnings (NewWindow.start s) = S (NewWindow.warnings s)) ∧
  (NewWindow.run_dialogs (NewWindow.start s) ≠ NewWindow.run_dialogs s →
     NewWindow.pipeline_running s = false ∧
     NewWindow.start s = NewWindow.RunDialog s ∧
     NewWindow.pipeline_running (NewWindow.start s) = true).
Proof.
  intros Hs. apply reachable_run_inv in Hs.
  split; [|split; [|split]].
  - destruct Hs as [[_ ->]|[_ ->]]; lia.
  - destruct Hs as [[-> ->]|[-> ->]]; split; (done || lia).
  - intros Hr. unfold NewWindow.start. by rewrite Hr.
  - unfold NewWindow.start.
    destruct (NewWindow.pipeline_running s); simpl; [done|]. by intros _.
Qed.

Lemma at_most_one_run_witness :
  (NewWindow.workers (NewWindow.start (NewWindow.start NewWindow.init)) ≤ 1)%nat ∧
  NewWindow.run_dialogs (NewWindow.start (NewWindow.start NewWindow.init)) = 1%nat ∧
  NewWindow.warnings (NewWindow.start (NewWindow.start NewWindow.init)) = 1%nat.
Proof.
  destruct (at_most_one_run (NewWindow.start (NewWindow.start NewWindow.init)))
    as (H & _).
  - eapply NewWindow.reach_step; [|apply NewWindow.step_start].
    eapply NewWindow.reach_step; [|apply NewWindow.step_start].
    apply NewWindow.reach_init.
  - split; [exact H|]. split; reflexivity.
Defined.

(** ** Start and Stop in the older window *)

Section old_window_facts.
Import OldWindow.

Lemma exec_clear_prefix (pre actions : list action) :
  Forall (λ a, a = PressClear) pre →
  exec_ (pre ++ actions) shown = exec_ actions shown.
Proof.
  induction 1 as [|a pre -> _ IH]; [done|]. simpl. exact IH.
Qed.

(** While the window is open the flag is still clear. *)
Lemma open_window_not_stopped (actions : list action) (w : window) :
  make_it_stop w = false →
  ∀ w', exec_ actions w = Some w' →
        make_it_stop w' = true → PressStop ∈ actions.
Proof.
  revert w. induction actions as [|a actions IH]; intros w Hw w' He Hs; simpl in He.
  - destruct (visible w); [done|]. congruence.
  - destruct (visible w) eqn:Hv; [|congruence].
    destruct a; [right|left|right|right];
      (eapply IH; [|exact He|exact Hs]; exact Hw).
Qed.
End old_window_facts.

(** C4.  From the freshly shown window, after any number of Clear
    presses: pressing Stop closes the window with [make_it_stop] set and
    the launcher raises SystemExit(0); pressing Start closes the window
    with [make_it_stop] still clear and the launcher falls through, so
    the code after it runs.  What the user does afterwards is not looked
    at. *)
Theorem stop_exits_start_proceeds (pre rest : list OldWindow.action) :
  Forall (λ a, a = OldWindow.PressClear) pre →
  OldWindow.exec_ (pre ++ OldWindow.PressStop :: rest) OldWindow.shown
    = Some {| OldWindow.visible := false; OldWindow.make_it_stop := true |} ∧
  OldWindow.launcher (pre ++ OldWindow.PressStop :: rest)
    = Some (OldWindow.SystemExit 0) ∧
  OldWindow.exec_ (pre ++ OldWindow.PressStart :: rest) OldWindow.shown
    = Some {| OldWindow.visible := false; OldWindow.make_it_stop := false |} ∧
  OldWindow.launcher (pre ++ OldWindow.PressStart :: rest)
    = Some OldWindow.FallThrough.
Proof.
  intros Hpre. unfold OldWindow.launcher.
  rewrite !(exec_clear_prefix pre) by done.
  by destruct rest.
Qed.

Lemma stop_exits_start_proceeds_witness :
  OldWindow.launcher [OldWindow.PressClear; OldWindow.PressStop]
    = Some (OldWindow.SystemExit 0) ∧
  OldWindow.launcher [OldWindow.PressClear; OldWindow.PressStart]
    = Some OldWindow.FallThrough.
Proof.
  destruct (stop_exits_start_proceeds [OldWindow.PressClear] [])
    as (_ & H1 & _ & H2).
  - apply Forall_cons. split; [reflexivity|apply Forall_nil; exact I].
  - split; [exact H1|exact H2].
Defined.

(** ** Project discovery *)

Section discovery_facts.
Import NewWindow.

Lemma json_in_spec (x : json) (ps : list string) :
  json_in x ps = true ↔ ∃ p, x = JString p ∧ p ∈ ps.
Proof.
  destruct x as [|s0| |]; simpl; try (split; [done|by intros (? & ? & _)]).
  rewrite bool_decide_eq_true. split.
  - intros Hin. by exists s0.
  - by intros (p & [= ->] & Hp).
Qed.

(** The prompt loop ends normally only with a name that was entered and
    confirmed; that name is selected, persisted and appended. *)
Lemma ask_project_ok msg_box_exec answers w w' :
  ask_project msg_box_exec answers w = Some (Ok w') →
  ∃ text, (text, true) ∈ answers ∧ text ≠ "" ∧
          current_project w' = JString text ∧
          projects w' = projects w ++ [text] ∧
          settings w' !! "current_project" = Some (JString text).
Proof.
  revert w. induction answers as [|[text ok] answers IH]; intros w; simpl; [done|].
  destruct ok; simpl.
  - destruct (decide (text = "")) as [->|Hne].
    + rewrite bool_decide_eq_true_2 by done. simpl.
      destruct msg_box_exec as [[]|]; [done| |done].
      intros (t & Hin & Ht)%IH. exists t. split; [by right|done].
    + rewrite bool_decide_eq_false_2 by done. simpl.
      intros [= <-]. exists text. simpl.
      rewrite lookup_insert_eq. repeat split; [left|done..].
  - destruct msg_box_exec as [[]|]; [done| |done].
    intros (t & Hin & Ht)%IH. exists t. split; [by right|done].
Qed.

(** With a confirmed, non-empty first answer the prompt returns. *)
Lemma ask_project_first msg_box_exec text answers w :
  text ≠ "" →
  ∃ w', ask_project msg_box_exec ((text, true) :: answers) w = Some (Ok w').
Proof.
  intros Hne. simpl. rewrite bool_decide_eq_false_2 by done. simpl. eauto.
Qed.
(** With project directories on disk and the setting readable,
    [get_projects] returns without asking anything. *)
Lemma get_projects_returns listdir has_data_dir msg_box_exec answers w cur :
  Settings.get_setting (settings w) (default_settings w) "current_project" = Ok cur →
  List.filter has_data_dir listdir ≠ [] →
  ∃ w', get_projects listdir has_data_dir msg_box_exec answers w = Some (Ok w').
Proof.
  intros Hcur Hfound. unfold get_projects. rewrite Hcur.
  destruct (List.filter has_data_dir listdir) as [|first rest]; [done|]. simpl.
  destruct (_ || _); eauto.
Qed.
(** An answer that is not confirmed, or is empty, is asked again when
    the question box says No; what was entered is forgotten. *)
Lemma ask_project_rejected msg_box_exec rejected rest w :
  Forall (λ a : string * bool, a.2 = false ∨ a.1 = "") rejected →
  rejected = [] ∨ msg_box_exec = Ok No →
  ∃ w1, ask_project msg_box_exec (rejected ++ rest) w
        = ask_project msg_box_exec rest w1 ∧
        settings w1 = settings w ∧ default_settings w1 = default_settings w ∧
        projects w1 = projects w.
Proof.
  intros Hrej [-> | ->]; [by exists w|]. revert w Hrej.
  induction rejected as [|[text ok] rejected IH]; intros w Hrej.
  { by exists w. }
  apply Forall_cons in Hrej as [Hr Hrej]. cbn [app ask_project].
  assert (ok && negb (bool_decide (text = "")) = false) as ->.
  { destruct Hr as [Hr|Hr]; cbn in Hr; subst; [done|].
    rewrite bool_decide_eq_true_2 by done. by destruct ok. }
  destruct (IH {| settings := settings w; default_settings := default_settings w;
                  current_project := JString text; projects := projects w |}
              Hrej) as (w1 & Heq & ? & ? & ?).
  by exists w1.
Qed.

(** The loop blocks only while every answer is turned down and the
    question box says No. *)
Lemma ask_project_blocked msg_box_exec answers : ∀ w,
  ask_project msg_box_exec answers w = None →
  Forall (λ a : string * bool, a.2 = false ∨ a.1 = "") answers ∧
  (answers = [] ∨ msg_box_exec = Ok No).
Proof.
  induction answers as [|[text ok] answers IH]; intros w; cbn [ask_project].
  { intros _. split; [constructor|by left]. }
  destruct (ok && negb (bool_decide (text = ""))) eqn:Hacc; [done|].
  destruct msg_box_exec as [[]|] eqn:Hm; [done| |done].
  intros [Hrej _]%IH. split; [|by right].
  constructor; [|done]. cbn.
  apply andb_false_iff in Hacc as [->|Hacc]; [by left|].
  right. by apply negb_false_iff, bool_decide_eq_true in Hacc.
Qed.
End discovery_facts.

(** C9.  Newer window: when [get_projects] returns, [current_project] is
    one of [projects]; with project directories on disk [projects] is
    that list, a stored name that is among them is kept and any other
    stored value ([None] included) is replaced by the first directory,
    which is also stored in the settings; with no project directory the
    name is one the user entered and confirmed, and it is the only
    project.  Older window: the same for [get_paths] and [project_name],
    where the confirmed name may be empty.  And [get_projects] does
    return: with the setting readable and project directories on disk it
    returns without asking; with none it returns as soon as a non-empty
    name is confirmed, with that name appended, selected and stored,
    every answer before it having been turned down and followed by No;
    an answer that is turned down ends the call with an error when the
    question box raises or says Yes; and the prompt is left waiting only
    while every answer is turned down and followed by No.  [get_paths],
    once it has a home path, returns without asking when project
    directories are found, and ends with the RuntimeError when there is
    none and the name dialog is cancelled. *)
Theorem discovery_selects_member :
  (∀ listdir has_data_dir msg_box_exec answers w w',
     NewWindow.get_projects listdir has_data_dir msg_box_exec answers w = Some (Ok w') →
     let found := List.filter has_data_dir listdir in
     (∃ p, NewWindow.current_project w' = JString p ∧ p ∈ NewWindow.projects w') ∧
     (found ≠ [] →
        NewWindow.projects w' = found ∧
        ∀ cur,
          Settings.get_setting (NewWindow.settings w) (NewWindow.default_settings w)
                               "current_project" = Ok cur →
          if json_in cur found then NewWindow.current_project w' = cur
          else NewWindow.current_project w' = from_option JString JNull (head found) ∧
               NewWindow.settings w' !! "current_project"
                 = Some (NewWindow.current_project w')) ∧
     (found = [] →
        ∃ text, (text, true) ∈ answers ∧ text ≠ "" ∧
                NewWindow.projects w' = [text] ∧
                NewWindow.current_project w' = JString text ∧
                NewWindow.settings w' !! "current_project" = Some (JString text)))
  ∧
  (∀ isdir listdir has_data_dir getExistingDirectory getText qs p,
     OldWindow.get_paths isdir listdir has_data_dir getExistingDirectory getText qs
       = Ok p →
     let found := List.filter (has_data_dir (OldWindow.home_path p))
                              (listdir (OldWindow.home_path p)) in
     (∃ n, OldWindow.project_name p = Some n ∧ n ∈ OldWindow.projects p) ∧
     (found ≠ [] →
        OldWindow.projects p = found ∧
        if OldWindow.unknown_project (qs !! "project_name") found
        then OldWindow.project_name p = head found ∧
             OldWindow.qsettings p !! "project_name" = OldWindow.project_name p
        else OldWindow.project_name p = qs !! "project_name") ∧
     (found = [] →
        ∃ text, getText = (text, true) ∧
                OldWindow.projects p = [text] ∧
                OldWindow.project_name p = Some text ∧
                OldWindow.qsettings p !! "project_name" = Some text))
  ∧
  (∀ listdir has_data_dir msg_box_exec answers w,
     let found := List.filter has_data_dir listdir in
     let run := NewWindow.get_projects listdir has_data_dir msg_box_exec answers w in
     match Settings.get_setting (NewWindow.settings w) (NewWindow.default_settings w)
                                "current_project" with
     | Raise e => run = Some (Raise e)
     | Ok cur =>
         (found ≠ [] → ∃ w', run = Some (Ok w')) ∧
         (found = [] →
            ∀ rejected text rest,
              answers = rejected ++ (text, true) :: rest →
              text ≠ "" →
              Forall (λ a, a.2 = false ∨ a.1 = "") rejected →
              rejected = [] ∨ msg_box_exec = Ok NewWindow.No →
              ∃ w', run = Some (Ok w') ∧
                    NewWindow.projects w' = [text] ∧
                    NewWindow.current_project w' = JString text ∧
                    NewWindow.settings w' !! "current_project" = Some (JString text)) ∧
         (found = [] →
            ∀ text ok rest,
              answers = (text, ok) :: rest →
              ok = false ∨ text = "" →
              match msg_box_exec with
              | Raise e => run = Some (Raise e)
              | Ok NewWindow.Yes => run = Some (Raise RuntimeError)
              | Ok NewWindow.No => True
              end) ∧
         (run = None →
            found = [] ∧
            Forall (λ a, a.2 = false ∨ a.1 = "") answers ∧
            (answers = [] ∨ msg_box_exec = Ok NewWindow.No))
     end)
  ∧
  (∀ isdir listdir has_data_dir getExistingDirectory getText qs,
     let run := OldWindow.get_paths isdir listdir has_data_dir getExistingDirectory
                                    getText qs in
     match OldWindow.get_home_path isdir getExistingDirectory qs with
     | Raise e => run = Raise e
     | Ok (home, _) =>
         let found := List.filter (has_data_dir home) (listdir home) in
         (found ≠ [] → ∃ p, run = Ok p) ∧
         (found = [] → getText.2 = false → run = Raise RuntimeError)
     end).
Proof.
  split; [|split; [|split]].
  - intros listdir has_data_dir msg_box_exec answers w w' Hget found.
    unfold NewWindow.get_projects in Hget. fold found in Hget.
    destruct (Settings.get_setting _ _ _) as [cur|e] eqn:Hcur; [|done].
    destruct found as [|first rest] eqn:Hfound; simpl in Hget.
    + apply ask_project_ok in Hget as (text & Hin & Hne & Hc & Hp & Hs).
      simpl in Hp. split; [|split; [done|]].
      * exists text. split; [done|]. rewrite Hp. by left.
      * intros _. by exists text.
    + destruct (bool_decide (cur = JNull) || negb (json_in cur (first :: rest)))
        eqn:Hunknown; injection Hget as <-; simpl.
      * split; [|split; [|done]].
        { exists first. split; [done|by left]. }
        intros _. split; [done|]. intros cur' [= <-].
        destruct (json_in cur (first :: rest)) eqn:Hin.
        { apply orb_true_iff in Hunknown as [Hn|Hn]; [|done].
          apply bool_decide_eq_true in Hn. by subst. }
        by rewrite lookup_insert_eq.
      * apply orb_false_iff in Hunknown as [_ Hin]. apply negb_false_iff in Hin.
        split; [|split; [|done]].
        { by apply json_in_spec. }
        intros _. split; [done|]. intros cur' [= <-]. by rewrite Hin.
  - intros isdir listdir has_data_dir dlg getText qs p Hget found.
    unfold OldWindow.get_paths in Hget.
    destruct (OldWindow.get_home_path _ _ _) as [[home qs']|e] eqn:Hhome; [|done].
    simpl in Hget.
    assert (qs' !! "project_name" = qs !! "project_name") as Hstored.
    { unfold OldWindow.get_home_path in Hhome.
      destruct (qs !! "home_path") as [h|];
        [destruct (negb (isdir h))|];
        try (destruct (bool_decide (dlg = "")); [done|]);
        injection Hhome as <- <-; by rewrite ?lookup_insert_ne. }
    rewrite Hstored in Hget.
    assert (OldWindow.home_path p = home) as Hp.
    { destruct (Nat.eqb _ _); [destruct getText as [text []]|];
        [by injection Hget as <-|done|].
      destruct (OldWindow.unknown_project _ _);
        [destruct (List.filter _ _)|]; [done|by injection Hget as <-..]. }
    unfold found. rewrite Hp. clear found.
    destruct (List.filter (has_data_dir home) (listdir home))
      as [|first rest] eqn:Hfound; simpl in Hget.
    + destruct getText as [text []]; [|done]. injection Hget as <-. simpl.
      split; [|split; [done|]].
      * exists text. split; [done|by left].
      * intros _. exists text. by rewrite lookup_insert_eq.
    + destruct (OldWindow.unknown_project (qs !! "project_name") (first :: rest))
        eqn:Hunknown; injection Hget as <-; simpl.
      * split; [|split; [|done]].
        { exists first. split; [done|by left]. }
        intros _. by rewrite lookup_insert_eq.
      * split; [|split; [|done]]; [|done].
        unfold OldWindow.unknown_project in Hunknown.
        destruct (qs !! "project_name") as [n|]; [|done].
        apply negb_false_iff, bool_decide_eq_true in Hunknown. by exists n.
  - intros listdir has_data_dir msg_box_exec answers w found run.
    destruct (Settings.get_setting _ _ _) as [cur|e] eqn:Hcur.
    2:{ unfold run, NewWindow.get_projects. by rewrite Hcur. }
    split_and!.
    + intros Hfound. by eapply get_projects_returns.
    + intros Hfound rejected text rest -> Hne Hrej Hno.
      unfold run, NewWindow.get_projects. rewrite Hcur. fold found. rewrite Hfound.
      cbn [length Nat.eqb].
      destruct (ask_project_rejected msg_box_exec rejected ((text, true) :: rest)
                  {| NewWindow.settings := NewWindow.settings w;
                     NewWindow.default_settings := NewWindow.default_settings w;
                     NewWindow.current_project := cur; NewWindow.projects := [] |}
                  Hrej Hno) as (w1 & -> & Hs & Hd & Hp).
      cbn [NewWindow.ask_project andb]. rewrite bool_decide_eq_false_2 by done.
      cbn [negb NewWindow.settings NewWindow.default_settings NewWindow.projects
           NewWindow.current_project].
      eexists. split; [reflexivity|].
      cbn [NewWindow.settings NewWindow.projects NewWindow.current_project].
      rewrite Hp. split_and!; [done|done|by rewrite lookup_insert_eq].
    + intros Hfound text ok rest -> Hr.
      unfold run, NewWindow.get_projects. rewrite Hcur. fold found. rewrite Hfound.
      cbn [length Nat.eqb NewWindow.ask_project].
      assert (ok && negb (bool_decide (text = "")) = false) as ->.
      { destruct Hr as [->| ->]; [done|].
        rewrite bool_decide_eq_true_2 by done. by destruct ok. }
      by destruct msg_box_exec as [[]|].
    + unfold run, NewWindow.get_projects. rewrite Hcur. fold found.
      destruct found as [|first rest'] eqn:Hfound; cbn [length Nat.eqb].
      * intros [? ?]%ask_project_blocked. by split_and!.
      * by destruct (_ || _).
  - intros isdir listdir has_data_dir dlg getText qs run.
    unfold run, OldWindow.get_paths.
    destruct (OldWindow.get_home_path isdir dlg qs) as [[home qs']|e]; [|done].
    cbn [bind]. cbv zeta.
    destruct (List.filter (has_data_dir home) (listdir home)) as [|first rest];
      cbn [length Nat.eqb].
    + split; [done|]. intros _. destruct getText as [text ok]. cbn [snd].
      by intros ->.
    + split; [|done]. intros _. destruct (OldWindow.unknown_project _ _); eauto.
Qed.

Lemma discovery_selects_member_witness :
  (∃ w', NewWindow.get_projects
           ["study"; "notes.txt"; "pilot"]
           (λ p, negb (bool_decide (p = "notes.txt")))
           (Raise AttributeError) []
           {| NewWindow.settings := {["current_project" := JString "gone"]};
              NewWindow.default_settings := {["current_project" := JNull]};
              NewWindow.current_project := JNull;
              NewWindow.projects := [] |} = Some (Ok w') ∧
         ∃ p, NewWindow.current_project w' = JString p ∧ p ∈ NewWindow.projects w') ∧
  (∃ w', NewWindow.get_projects
           ["notes.txt"] (λ _, false) (Ok NewWindow.No)
           [("", true); ("ignored", false); ("first", true)]
           {| NewWindow.settings := ∅;
              NewWindow.default_settings := {["current_project" := JNull]};
              NewWindow.current_project := JNull;
              NewWindow.projects := [] |} = Some (Ok w') ∧
         NewWindow.projects w' = ["first"] ∧
         NewWindow.current_project w' = JString "first") ∧
  (∃ p, OldWindow.get_paths (λ _, true) (λ _, []) (λ _ _, true) "" ("first", true)
          {["home_path" := "/data"]} = Ok p ∧
        ∃ n, OldWindow.project_name p = Some n ∧ n ∈ OldWindow.projects p).
Proof.
  destruct discovery_selects_member as (Hnew & Hold & Hrun & _). split_and!.
  - pose proof (Hnew ["study"; "notes.txt"; "pilot"]
                     (λ p, negb (bool_decide (p = "notes.txt")))
                     (Raise AttributeError) []
                     {| NewWindow.settings := {["current_project" := JString "gone"]};
                        NewWindow.default_settings := {["current_project" := JNull]};
                        NewWindow.current_project := JNull;
                        NewWindow.projects := [] |} _ eq_refl) as H.
    eexists. split; [reflexivity|]. exact (proj1 H).
  - pose proof (Hrun ["notes.txt"] (λ _, false) (Ok NewWindow.No)
                     [("", true); ("ignored", false); ("first", true)]
                     {| NewWindow.settings := ∅;
                        NewWindow.default_settings := {["current_project" := JNull]};
                        NewWindow.current_project := JNull;
                        NewWindow.projects := [] |}) as H.
    cbv zeta in H.
    change (Settings.get_setting _ _ _) with (Ok JNull : result json) in H.
    destruct H as (_ & Hprompt & _).
    destruct (Hprompt eq_refl [("", true); ("ignored", false)] "first" [] eq_refl)
      as (w' & Hget & Hp & Hc & _).
    + done.
    + constructor; [by right|]. constructor; [by left|]. constructor.
    + by right.
    + by exists w'.
  - pose proof (Hold (λ _, true) (λ _, []) (λ _ _, true) "" ("first", true)
                     {["home_path" := "/data"]} _ eq_refl) as H.
    eexists. split; [reflexivity|]. exact (proj1 H).
Defined.

(** ** The dictionary lookups of the subject loop *)

Section driver_facts.
Import Driver.

Variable unspecified_names : bool.
Variable erm_dict sub_to_mri : gmap string string.
Variable bad_channels_dict : gmap string (list N).
Variable add_outcome : add_function → option exn.


(** A KeyError leaves the lookups only if an add function raised it. *)
Lemma lookups_no_KeyError st name k :
  lookups unspecified_names erm_dict sub_to_mri bad_channels_dict add_outcome st name
    = Raise (KeyError k) →
  ∃ f, add_outcome f = Some (KeyError k).
Proof.
  unfold lookups, prefix_of.
  destruct (if unspecified_names then _ else _) as [prefix|]; simpl; [|done].
  destruct (erm_dict !! prefix); simpl.
  2: unfold call at 1; destruct (add_outcome add_erm_dict) eqn:H1; simpl;
     [intros [= ->]; eauto|].
  all: destruct (sub_to_mri !! prefix); simpl.
  2,4: unfold call at 1; destruct (add_outcome add_sub_dict) eqn:H2; simpl;
     [intros [= ->]; eauto|].
  all: destruct (bad_channels_dict !! name); simpl; [done|].
  all: unfold call; destruct (add_outcome add_bad_channels_dict) eqn:H3; simpl;
     [intros [= ->]; eauto|done].
Qed.
End driver_facts.



(** A name the pattern does not match stops the loop before any lookup. *)
Lemma lookups_unmatched_name :
  Driver.lookups false ∅ ∅ ∅ (λ _, None) (Driver.unbound, []) "subject_01"
  = Raise AttributeError.
Proof. reflexivity. Qed.

(** * Further properties *)

(** ** Event-code rewriting on well-spaced and on long arrays *)

Section melofix_more.
Import Melofix MelofixSpec.

Lemma all_equal4_val (ev : list event) (n : nat) :
  (4 ≤ n)%nat → (n < length ev)%nat →
  all_equal4 ev (Z.of_nat n) = Ok (all_same (window ev n)).
Proof.
  intros H4 Hn. unfold all_equal4, window, code_at.
  destruct (lookup_lt_is_Some_2 ev (n - 1)%nat) as [e1 H1]; [lia|].
  destruct (lookup_lt_is_Some_2 ev (n - 2)%nat) as [e2 H2]; [lia|].
  destruct (lookup_lt_is_Some_2 ev (n - 3)%nat) as [e3 H3]; [lia|].
  destruct (lookup_lt_is_Some_2 ev (n - 4)%nat) as [e4 He4]; [lia|].
  rewrite (get_nat ev (Z.of_nat n - 1) (n - 1)%nat e1 ltac:(lia) H1),
          (get_nat ev (Z.of_nat n - 2) (n - 2)%nat e2 ltac:(lia) H2).
  rewrite H1, H2, H3, He4. simpl.
  destruct (code e1 =? code e2); simpl; [|done].
  rewrite (get_nat ev (Z.of_nat n - 3) (n - 3)%nat e3 ltac:(lia) H3). simpl.
  destruct (code e2 =? code e3); simpl; [|done].
  by rewrite (get_nat ev (Z.of_nat n - 4) (n - 4)%nat e4 ltac:(lia) He4).
Qed.

Lemma body_58_val (ev : list event) (n : nat) e :
  ev !! n = Some e → code e = 58 → (4 ≤ n)%nat →
  body ev (Z.of_nat n)
  = Ok (if all_same (window ev n) then rewrite4 n 1 2 ev else rewrite4 n 3 4 ev).
Proof.
  intros He Hc H4. pose proof (lookup_lt_Some _ _ _ He) as Hn.
  unfold body. rewrite (get_here _ _ _ He). cbn [bind]. rewrite Hc.
  change (58 =? 58) with true. cbv iota.
  rewrite all_equal4_val by done. cbn [bind].
  destruct (all_same (window ev n)); by apply assign4_back.
Qed.

Lemma rewrite4_window n o r (ev : list event) :
  (4 ≤ n)%nat → (n ≤ length ev)%nat →
  window (rewrite4 n o r ev) n = [Some o; Some r; Some r; Some r].
Proof.
  intros H4 Hn. unfold window, code_at.
  destruct (rewrite4_codes n o r ev H4 Hn) as (-> & -> & -> & ->). done.
Qed.

Lemma window_ext (ev1 ev2 : list event) n :
  (∀ j, (n - 4 ≤ j < n)%nat → ev1 !! j = ev2 !! j) → (4 ≤ n)%nat →
  window ev1 n = window ev2 n.
Proof.
  intros H H4. unfold window, code_at. by rewrite !H by lia.
Qed.

(** The loop from position [k] on a well-spaced array: the rows from [k] on
    and the rows outside the groups are still the input's, and the groups
    of the code-58 events before [k] already hold their final codes. *)
Lemma loop_spaced (ev : list event) :
  spaced ev →
  ∀ m k cur,
    (k + m = length ev)%nat →
    fst <$> cur = fst <$> ev →
    (∀ j, (∀ n e, ev !! n = Some e → code e = 58 → (n < k)%nat →
                  ¬ (j < n ≤ j + 4)%nat) → cur !! j = ev !! j) →
    (∀ n e, ev !! n = Some e → code e = 58 → (n < k)%nat →
            window cur n = expected (window ev n)) →
    ∃ ev', loop (Z.of_nat <$> seq k m) cur = Ok ev' ∧
           fst <$> ev' = fst <$> ev ∧
           (∀ j, ¬ predecessor_of_58 ev j → ev' !! j = ev !! j) ∧
           (∀ n e, ev !! n = Some e → code e = 58 →
                   window ev' n = expected (window ev n)).
Proof.
  intros [H58 Hsp]. induction m as [|m IH]; intros k cur Hkm Hcol Hfree Hdone.
  { exists cur. simpl. split; [done|]. split; [done|]. split.
    - intros j Hj. apply Hfree. intros n e He Hc _ Hin. apply Hj. by exists n, e.
    - intros n e He Hc. apply (Hdone n e He Hc).
      pose proof (lookup_lt_Some _ _ _ He). lia. }
  simpl.
  destruct (lookup_lt_is_Some_2 ev k) as [e He]; [lia|].
  assert (cur !! k = Some e) as Hcur.
  { rewrite Hfree; [done|]. intros; lia. }
  destruct (decide (code e = 58)) as [Hc|Hc].
  - pose proof (H58 _ _ He Hc) as H4.
    rewrite (body_58_val cur k e Hcur Hc H4). cbn [bind].
    assert (length cur = length ev) as Hlen.
    { by rewrite <- (length_fmap fst cur), Hcol, length_fmap. }
    assert (window cur k = window ev k) as Hwin.
    { apply window_ext; [|done]. intros j Hj. apply Hfree.
      intros n e' He' Hc' Hn Hin.
      pose proof (Hsp n k e' e He' Hc' He Hc Hn). lia. }
    rewrite Hwin.
    set (cur' := if all_same (window ev k) then rewrite4 k 1 2 cur
                 else rewrite4 k 3 4 cur).
    assert (∀ j, (j + 4 < k ∨ k ≤ j)%nat → cur' !! j = cur !! j) as Hother.
    { intros j Hj. unfold cur'.
      destruct (all_same (window ev k)); by apply rewrite4_lookup_other. }
    apply (IH (S k) cur'); [lia| | |].
    + unfold cur'. destruct (all_same (window ev k)); by rewrite rewrite4_columns.
    + intros j Hj. rewrite Hother.
      * apply Hfree. intros n e' He' Hc' Hn. apply (Hj n e' He' Hc'). lia.
      * destruct (decide (j + 4 < k ∨ k ≤ j)%nat) as [|Hin]; [done|].
        exfalso. apply (Hj k e He Hc); lia.
    + intros n e' He' Hc' Hn. destruct (decide (n = k)) as [->|Hne].
      * unfold cur', expected. destruct (all_same (window ev k));
          apply rewrite4_window; lia.
      * assert (n < k)%nat as Hlt by lia.
        pose proof (Hsp n k e' e He' Hc' He Hc Hlt).
        pose proof (H58 _ _ He' Hc').
        rewrite <- (Hdone n e' He' Hc' Hlt).
        apply window_ext; [|done]. intros j Hj. apply Hother. lia.
  - rewrite (body_other cur k e Hcur Hc). simpl.
    apply (IH (S k) cur); [lia|done| |].
    + intros j Hj. apply Hfree. intros n e' He' Hc' Hn. apply (Hj n e' He' Hc'). lia.
    + intros n e' He' Hc' Hn. apply (Hdone n e' He' Hc').
      destruct (decide (n = k)) as [->|]; [|lia]. congruence.
Qed.

Lemma melofix_spaced_run (ev : list event) :
  ev ≠ [] → spaced ev →
  ∃ ev', melofix_event_handling ev = Ok ev' ∧
         fst <$> ev' = fst <$> ev ∧
         (∀ j, ¬ predecessor_of_58 ev j → ev' !! j = ev !! j) ∧
         (∀ n e, ev !! n = Some e → code e = 58 →
                 window ev' n = expected (window ev n)).
Proof.
  intros Hne Hsp. unfold melofix_event_handling.
  destruct ev as [|e0 ev0]; [done|]. simpl Nat.eqb. cbv iota.
  apply (loop_spaced (e0 :: ev0) Hsp (length (e0 :: ev0)) 0%nat);
    [done|done|intros j Hj; done|intros n e He Hc Hn; lia].
Qed.
End melofix_more.

Section melofix_rerun.
Import Melofix MelofixSpec.

Lemma predecessor_dec (ev : list event) (j : nat) :
  predecessor_of_58 ev j ∨ ¬ predecessor_of_58 ev j.
Proof.
  assert (∀ n, (∃ e, ev !! n = Some e ∧ code e = 58) ∨
               ¬ (∃ e, ev !! n = Some e ∧ code e = 58)) as Hdec.
  { intros n. destruct (ev !! n) as [e|]; [|right; by intros (? & ? & _)].
    destruct (decide (code e = 58)); [left; eauto|].
    right. intros (e' & [= <-] & ?). done. }
  destruct (Hdec (j + 1)%nat) as [(e & He & Hc)|H1];
    [left; exists (j + 1)%nat, e; repeat split; (done || lia)|].
  destruct (Hdec (j + 2)%nat) as [(e & He & Hc)|H2];
    [left; exists (j + 2)%nat, e; repeat split; (done || lia)|].
  destruct (Hdec (j + 3)%nat) as [(e & He & Hc)|H3];
    [left; exists (j + 3)%nat, e; repeat split; (done || lia)|].
  destruct (Hdec (j + 4)%nat) as [(e & He & Hc)|H4];
    [left; exists (j + 4)%nat, e; repeat split; (done || lia)|].
  right. intros (n & e & He & Hc & Hj).
  assert (n = j + 1 ∨ n = j + 2 ∨ n = j + 3 ∨ n = j + 4)%nat
    as [-> | [-> | [-> | ->]]] by lia; eauto.
Qed.

Lemma expected_codes w i c :
  expected w !! i = Some (Some c) → c = 1 ∨ c = 2 ∨ c = 3 ∨ c = 4.
Proof.
  unfold expected. destruct (all_same w);
    do 4 (destruct i as [|i]; [intros [= <-]; lia|]); done.
Qed.

Lemma window_lookup (ev : list event) n j :
  (4 ≤ n)%nat → (j < n ≤ j + 4)%nat →
  window ev n !! (j + 4 - n)%nat = Some (code_at ev j).
Proof.
  intros H4 Hj. unfold window.
  assert (j = n - 4 ∨ j = n - 3 ∨ j = n - 2 ∨ j = n - 1)%nat
    as [-> | [-> | [-> | ->]]] by lia.
  - by replace (n - 4 + 4 - n)%nat with 0%nat by lia.
  - by replace (n - 3 + 4 - n)%nat with 1%nat by lia.
  - by replace (n - 2 + 4 - n)%nat with 2%nat by lia.
  - by replace (n - 1 + 4 - n)%nat with 3%nat by lia.
Qed.

Lemma expected_total w i : (i < 4)%nat → ∃ c, expected w !! i = Some (Some c).
Proof.
  intros Hi. unfold expected.
  destruct (all_same w); do 4 (destruct i as [|i]; [simpl; eauto|]); lia.
Qed.

(** After a run on a well-spaced array the code-58 events are where they
    were, so the result is well spaced again. *)
Lemma spaced_preserved (ev ev' : list event) :
  spaced ev →
  fst <$> ev' = fst <$> ev →
  (∀ j, ¬ predecessor_of_58 ev j → ev' !! j = ev !! j) →
  (∀ n e, ev !! n = Some e → code e = 58 →
          window ev' n = expected (window ev n)) →
  (∀ j e', ev' !! j = Some e' → code e' = 58 →
           ∃ e, ev !! j = Some e ∧ code e = 58) ∧
  (∀ j e, ev !! j = Some e → code e = 58 →
          ∃ e', ev' !! j = Some e' ∧ code e' = 58).
Proof.
  intros [H58 Hsp] Hcol Hfree Hwin. split.
  - intros j e' He' Hc'.
    destruct (predecessor_dec ev j) as [(n & e & He & Hc & Hj)|Hnp].
    + exfalso. pose proof (H58 _ _ He Hc) as H4.
      pose proof (window_lookup ev' n j H4 Hj) as Hl.
      rewrite (Hwin n e He Hc) in Hl.
      unfold code_at in Hl. rewrite He' in Hl. simpl in Hl.
      apply expected_codes in Hl. lia.
    + rewrite (Hfree j Hnp) in He'. eauto.
  - intros j e He Hc. exists e. split; [|done].
    rewrite Hfree; [done|].
    intros (n & e0 & He0 & Hc0 & Hj).
    pose proof (Hsp j n e e0 He Hc He0 Hc0). lia.
Qed.

Lemma all_same_expected w : all_same (expected w) = false.
Proof. unfold expected. by destruct (all_same w). Qed.
End melofix_rerun.

(** X1.  On a well-spaced array (every code-58 event has four events
    before it and the next code-58 event is at least five positions
    later) the function returns and does what the paradigm asks: the four
    events before each code-58 event get 1,2,2,2 when their codes in the
    input were all equal and 3,4,4,4 otherwise; every other row, and the
    first two columns of every row, are as in the input. *)
Theorem melofix_spaced_groups (ev : list Melofix.event) :
  ev ≠ [] → MelofixSpec.spaced ev →
  ∃ ev', Melofix.melofix_event_handling ev = Ok ev' ∧
         fst <$> ev' = fst <$> ev ∧
         (∀ j, ¬ Melofix.predecessor_of_58 ev j → ev' !! j = ev !! j) ∧
         (∀ n e, ev !! n = Some e → Melofix.code e = 58 →
                 MelofixSpec.window ev' n
                 = MelofixSpec.expected (MelofixSpec.window ev n)).
Proof. apply melofix_spaced_run. Qed.

Lemma spaced_example : MelofixSpec.spaced (Melofix.of_codes [7; 7; 7; 7; 58; 9]).
Proof.
  split.
  - intros n e He Hc.
    do 4 (destruct n as [|n]; [simpl in He; injection He as <-; by compute in Hc|]).
    lia.
  - intros n m e e' He Hc He' Hc' Hlt.
    do 4 (destruct n as [|n]; [simpl in He; injection He as <-; by compute in Hc|]).
    destruct n as [|n].
    + do 5 (destruct m as [|m]; [lia|]).
      destruct m as [|m]; [simpl in He'; injection He' as <-; by compute in Hc'|].
      done.
    + destruct n as [|n]; [simpl in He; injection He as <-; by compute in Hc|].
      done.
Qed.

Lemma melofix_spaced_groups_witness :
  ∃ ev', Melofix.melofix_event_handling (Melofix.of_codes [7; 7; 7; 7; 58; 9]) = Ok ev' ∧
         MelofixSpec.window ev' 4 = [Some 1; Some 2; Some 2; Some 2].
Proof.
  destruct (melofix_spaced_groups (Melofix.of_codes [7; 7; 7; 7; 58; 9]))
    as (ev' & Hrun & _ & _ & Hwin); [done|apply spaced_example|].
  exists ev'. split; [exact Hrun|].
  exact (Hwin 4%nat (0, 0, 58) eq_refl eq_refl).
Defined.

(** X2.  Running the function a second time on its own result (it reads
    the events file it has written) relabels every group as melody: on a
    well-spaced array the four events before each code-58 event end up as
    3,4,4,4, whatever the first run assigned. *)
Theorem melofix_rerun_relabels (ev : list Melofix.event) :
  ev ≠ [] → MelofixSpec.spaced ev →
  ∃ ev1 ev2,
    Melofix.melofix_event_handling ev = Ok ev1 ∧
    Melofix.melofix_event_handling ev1 = Ok ev2 ∧
    (∀ n e, ev !! n = Some e → Melofix.code e = 58 →
            MelofixSpec.window ev2 n = [Some 3; Some 4; Some 4; Some 4]).
Proof.
  intros Hne Hsp.
  destruct (melofix_spaced_run ev Hne Hsp) as (ev1 & Hrun1 & Hcol1 & Hfree1 & Hwin1).
  destruct (spaced_preserved ev ev1 Hsp Hcol1 Hfree1 Hwin1) as [Hback Hforth].
  assert (ev1 ≠ []) as Hne1.
  { intros ->. destruct ev; [done|]. discriminate Hcol1. }
  assert (MelofixSpec.spaced ev1) as Hsp1.
  { destruct Hsp as [H58 Hd]. split.
    - intros n e1 He1 Hc1. destruct (Hback n e1 He1 Hc1) as (e & He & Hc). eauto.
    - intros n m e1 e1' He1 Hc1 He1' Hc1' Hlt.
      destruct (Hback n e1 He1 Hc1) as (e & He & Hc).
      destruct (Hback m e1' He1' Hc1') as (e' & He' & Hc'). eauto. }
  destruct (melofix_spaced_run ev1 Hne1 Hsp1) as (ev2 & Hrun2 & _ & _ & Hwin2).
  exists ev1, ev2. split; [done|]. split; [done|].
  intros n e He Hc. destruct (Hforth n e He Hc) as (e1 & He1 & Hc1).
  rewrite (Hwin2 n e1 He1 Hc1), (Hwin1 n e He Hc).
  unfold MelofixSpec.expected at 1. by rewrite all_same_expected.
Qed.

Lemma melofix_rerun_relabels_witness :
  ∃ ev1 ev2,
    Melofix.melofix_event_handling (Melofix.of_codes [7; 7; 7; 7; 58; 9]) = Ok ev1 ∧
    Melofix.melofix_event_handling ev1 = Ok ev2 ∧
    MelofixSpec.window ev1 4 = [Some 1; Some 2; Some 2; Some 2] ∧
    MelofixSpec.window ev2 4 = [Some 3; Some 4; Some 4; Some 4].
Proof.
  destruct (melofix_rerun_relabels (Melofix.of_codes [7; 7; 7; 7; 58; 9]))
    as (ev1 & ev2 & H1 & H2 & Hwin); [done|apply spaced_example|].
  exists ev1, ev2. split; [exact H1|]. split; [exact H2|]. split.
  - injection H1 as <-. reflexivity.
  - exact (Hwin 4%nat (0, 0, 58) eq_refl eq_refl).
Defined.

Section melofix_outcome.
Import Melofix MelofixOutcome.

Lemma np_index_valid (len : nat) (z : Z) :
  - Z.of_nat len ≤ z < Z.of_nat len →
  ∃ k, (k < len)%nat ∧ np_index len z = Some k.
Proof.
  intros Hz. unfold np_index.
  destruct (Z.leb_spec 0 z); simpl.
  - destruct (Z.ltb_spec z (Z.of_nat len)); [|lia].
    exists (Z.to_nat z). split; [lia|done].
  - destruct (Z.leb_spec (- Z.of_nat len) z); [|lia].
    destruct (Z.ltb_spec z 0); [|lia]. simpl.
    exists (Z.to_nat (z + Z.of_nat len)). split; [lia|done].
Qed.

Lemma np_index_invalid (len : nat) (z : Z) :
  z < - Z.of_nat len → np_index len z = None.
Proof.
  intros Hz. unfold np_index.
  destruct (Z.leb_spec 0 z); [lia|]. simpl.
  destruct (Z.leb_spec (- Z.of_nat len) z); [lia|]. done.
Qed.

Lemma get_valid (ev : list event) z :
  - Z.of_nat (length ev) ≤ z < Z.of_nat (length ev) → ∃ c, get ev z = Ok c.
Proof.
  intros Hz. unfold get. destruct (np_index_valid _ z Hz) as (k & Hk & ->).
  destruct (lookup_lt_is_Some_2 ev k Hk) as [e ->]. eauto.
Qed.

Lemma get_raises (ev : list event) z e : get ev z = Raise e → e = IndexError.
Proof.
  unfold get. destruct (np_index _ _) as [k|]; [|congruence].
  destruct (ev !! k); congruence.
Qed.

Lemma set_valid (ev : list event) z c :
  - Z.of_nat (length ev) ≤ z < Z.of_nat (length ev) →
  ∃ k, set ev z c = Ok (alter (set_code c) k ev).
Proof.
  intros Hz. unfold set. destruct (np_index_valid _ z Hz) as (k & Hk & ->). eauto.
Qed.

Lemma set_invalid (ev : list event) z c :
  z < - Z.of_nat (length ev) → set ev z c = Raise IndexError.
Proof. intros Hz. unfold set. by rewrite np_index_invalid. Qed.

Lemma recoded_refl (ev : list event) : recoded ev ev.
Proof. split; [done|]. intros j. by left. Qed.

Lemma recoded_trans (ev1 ev2 ev3 : list event) :
  recoded ev1 ev2 → recoded ev2 ev3 → recoded ev1 ev3.
Proof.
  intros [Hc1 H1] [Hc2 H2]. split; [congruence|].
  intros j. destruct (H2 j) as [Heq|?]; [|by right].
  rewrite Heq. apply H1.
Qed.

Lemma recoded_alter (ev : list event) k c :
  1 ≤ c ≤ 4 → recoded ev (alter (set_code c) k ev).
Proof.
  intros Hc. split; [apply alter_code_columns|].
  intros j. rewrite list_lookup_alter. case_decide; [subst|by left].
  destruct (ev !! j) as [e|]; [|by left].
  right. exists (set_code c e). split; [done|]. simpl. lia.
Qed.

Lemma recoded_length (ev ev' : list event) : recoded ev ev' → length ev' = length ev.
Proof. intros [Hc _]. by rewrite <- (length_fmap fst ev'), Hc, length_fmap. Qed.

Lemma assign4_valid (ev : list event) (n : nat) o r :
  (n < length ev)%nat → (4 ≤ n + length ev)%nat → 1 ≤ o ≤ 4 → 1 ≤ r ≤ 4 →
  ∃ ev', assign4 ev (Z.of_nat n) o r = Ok ev' ∧ recoded ev ev'.
Proof.
  intros Hn H4 Ho Hr. unfold assign4.
  destruct (set_valid ev (Z.of_nat n - 4) o) as [k1 ->]; [lia|]. cbn [bind].
  pose proof (recoded_alter ev k1 o Ho) as R1.
  set (ev1 := alter (set_code o) k1 ev) in *.
  pose proof (recoded_length _ _ R1) as L1.
  destruct (set_valid ev1 (Z.of_nat n - 3) r) as [k2 ->]; [lia|]. cbn [bind].
  pose proof (recoded_alter ev1 k2 r Hr) as R2.
  set (ev2 := alter (set_code r) k2 ev1) in *.
  pose proof (recoded_length _ _ R2) as L2.
  destruct (set_valid ev2 (Z.of_nat n - 2) r) as [k3 ->]; [lia|]. cbn [bind].
  pose proof (recoded_alter ev2 k3 r Hr) as R3.
  set (ev3 := alter (set_code r) k3 ev2) in *.
  pose proof (recoded_length _ _ R3) as L3.
  destruct (set_valid ev3 (Z.of_nat n - 1) r) as [k4 ->]; [lia|].
  eexists. split; [done|].
  eauto using recoded_trans, recoded_alter.
Qed.

Lemma all_equal4_valid (ev : list event) (n : nat) :
  (n < length ev)%nat → (4 ≤ n + length ev)%nat →
  ∃ b, all_equal4 ev (Z.of_nat n) = Ok b.
Proof.
  intros Hn H4. unfold all_equal4.
  destruct (get_valid ev (Z.of_nat n - 1)) as [a ->]; [lia|]. cbn [bind].
  destruct (get_valid ev (Z.of_nat n - 2)) as [b ->]; [lia|]. cbn [bind].
  destruct (negb _); [eauto|].
  destruct (get_valid ev (Z.of_nat n - 3)) as [c ->]; [lia|]. cbn [bind].
  destruct (negb _); [eauto|].
  destruct (get_valid ev (Z.of_nat n - 4)) as [d ->]; [lia|]. cbn [bind]. eauto.
Qed.

Lemma all_equal4_raises (ev : list event) z e :
  all_equal4 ev z = Raise e → e = IndexError.
Proof.
  unfold all_equal4.
  destruct (get ev (z - 1)) as [a|e1] eqn:H1; cbn [bind];
    [|intros [= <-]; by eapply get_raises].
  destruct (get ev (z - 2)) as [b|e2] eqn:H2; cbn [bind];
    [|intros [= <-]; by eapply get_raises].
  destruct (negb _); [done|].
  destruct (get ev (z - 3)) as [c|e3] eqn:H3; cbn [bind];
    [|intros [= <-]; by eapply get_raises].
  destruct (negb _); [done|].
  destruct (get ev (z - 4)) as [d|e4] eqn:H4; cbn [bind];
    [done|intros [= <-]; by eapply get_raises].
Qed.

(** An iteration succeeds unless it is at a code-58 event whose fourth
    predecessor lies before even the wrapped range. *)
Lemma body_valid (ev : list event) (n : nat) e :
  ev !! n = Some e → (code e = 58 → (4 ≤ n + length ev)%nat) →
  ∃ ev', body ev (Z.of_nat n) = Ok ev' ∧ recoded ev ev'.
Proof.
  intros He H4. pose proof (lookup_lt_Some _ _ _ He) as Hn.
  unfold body. rewrite (get_here _ _ _ He). cbn [bind].
  destruct (Z.eqb_spec (code e) 58) as [Hc|Hc]; [|eauto using recoded_refl].
  destruct (all_equal4_valid ev n Hn (H4 Hc)) as [b ->]. cbn [bind].
  destruct b; apply assign4_valid; (done || lia || auto).
Qed.

Lemma body_out_of_range (ev : list event) (n : nat) e :
  ev !! n = Some e → code e = 58 → (n + length ev < 4)%nat →
  body ev (Z.of_nat n) = Raise IndexError.
Proof.
  intros He Hc H4. unfold body. rewrite (get_here _ _ _ He). cbn [bind].
  rewrite Hc. change (58 =? 58) with true. cbv iota.
  destruct (all_equal4 ev (Z.of_nat n)) as [b|e'] eqn:Hall; cbn [bind].
  - unfold assign4. destruct b; rewrite set_invalid by lia; done.
  - by rewrite (all_equal4_raises _ _ _ Hall).
Qed.

Lemma loop_valid (ev : list event) :
  (∀ n e, ev !! n = Some e → code e = 58 → (4 ≤ n + length ev)%nat) →
  ∀ m k cur,
    (k + m = length ev)%nat → recoded ev cur →
    ∃ ev', loop (Z.of_nat <$> seq k m) cur = Ok ev' ∧ recoded ev ev'.
Proof.
  intros H58. induction m as [|m IH]; intros k cur Hkm Hrec; simpl; [eauto|].
  pose proof (recoded_length _ _ Hrec) as Hlen.
  destruct (lookup_lt_is_Some_2 cur k) as [e He]; [lia|].
  destruct (body_valid cur k e He) as (cur' & -> & Hrec').
  { intros Hc. rewrite Hlen. destruct Hrec as [_ Hcodes].
    destruct (Hcodes k) as [Heq|(e' & He' & Hc')].
    - apply (H58 k e); [by rewrite <- Heq|done].
    - rewrite He in He'. injection He' as <-. lia. }
  cbn [bind]. apply IH; [lia|]. by eapply recoded_trans.
Qed.

Lemma loop_no_58 (ev : list event) m k :
  (∀ j e, ev !! j = Some e → (k ≤ j < k + m)%nat → code e ≠ 58) →
  (k + m ≤ length ev)%nat →
  loop (Z.of_nat <$> seq k m) ev = Ok ev.
Proof.
  revert k. induction m as [|m IH]; intros k Hno Hkm; simpl; [done|].
  destruct (lookup_lt_is_Some_2 ev k) as [e He]; [lia|].
  rewrite (body_other ev k e He); [|apply (Hno k e He); lia].
  cbn [bind]. apply IH; [|lia]. intros j e' He' Hj. apply (Hno j e' He'). lia.
Qed.

Lemma loop_app l1 l2 (ev : list event) :
  loop (l1 ++ l2) ev = let! ev := loop l1 ev in loop l2 ev.
Proof.
  revert ev. induction l1 as [|n l1 IH]; intros ev; simpl; [done|].
  destruct (body ev n); simpl; [apply IH|done].
Qed.

Lemma melofix_first_58_out_of_range (ev : list event) n0 e0 :
  ev !! n0 = Some e0 → code e0 = 58 →
  (∀ j e, ev !! j = Some e → (j < n0)%nat → code e ≠ 58) →
  (n0 + length ev < 4)%nat →
  melofix_event_handling ev = Raise IndexError.
Proof.
  intros He0 Hc0 Hfirst H4. pose proof (lookup_lt_Some _ _ _ He0) as Hn0.
  unfold melofix_event_handling.
  destruct (Nat.eqb_spec (length ev) 0) as [|_]; [lia|].
  unfold range.
  replace (length ev) with (n0 + S (length ev - S n0))%nat at 1 by lia.
  rewrite seq_app, fmap_app, loop_app.
  rewrite loop_no_58; [|intros j e He Hj; apply (Hfirst j e He); lia|lia].
  cbn [bind]. simpl.
  by rewrite (body_out_of_range ev n0 e0).
Qed.

Lemma melofix_in_range (ev : list event) :
  ev ≠ [] →
  (∀ n e, ev !! n = Some e → code e = 58 → (4 ≤ n + length ev)%nat) →
  ∃ ev', melofix_event_handling ev = Ok ev' ∧ recoded ev ev'.
Proof.
  intros Hne H58. unfold melofix_event_handling.
  destruct (Nat.eqb_spec (length ev) 0) as [Hl|_].
  { destruct ev; [done|discriminate]. }
  apply (loop_valid ev H58 (length ev) 0%nat); [done|apply recoded_refl].
Qed.

(** Either some code-58 event is out of range, and then the first one is,
    or none is. *)
Lemma first_58_cases (ev : list event) :
  (∃ n0 e0, ev !! n0 = Some e0 ∧ code e0 = 58 ∧
            (∀ j e, ev !! j = Some e → (j < n0)%nat → code e ≠ 58) ∧
            (n0 + length ev < 4)%nat) ∨
  (∀ n e, ev !! n = Some e → code e = 58 → (4 ≤ n + length ev)%nat).
Proof.
  destruct (list_find (λ e, code e = 58) ev) as [[n0 e0]|] eqn:Hfind.
  - apply list_find_Some in Hfind as (He0 & Hc0 & Hmin).
    destruct (decide (n0 + length ev < 4)%nat) as [Hlt|Hge].
    + left. exists n0, e0. repeat split; [done..| |done].
      intros j e He Hj. by apply (Hmin j e).
    + right. intros n e He Hc.
      destruct (decide (n < n0)%nat) as [Hn|Hn]; [|lia].
      by destruct (Hmin n e He Hn).
  - right. intros n e He Hc. exfalso.
    rewrite list_find_None, Forall_forall in Hfind.
    apply (Hfind e); [|done]. by eapply list_elem_of_lookup_2.
Qed.
End melofix_outcome.

(** X3.  How the function ends, for every events array: with the assertion
    exactly on an empty array; with IndexError exactly when some code-58
    event at position [n] has [n + len < 4], so that its fourth
    predecessor is out of range even counted from the end; and normally in
    all other cases, in particular on every array of four or more rows. *)
Theorem melofix_outcome (ev : list Melofix.event) :
  (Melofix.melofix_event_handling ev = Raise AssertionError ↔ ev = []) ∧
  (Melofix.melofix_event_handling ev = Raise IndexError ↔
     ∃ n e, ev !! n = Some e ∧ Melofix.code e = 58 ∧ (n + length ev < 4)%nat) ∧
  ((∃ ev', Melofix.melofix_event_handling ev = Ok ev') ↔
     ev ≠ [] ∧
     ∀ n e, ev !! n = Some e → Melofix.code e = 58 → (4 ≤ n + length ev)%nat).
Proof.
  destruct ev as [|e0 ev0].
  { split; [done|]. split.
    - split; [done|]. by intros (n & e & He & _).
    - split; [by intros [ev' H]|by intros [H _]]. }
  set (ev := e0 :: ev0).
  destruct (first_58_cases ev) as [(n0 & e1 & He1 & Hc1 & Hmin & Hlt)|Hall].
  - pose proof (melofix_first_58_out_of_range ev n0 e1 He1 Hc1 Hmin Hlt) as Hr.
    rewrite Hr. split; [done|]. split.
    + split; [eauto 6|done].
    + split; [by intros [ev' H]|].
      intros [_ H]. pose proof (H n0 e1 He1 Hc1). lia.
  - destruct (melofix_in_range ev) as (ev' & Hr & _); [done|done|].
    rewrite Hr. split; [done|]. split.
    + split; [done|]. intros (n & e & He & Hc & Hlt).
      pose proof (Hall n e He Hc). lia.
    + split; [done|eauto].
Qed.

(** X4.  Whenever the function returns, the array it writes has the rows
    of the input with their first two columns, and each code is either
    the input's or one of 1, 2, 3, 4; this holds also where the indices
    wrap around. *)
Theorem melofix_only_recodes (ev ev' : list Melofix.event) :
  Melofix.melofix_event_handling ev = Ok ev' →
  length ev' = length ev ∧
  fst <$> ev' = fst <$> ev ∧
  ∀ j, ev' !! j = ev !! j ∨ ∃ e', ev' !! j = Some e' ∧ 1 ≤ Melofix.code e' ≤ 4.
Proof.
  intros Hrun. destruct (first_58_cases ev) as [(n0 & e1 & He1 & Hc1 & Hmin & Hlt)|Hall].
  - by rewrite (melofix_first_58_out_of_range ev n0 e1 He1 Hc1 Hmin Hlt) in Hrun.
  - destruct ev as [|e0 ev0]; [done|].
    destruct (melofix_in_range (e0 :: ev0)) as (ev2 & Hr & Hrec); [done|done|].
    rewrite Hr in Hrun. injection Hrun as <-.
    split; [by apply recoded_length|exact Hrec].
Qed.

Lemma melofix_only_recodes_witness :
  length (Melofix.of_codes [58; 1; 2; 2; 2]) = 5%nat.
Proof.
  exact (proj1 (melofix_only_recodes (Melofix.of_codes [58; 5; 5; 5; 5])
                  (Melofix.of_codes [58; 1; 2; 2; 2]) eq_refl)).
Defined.

(** ** Lines of a text file, and the remaining sub-dict buttons *)

Section text_file_facts.
Import TextFile.

Lemma readlines_line body rest :
  no_nl body = true →
  readlines (line_of body +:+ rest) = line_of body :: readlines rest.
Proof.
  unfold line_of. induction body as [|c body IH]; intros Hb; [done|].
  simpl in Hb. apply andb_prop in Hb as [Hc Hb].
  simpl. rewrite (negb_true_iff _) in Hc. rewrite Hc.
  change ((body +:+ PyStr.nl) +:+ rest) with (line_of body +:+ rest) in *.
  unfold line_of in *. by rewrite (IH Hb).
Qed.

Lemma readlines_tail tail :
  no_nl tail = true →
  readlines tail = if bool_decide (tail = "") then [] else [tail].
Proof.
  induction tail as [|c tail IH]; intros Ht; [done|].
  simpl in Ht. apply andb_prop in Ht as [Hc Ht].
  simpl. rewrite (negb_true_iff _) in Hc. rewrite Hc, (IH Ht).
  by destruct tail.
Qed.

Lemma append_assoc (a b c : string) : (a +:+ b) +:+ c = a +:+ (b +:+ c).
Proof.
  induction a as [|x a IH]; [done|].
  change (String x ((a +:+ b) +:+ c) = String x (a +:+ (b +:+ c))).
  by rewrite IH.
Qed.

Lemma append_nil_r (a : string) : a +:+ "" = a.
Proof.
  induction a as [|x a IH]; [done|].
  change (String x (a +:+ "") = String x a). by rewrite IH.
Qed.

Lemma written_app l1 l2 : written (l1 ++ l2) = written l1 +:+ written l2.
Proof.
  unfold written. induction l1 as [|x l1 IH]; simpl; [done|].
  by rewrite IH, append_assoc.
Qed.

(** The lines of a text made of terminated lines and an unterminated
    rest. *)
Lemma readlines_lines bodies tail :
  Forall (λ b, no_nl b = true) bodies → no_nl tail = true →
  readlines (written (line_of <$> bodies) +:+ tail)
  = (line_of <$> bodies) ++ (if bool_decide (tail = "") then [] else [tail]).
Proof.
  intros Hb Ht. induction Hb as [|b bodies Hb _ IH].
  - by apply readlines_tail.
  - rewrite fmap_cons. unfold written. cbn [foldr].
    fold (written (line_of <$> bodies)).
    rewrite append_assoc, readlines_line by done.
    by rewrite IH.
Qed.

Lemma drop_last_line body : drop_last (line_of body) = body.
Proof.
  unfold line_of. induction body as [|c body IH]; [done|].
  simpl. rewrite IH. by destruct body.
Qed.
End text_file_facts.

(** X5.  [delete_last] removes the last line and nothing else.  For a file
    of newline-terminated lines followed by an optional unterminated rest:
    a non-empty rest is what is removed; otherwise the last terminated
    line is; an empty file stays empty. *)
Theorem delete_last_removes_last_line (bodies : list string) (tail : string) :
  Forall (λ b, TextFile.no_nl b = true) bodies →
  TextFile.no_nl tail = true →
  SubDictButtons.delete_last
    (TextFile.written (TextFile.line_of <$> bodies) +:+ tail)
  = if bool_decide (tail = "")
    then TextFile.written (TextFile.line_of <$> take (length bodies - 1) bodies)
    else TextFile.written (TextFile.line_of <$> bodies).
Proof.
  intros Hb Ht. unfold SubDictButtons.delete_last.
  rewrite readlines_lines by done.
  destruct (bool_decide (tail = "")).
  - rewrite app_nil_r, length_fmap. by rewrite <- fmap_take.
  - rewrite length_app. simpl.
    replace (length (TextFile.line_of <$> bodies) + 1 - 1)%nat
      with (length (TextFile.line_of <$> bodies)) by lia.
    by rewrite take_app_length.
Qed.

Lemma delete_last_removes_last_line_witness :
  SubDictButtons.delete_last
    (TextFile.written (TextFile.line_of <$> ["pp1a:mri1"; "pp2:mri2"]) +:+ "")
  = TextFile.written (TextFile.line_of <$> ["pp1a:mri1"]).
Proof.
  apply (delete_last_removes_last_line ["pp1a:mri1"; "pp2:mri2"] "").
  - repeat constructor.
  - reflexivity.
Defined.

Section text_file_more.
Import TextFile TextFileEnds.

Lemma readlines_nil s : readlines s = [] → s = "".
Proof.
  destruct s as [|c s]; [done|]. simpl.
  destruct (Ascii.eqb c "010"); [done|]. by destruct (readlines s).
Qed.

Lemma written_cons x l : written (x :: l) = x +:+ written l.
Proof. done. Qed.

(** Writing the lines back gives the text that was read. *)
Lemma written_readlines s : written (readlines s) = s.
Proof.
  induction s as [|c s IH]; [done|]. simpl.
  destruct (Ascii.eqb_spec c "010") as [->|Hc].
  - rewrite written_cons, IH. done.
  - destruct (readlines s) as [|l ls] eqn:Hl.
    + apply readlines_nil in Hl as ->. done.
    + rewrite written_cons in *.
      change (String c (l +:+ written ls) = String c s). by rewrite IH.
Qed.

Lemma readlines_cons c s :
  readlines (String c s)
  = if Ascii.eqb c "010" then String c "" :: readlines s
    else match readlines s with
         | [] => [String c ""]
         | l :: ls => String c l :: ls
         end.
Proof. done. Qed.

Lemma readlines_app a b :
  ends_nl a = true → readlines (a +:+ b) = readlines a ++ readlines b.
Proof.
  induction a as [|c a IH]; intros Ha; [done|].
  change (String c a +:+ b) with (String c (a +:+ b)).
  rewrite !readlines_cons.
  destruct a as [|c' a'].
  - simpl in Ha. rewrite Ha. done.
  - assert (ends_nl (String c' a') = true) as Ha' by exact Ha.
    rewrite (IH Ha').
    destruct (Ascii.eqb c "010"); [done|].
    destruct (readlines (String c' a')) as [|l ls] eqn:Hl; [|done].
    by apply readlines_nil in Hl.
Qed.

Lemma ends_nl_app a b : ends_nl a = true → ends_nl b = true → ends_nl (a +:+ b) = true.
Proof.
  induction a as [|c a IH]; intros Ha Hb; [done|].
  change (String c a +:+ b) with (String c (a +:+ b)).
  destruct a as [|c' a'].
  - destruct b; [done|]. exact Hb.
  - change (ends_nl (String c' a' +:+ b) = true). apply IH; [exact Ha|done].
Qed.

Lemma ends_nl_line body : ends_nl (line_of body) = true.
Proof.
  unfold line_of. induction body as [|c body IH]; [done|].
  change (String c body +:+ PyStr.nl) with (String c (body +:+ PyStr.nl)).
  destruct body; [done|]. exact IH.
Qed.

Lemma ends_nl_written_lines (bodies : list string) :
  ends_nl (written (line_of <$> bodies)) = true.
Proof.
  induction bodies as [|b bodies IH]; [done|].
  rewrite fmap_cons, written_cons. apply ends_nl_app; [apply ends_nl_line|done].
Qed.

Lemma no_nl_app a b : no_nl a = true → no_nl b = true → no_nl (a +:+ b) = true.
Proof.
  induction a as [|c a IH]; intros Ha Hb; [done|].
  change (String c a +:+ b) with (String c (a +:+ b)).
  simpl in *. apply andb_prop in Ha as [-> Ha]. simpl. by apply IH.
Qed.
End text_file_more.

Section sub_dict_button_facts.
Import SubDict SubDictButtons TextFile TextFileEnds.

Lemma entry_line_line kv : entry_line kv = line_of (kv.1 +:+ ":" +:+ str kv.2).
Proof. unfold entry_line, line_of. by rewrite !append_assoc. Qed.

Lemma all_items_snoc items t :
  all_items (items ++ [t]) = update1 t PNone (all_items items).
Proof. unfold all_items. by rewrite foldl_app. Qed.

Lemma setitem_keys k v (d : pydict) :
  keys (setitem k v d) = if decide (k ∈ keys d) then keys d else keys d ++ [k].
Proof.
  case_decide.
  - by apply setitem_keys_present.
  - rewrite setitem_absent by done. unfold keys. by rewrite fmap_app.
Qed.

Lemma setitem_values_None k (d : pydict) :
  Forall (λ kv, kv.2 = PNone) d → Forall (λ kv, kv.2 = PNone) (setitem k PNone d).
Proof.
  induction 1 as [|[k' v'] d Hv Hd IH]; simpl.
  - by repeat constructor.
  - destruct (decide (k = k')); constructor; done.
Qed.

Lemma all_items_spec items :
  NoDup (keys (all_items items)) ∧
  (∀ t, t ∈ keys (all_items items) ↔ t ∈ items) ∧
  Forall (λ kv, kv.2 = PNone) (all_items items) ∧
  (NoDup items → keys (all_items items) = items).
Proof.
  induction items as [|t items IH] using rev_ind.
  { repeat split; try done; constructor. }
  destruct IH as (Hnd & Hin & Hv & Heq).
  rewrite all_items_snoc. unfold update1. repeat split.
  - by apply setitem_NoDup.
  - rewrite setitem_keys. case_decide as Ht.
    + rewrite Hin. intros Hx. apply elem_of_app. by left.
    + rewrite elem_of_app, Hin. intros [?|?]; apply elem_of_app; auto.
  - rewrite setitem_keys. intros [Hx|Hx]%elem_of_app.
    + case_decide; [|apply elem_of_app; left]; by apply Hin.
    + apply list_elem_of_singleton in Hx as ->.
      case_decide; [done|]. apply elem_of_app. right. by left.
  - by apply setitem_values_None.
  - intros [Hnd1 [Hnot _]]%NoDup_app.
    rewrite setitem_keys. rewrite decide_False.
    + by rewrite Heq.
    + rewrite Hin. intros Ht. apply (Hnot t Ht). by left.
Qed.
End sub_dict_button_facts.

(** X6.  A list widget filled with [line[:-1]] for each line of a file
    shows exactly the names of a file of newline-terminated names; of a
    last line without its line feed it shows all but the last
    character. *)
Theorem list_items_of_lines (names : list string) (tail : string) :
  Forall (λ b, TextFile.no_nl b = true) names →
  TextFile.no_nl tail = true →
  SubDictButtons.list_items
    (TextFile.written (TextFile.line_of <$> names) +:+ tail)
  = names ++ (if bool_decide (tail = "") then [] else [TextFile.drop_last tail]).
Proof.
  intros Hn Ht. unfold SubDictButtons.list_items.
  rewrite readlines_lines by done. rewrite fmap_app. f_equal.
  - rewrite <- list_fmap_compose. rewrite <- (list_fmap_id names) at 2.
    apply list_fmap_ext. intros i b _. simpl. apply drop_last_line.
  - by destruct (bool_decide (tail = "")).
Qed.

Lemma list_items_of_lines_witness :
  SubDictButtons.list_items
    (TextFile.written (TextFile.line_of <$> ["pp1a_256_b"]) +:+ "pp2_256_a")
  = ["pp1a_256_b"; "pp2_256_"].
Proof.
  apply (list_items_of_lines ["pp1a_256_b"] "pp2_256_a").
  - repeat constructor.
  - reflexivity.
Defined.

(** X7.  [sub_dict_assign_all_none] writes nothing unless the question is
    answered with Yes.  With Yes it writes, whether or not the file
    existed and whatever it held, one line ['item:None'] for every
    distinct item of the list widget and no other line; for distinct
    items the lines follow the order of the widget. *)
Theorem assign_all_none_lines (file : option string) (items : list string) :
  SubDictButtons.sub_dict_assign_all_none false file items = None ∧
  ∃ ks : list string,
    SubDictButtons.sub_dict_assign_all_none true file items
      = Some ((λ t, t +:+ ":None" +:+ PyStr.nl) <$> ks) ∧
    NoDup ks ∧ (∀ t, t ∈ ks ↔ t ∈ items) ∧ (NoDup items → ks = items).
Proof.
  split; [done|].
  destruct (all_items_spec items) as (Hnd & Hin & Hv & Heq).
  exists (SubDict.keys (SubDictButtons.all_items items)).
  split; [|done].
  assert (SubDict.entry_line <$> SubDictButtons.all_items items
          = (λ t, t +:+ ":None" +:+ PyStr.nl)
              <$> SubDict.keys (SubDictButtons.all_items items)) as Hl.
  { unfold SubDict.keys. rewrite <- list_fmap_compose.
    apply list_fmap_ext. intros i [k v] Hi. simpl.
    rewrite Forall_forall in Hv.
    assert (v = SubDict.PNone) as ->.
    { apply (Hv (k, v)). by eapply list_elem_of_lookup_2. }
    reflexivity. }
  unfold SubDictButtons.sub_dict_assign_all_none. rewrite Hl. by destruct file.
Qed.

(** X8.  Assign followed by Delete Last.  When the selected key is new to
    an existing file and neither it nor the value holds a line feed, the
    line written for it is the last one, and deleting it leaves exactly
    the lines of the dictionary that was read.  When there was no file,
    the one line written is deleted and the file is empty. *)
Theorem assign_then_delete_last
    (read_sub_dict : string → SubDict.pydict) (content choice1 choice2 : string) :
  TextFile.no_nl choice1 = true → TextFile.no_nl choice2 = true →
  (choice1 ∉ SubDict.keys (read_sub_dict content) →
   SubDictButtons.delete_last
     (TextFile.written
        (SubDict.sub_dict_assign read_sub_dict (Some content) choice1 choice2))
   = TextFile.written (SubDict.entry_line <$> read_sub_dict content)) ∧
  SubDictButtons.delete_last
    (TextFile.written (SubDict.sub_dict_assign read_sub_dict None choice1 choice2))
  = "".
Proof.
  intros Hk Hv.
  assert (TextFile.no_nl (choice1 +:+ ":" +:+ choice2) = true) as Hbody.
  { apply no_nl_app; [done|]. by apply (no_nl_app ":"). }
  assert (∀ a, TextFileEnds.ends_nl a = true →
            SubDictButtons.delete_last
              (a +:+ TextFile.line_of (choice1 +:+ ":" +:+ choice2)) = a) as Hdel.
  { intros a Ha. unfold SubDictButtons.delete_last.
    rewrite readlines_app by done.
    rewrite <- (append_nil_r (TextFile.line_of _)).
    rewrite readlines_line by done. simpl TextFile.readlines.
    rewrite length_app. simpl.
    replace (length (TextFile.readlines a) + 1 - 1)%nat
      with (length (TextFile.readlines a)) by lia.
    rewrite take_app_length. apply written_readlines. }
  split.
  - intros Hnew. unfold SubDict.sub_dict_assign.
    rewrite assigned_setitem, setitem_absent by done.
    rewrite fmap_app, written_app. simpl (SubDict.entry_line <$> [_]).
    rewrite entry_line_line. simpl fst. simpl snd. unfold SubDict.str.
    rewrite written_cons. change (TextFile.written []) with "".
    rewrite append_nil_r. apply Hdel.
    clear. induction (read_sub_dict content) as [|kv d IH]; [done|].
    rewrite fmap_cons, written_cons, entry_line_line.
    apply ends_nl_app; [apply ends_nl_line|done].
  - unfold SubDict.sub_dict_assign. rewrite written_cons.
    change (TextFile.written []) with "". rewrite append_nil_r.
    change (choice1 +:+ ":" +:+ choice2 +:+ PyStr.nl)
      with (SubDict.entry_line (choice1, SubDict.PStr choice2)).
    rewrite entry_line_line. simpl fst. simpl snd. unfold SubDict.str.
    apply (Hdel ""). done.
Qed.

Lemma assign_then_delete_last_witness :
  SubDictButtons.delete_last
    (TextFile.written
       (SubDict.sub_dict_assign (λ _, [("pp1a", SubDict.PStr "mri1")])
                                (Some "") "pp2" "mri2"))
  = TextFile.written
      (SubDict.entry_line <$> [("pp1a", SubDict.PStr "mri1")]).
Proof.
  apply (assign_then_delete_last (λ _, [("pp1a", SubDict.PStr "mri1")]) "" "pp2" "mri2").
  - reflexivity.
  - reflexivity.
  - unfold SubDict.keys. simpl. intros Hin.
    apply list_elem_of_singleton in Hin. discriminate.
Defined.

(** ** The bad-channel dialog *)

Section bad_channel_dialog_facts.
Import BadChannelsSelect BadChannelsDialog.

Lemma set_checked_spec ch (boxes : chkbts) :
  NoDup boxes.*1 → ch ∈ boxes.*1 →
  set_checked ch boxes
  = Ok ((λ kb : string * bool, (kb.1, bool_decide (kb.1 = ch) || kb.2)) <$> boxes).
Proof.
  induction boxes as [|[k b] boxes IH]; intros Hnd Hin; simpl.
  - by apply elem_of_nil in Hin.
  - apply NoDup_cons in Hnd as [Hk Hnd]. simpl in Hk.
    destruct (decide (ch = k)) as [->|Hne].
    + rewrite bool_decide_eq_true_2 by done. simpl. do 2 f_equal.
      rewrite <- (list_fmap_id boxes) at 1. apply list_fmap_ext.
      intros i [k' b'] Hi. simpl.
      rewrite bool_decide_eq_false_2; [done|].
      intros ->. apply Hk. apply list_elem_of_fmap. exists (k, b').
      split; [done|]. by eapply list_elem_of_lookup_2.
    + apply elem_of_cons in Hin as [?|Hin]; [done|].
      rewrite IH by done. simpl.
      by rewrite bool_decide_eq_false_2 by done.
Qed.

Lemma set_checked_missing ch (boxes : chkbts) :
  ch ∉ boxes.*1 → set_checked ch boxes = Raise (KeyError ch).
Proof.
  induction boxes as [|[k b] boxes IH]; intros Hin; simpl; [done|].
  apply not_elem_of_cons in Hin as [Hne Hin]. simpl in Hne.
  rewrite decide_False by done. by rewrite IH.
Qed.

Lemma check_all_spec bads (boxes : chkbts) :
  NoDup boxes.*1 → Forall (λ b, b ∈ boxes.*1) bads →
  check_all bads boxes
  = Ok ((λ kb : string * bool, (kb.1, bool_decide (kb.1 ∈ bads) || kb.2)) <$> boxes).
Proof.
  intros Hnd Hb. revert boxes Hnd Hb.
  induction bads as [|bad bads IH]; intros boxes Hnd Hb; simpl.
  - f_equal. rewrite <- (list_fmap_id boxes) at 1. apply list_fmap_ext.
    by intros i [k b] _.
  - apply Forall_cons in Hb as [Hbad Hb].
    rewrite set_checked_spec by done. cbn [bind].
    rewrite IH.
    + f_equal. rewrite <- list_fmap_compose. apply list_fmap_ext.
      intros i [k b] _. unfold compose. cbn [fst snd]. f_equal.
      destruct (decide (k = bad)) as [->|Hne].
      * rewrite (bool_decide_eq_true_2 (bad = bad)) by done.
        rewrite (bool_decide_eq_true_2 (bad ∈ bad :: bads)) by left.
        by rewrite orb_true_r.
      * rewrite (bool_decide_eq_false_2 (k = bad)) by done.
        destruct (decide (k ∈ bads)) as [Hin|Hin].
        -- rewrite (bool_decide_eq_true_2 (k ∈ bads)) by done.
           by rewrite (bool_decide_eq_true_2 (k ∈ bad :: bads)) by (by right).
        -- rewrite (bool_decide_eq_false_2 (k ∈ bads)) by done.
           rewrite (bool_decide_eq_false_2 (k ∈ bad :: bads)); [done|].
           intros [?|?]%elem_of_cons; done.
    + by rewrite <- list_fmap_compose.
    + by rewrite <- list_fmap_compose.
Qed.

Lemma check_all_missing bads1 bad bads2 (boxes : chkbts) :
  NoDup boxes.*1 → Forall (λ b, b ∈ boxes.*1) bads1 → bad ∉ boxes.*1 →
  check_all (bads1 ++ bad :: bads2) boxes = Raise (KeyError bad).
Proof.
  intros Hnd Hb Hbad. revert boxes Hnd Hb Hbad.
  induction bads1 as [|b bads1 IH]; intros boxes Hnd Hb Hbad; simpl.
  - by rewrite set_checked_missing.
  - apply Forall_cons in Hb as [Hb1 Hb].
    rewrite set_checked_spec by done. cbn [bind].
    apply IH; by rewrite <- list_fmap_compose.
Qed.

Lemma ch_name_inj_channels x y :
  x ∈ channels → y ∈ channels → ch_name x = ch_name y → x = y.
Proof.
  intros Hx%label_ok_channel Hy%label_ok_channel Heq.
  unfold label_ok in *.
  apply andb_prop in Hx as [_ Hx]. apply andb_prop in Hy as [_ Hy].
  apply bool_decide_eq_true in Hx, Hy. rewrite Heq in Hx. congruence.
Qed.

Lemma NoDup_channels : NoDup channels.
Proof.
  unfold channels. apply NoDup_fmap_2; [|apply NoDup_seq].
  intros a b. lia.
Qed.

Lemma NoDup_ch_names : NoDup (ch_name <$> channels).
Proof.
  apply NoDup_fmap_2_strong; [|apply NoDup_channels].
  intros x y Hx Hy. by apply ch_name_inj_channels.
Qed.

Lemma boxes_with_keys (checked : N → bool) :
  (boxes_with checked).*1 = ch_name <$> channels.
Proof. unfold boxes_with. by rewrite <- list_fmap_compose. Qed.
End bad_channel_dialog_facts.

(** X9.  Selecting a file and pressing Assign without touching a box gives
    back what was stored.  When the stored entries are all channel
    labels, [bad_dict_selected] leaves exactly those boxes checked,
    whatever was checked before, and [bad_dict_assign] then collects the
    stored labels, each once and in channel order, with their numbers. *)
Theorem bad_dict_select_then_assign
    (bad_dict : gmap string (list string)) (name : string) (bads : list string)
    (checked : N → bool) :
  bad_dict !! name = Some bads →
  Forall (λ b, b ∈ BadChannelsSelect.ch_name <$> BadChannelsSelect.channels) bads →
  let stored := λ x, bool_decide (BadChannelsSelect.ch_name x ∈ bads) in
  let nums := List.filter stored BadChannelsSelect.channels in
  BadChannelsDialog.bad_dict_selected bad_dict name
    (BadChannelsSelect.boxes_with checked)
  = Ok (BadChannelsSelect.boxes_with stored) ∧
  BadChannelsSelect.bad_dict_assign (BadChannelsSelect.boxes_with stored)
  = Ok (BadChannelsSelect.ch_name <$> nums, nums) ∧
  NoDup (BadChannelsSelect.ch_name <$> nums) ∧
  (∀ b, b ∈ BadChannelsSelect.ch_name <$> nums ↔ b ∈ bads).
Proof.
  intros Hname Hbads stored nums. repeat split.
  - unfold BadChannelsDialog.bad_dict_selected. rewrite Hname.
    rewrite check_all_spec.
    + f_equal. unfold BadChannelsSelect.boxes_with.
      rewrite <- !list_fmap_compose. apply list_fmap_ext.
      intros i x _. unfold compose. cbn [fst snd]. by rewrite orb_false_r.
    + rewrite <- list_fmap_compose. apply NoDup_ch_names.
    + rewrite <- list_fmap_compose.
      change ((λ kb : string * bool, (kb.1, false)) <$> _).*1
        with (BadChannelsSelect.boxes_with (λ _, false)).*1 in *.
      unfold BadChannelsSelect.boxes_with. by rewrite <- list_fmap_compose.
  - unfold BadChannelsSelect.bad_dict_assign, BadChannelsSelect.boxes_with.
    rewrite (bad_dict_assign_loop_spec stored); [done|].
    intros y Hy. pose proof (label_ok_channel y Hy) as Hy'.
    unfold BadChannelsSelect.label_ok in Hy'. apply andb_prop in Hy' as [_ Hy'].
    by apply bool_decide_eq_true in Hy'.
  - apply NoDup_fmap_2_strong.
    + intros x y Hx Hy. apply list_elem_of_In, filter_In in Hx as [Hx _].
      apply list_elem_of_In, filter_In in Hy as [Hy _].
      apply ch_name_inj_channels; by apply list_elem_of_In.
    + apply NoDup_ListNoDup, List.NoDup_filter, NoDup_ListNoDup, NoDup_channels.
  - intros (x & -> & Hx)%list_elem_of_fmap.
    apply list_elem_of_In, filter_In in Hx as [_ Hx].
    by apply bool_decide_eq_true in Hx.
  - intros Hb. rewrite Forall_forall in Hbads.
    destruct (proj1 (list_elem_of_fmap _ _ _) (Hbads b Hb)) as (x & -> & Hx).
    apply list_elem_of_fmap. exists x. split; [done|].
    apply list_elem_of_In, filter_In. split; [by apply list_elem_of_In|].
    by apply bool_decide_eq_true.
Qed.

Lemma bad_dict_select_then_assign_witness :
  BadChannelsSelect.bad_dict_assign
    (BadChannelsSelect.boxes_with
       (λ x, bool_decide (BadChannelsSelect.ch_name x ∈ ["MEG 103"; "MEG 007"])))
  = Ok (BadChannelsSelect.ch_name
          <$> List.filter
                (λ x, bool_decide (BadChannelsSelect.ch_name x ∈ ["MEG 103"; "MEG 007"]))
                BadChannelsSelect.channels,
        List.filter
          (λ x, bool_decide (BadChannelsSelect.ch_name x ∈ ["MEG 103"; "MEG 007"]))
          BadChannelsSelect.channels).
Proof.
  refine (proj1 (proj2 (bad_dict_select_then_assign
                          {["pp1a_256_b" := ["MEG 103"; "MEG 007"]]} "pp1a_256_b"
                          ["MEG 103"; "MEG 007"] (λ _, true) _ _))).
  - reflexivity.
  - apply Forall_cons. split; [|apply Forall_cons; split; [|apply Forall_nil; exact I]].
    + apply list_elem_of_fmap. exists 103%N. split; [reflexivity|].
      apply elem_of_channels. lia.
    + apply list_elem_of_fmap. exists 7%N. split; [reflexivity|].
      apply elem_of_channels. lia.
Defined.

(** X10.  The edge cases of [bad_dict_selected]: for a file without an
    entry every box ends up unchecked; an entry that is not the label of
    a check box raises KeyError for the first such entry. *)
Theorem bad_dict_selected_edges
    (bad_dict : gmap string (list string)) (name : string) (checked : N → bool) :
  (bad_dict !! name = None →
   BadChannelsDialog.bad_dict_selected bad_dict name
     (BadChannelsSelect.boxes_with checked)
   = Ok (BadChannelsSelect.boxes_with (λ _, false))) ∧
  (∀ bads1 bad bads2,
     bad_dict !! name = Some (bads1 ++ bad :: bads2) →
     Forall (λ b, b ∈ BadChannelsSelect.ch_name <$> BadChannelsSelect.channels) bads1 →
     bad ∉ BadChannelsSelect.ch_name <$> BadChannelsSelect.channels →
     BadChannelsDialog.bad_dict_selected bad_dict name
       (BadChannelsSelect.boxes_with checked)
     = Raise (KeyError bad)).
Proof.
  assert (((λ kb : string * bool, (kb.1, false))
             <$> BadChannelsSelect.boxes_with checked).*1
          = BadChannelsSelect.ch_name <$> BadChannelsSelect.channels) as Hkeys.
  { unfold BadChannelsSelect.boxes_with. by rewrite <- !list_fmap_compose. }
  split.
  - intros Hname. unfold BadChannelsDialog.bad_dict_selected. rewrite Hname.
    unfold BadChannelsSelect.boxes_with. by rewrite <- list_fmap_compose.
  - intros bads1 bad bads2 Hname Hb Hbad.
    unfold BadChannelsDialog.bad_dict_selected. rewrite Hname.
    apply check_all_missing; rewrite Hkeys; [apply NoDup_ch_names|done..].
Qed.

Lemma bad_dict_selected_edges_witness :
  BadChannelsDialog.bad_dict_selected {["f" := ["MEG 001"; "MEG 200"]]} "f"
    (BadChannelsSelect.boxes_with (λ _, false))
  = Raise (KeyError "MEG 200").
Proof.
  refine (proj2 (bad_dict_selected_edges {["f" := ["MEG 001"; "MEG 200"]]} "f"
                   (λ _, false)) ["MEG 001"] "MEG 200" [] _ _ _).
  - reflexivity.
  - apply Forall_cons. split; [|apply Forall_nil; exact I].
    apply list_elem_of_fmap. exists 1%N. split; [reflexivity|].
    apply elem_of_channels. lia.
  - apply (bool_decide_unpack _). vm_compute. exact I.
Defined.

(** X11.  The check boxes of [initui] do not collide: two different
    channel numbers between 1 and 122 get different labels and different
    grid cells, and every cell lies in rows 0 to 12 and columns 1 to 10,
    clear of the list in column 0 and the buttons in column 11. *)
Theorem checkbox_cells_distinct (x y : N) :
  (1 ≤ x ≤ 122)%N → (1 ≤ y ≤ 122)%N → x ≠ y →
  BadChannelsSelect.ch_name x ≠ BadChannelsSelect.ch_name y ∧
  BadChannelsDialog.cell (Z.of_N x) ≠ BadChannelsDialog.cell (Z.of_N y) ∧
  0 ≤ (BadChannelsDialog.cell (Z.of_N x)).1 ≤ 12 ∧
  1 ≤ (BadChannelsDialog.cell (Z.of_N x)).2 ≤ 10.
Proof.
  intros Hx Hy Hne. split; [|split].
  - intros Heq. apply Hne.
    apply ch_name_inj_channels; [by apply elem_of_channels..|done].
  - unfold BadChannelsDialog.cell. intros [= H1 H2]. apply Hne.
    apply N2Z.inj.
    pose proof (Z.div_mod (Z.of_N x - 1) 10 ltac:(lia)).
    pose proof (Z.div_mod (Z.of_N y - 1) 10 ltac:(lia)).
    lia.
  - unfold BadChannelsDialog.cell. simpl.
    pose proof (Z.div_mod (Z.of_N x - 1) 10 ltac:(lia)).
    pose proof (Z.mod_pos_bound (Z.of_N x - 1) 10 ltac:(lia)).
    lia.
Qed.

Lemma checkbox_cells_distinct_witness :
  BadChannelsDialog.cell 10 ≠ BadChannelsDialog.cell 11 ∧
  BadChannelsDialog.cell 11 = (1, 1).
Proof.
  split; [|reflexivity].
  exact (proj1 (proj2 (checkbox_cells_distinct 10 11 ltac:(lia) ltac:(lia) ltac:(lia)))).
Defined.

(** ** The function buttons and the launcher of the older window *)

Section old_buttons_facts.
Import OldFuncButtons.

Lemma foldl_insert_lookup {V} (l : list (string * V)) :
  NoDup l.*1 →
  ∀ (acc : gmap string V) k,
    foldl (λ d fv, <[fv.1 := fv.2]> d) acc l !! k
    = match (list_to_map l : gmap string V) !! k with
      | Some v => Some v
      | None => acc !! k
      end.
Proof.
  induction l as [|[k1 v1] l IH]; intros Hnd acc k; simpl.
  { by rewrite lookup_empty. }
  apply NoDup_cons in Hnd as [Hk1 Hnd]. rewrite IH by done.
  destruct (decide (k = k1)) as [->|Hne].
  - rewrite (not_elem_of_list_to_map_1 l k1 Hk1). by rewrite !lookup_insert_eq.
  - by rewrite !(lookup_insert_ne _ k1 k) by done.
Qed.

Lemma load_defaults_id (all_fs : gmap string Z) : load_defaults all_fs = all_fs.
Proof.
  apply map_eq. intros k. unfold load_defaults.
  rewrite foldl_insert_lookup by apply NoDup_fst_map_to_list.
  rewrite list_to_map_to_list, lookup_empty. by destruct (all_fs !! k).
Qed.

Lemma foldl_delete_lookup (l : list string) (m : gmap string Z) k :
  foldl (λ d k, delete k d) m l !! k = if decide (k ∈ l) then None else m !! k.
Proof.
  revert m. induction l as [|k1 l IH]; intros m; simpl; [done|].
  rewrite IH. destruct (decide (k ∈ l)) as [Hin|Hin].
  - rewrite decide_True; [done|by right].
  - destruct (decide (k = k1)) as [->|Hne].
    + rewrite decide_True by left. apply lookup_delete_eq.
    + rewrite decide_False; [by rewrite lookup_delete_ne|].
      intros [?|?]%elem_of_cons; done.
Qed.

(** A cache entry survives the cleaning exactly when its function
    exists. *)
Lemma clean_cache_lookup (all_fs pre : gmap string Z) k :
  clean_cache all_fs pre !! k
  = if decide (is_Some (all_fs !! k)) then pre !! k else None.
Proof.
  unfold clean_cache. rewrite foldl_delete_lookup.
  destruct (decide (is_Some (all_fs !! k))) as [Hk|Hk].
  - rewrite decide_False; [done|].
    rewrite list_elem_of_In, filter_In. intros [_ H].
    by rewrite bool_decide_eq_true_2 in H.
  - destruct (pre !! k) as [v|] eqn:Hpre; [|by destruct (decide _)].
    rewrite decide_True; [done|].
    rewrite list_elem_of_In, filter_In. split.
    + apply list_elem_of_In, list_elem_of_fmap. exists (k, v).
      split; [done|]. by apply elem_of_map_to_list.
    + by rewrite bool_decide_eq_false_2.
Qed.

Lemma merge_one_other pre (d : gmap string Z) f k :
  k ≠ f → merge_one pre d f !! k = d !! k.
Proof.
  intros Hne. unfold merge_one.
  destruct (pre !! f); [|done]. destruct (d !! f) as [v|]; [|done].
  destruct (negb (truthy v)); [|done]. by rewrite lookup_insert_ne.
Qed.

Lemma merge_fold_lookup pre (l : list string) :
  NoDup l → ∀ (d : gmap string Z) k,
  foldl (merge_one pre) d l !! k
  = if decide (k ∈ l) then merge_one pre d k !! k else d !! k.
Proof.
  induction l as [|f l IH]; intros Hnd d k; simpl; [done|].
  apply NoDup_cons in Hnd as [Hf Hnd]. rewrite IH by done.
  destruct (decide (k = f)) as [->|Hne].
  - rewrite decide_False by done. by rewrite decide_True by left.
  - destruct (decide (k ∈ l)) as [Hin|Hin].
    + rewrite decide_True by (by right).
      unfold merge_one at 1 3. rewrite merge_one_other by done.
      destruct (pre !! k); [|by apply merge_one_other].
      destruct (d !! k) as [v|]; [|by apply merge_one_other].
      destruct (negb (truthy v)); [|by apply merge_one_other].
      by rewrite !lookup_insert_eq.
    + rewrite decide_False; [by apply merge_one_other|].
      intros [?|?]%elem_of_cons; done.
Qed.
End old_buttons_facts.

(** The function dictionary after the cache is merged into the defaults,
    before the buttons are made. *)
Lemma merge_cache_lookup (all_fs : gmap string Z)
    (pre_func_dict : option (gmap string Z)) (f : string) :
  OldFuncButtons.merge_cache all_fs pre_func_dict !! f
  = match all_fs !! f with
    | None => None
    | Some v =>
        if OldFuncButtons.truthy v then Some v
        else Some (default v (pre_func_dict ≫= (.!! f)))
    end.
Proof.
  unfold OldFuncButtons.merge_cache. rewrite load_defaults_id.
  destruct pre_func_dict as [pre|]; simpl.
  - rewrite merge_fold_lookup.
    2:{ apply NoDup_fst_map_to_list. }
    destruct (all_fs !! f) as [v|] eqn:Hf.
    + rewrite decide_True.
      2:{ apply list_elem_of_fmap. exists (f, v). split; [done|].
          by apply elem_of_map_to_list. }
      unfold OldFuncButtons.merge_one. rewrite clean_cache_lookup, Hf.
      rewrite decide_True by eauto.
      destruct (pre !! f) as [c|]; simpl.
      * destruct (OldFuncButtons.truthy v); simpl; [done|].
        by rewrite lookup_insert_eq.
      * by destruct (OldFuncButtons.truthy v).
    + rewrite decide_False; [done|].
      intros ((k & v) & -> & Hin%elem_of_map_to_list)%list_elem_of_fmap.
      simpl in Hf. congruence.
  - destruct (all_fs !! f) as [v|]; [|done].
    by destruct (OldFuncButtons.truthy v).
Qed.

Section old_selection_facts.
Import OldFuncButtons.

Lemma for_each_app {A B} (body : A → B → result A) (l1 l2 : list B) : ∀ a,
  for_each body a (l1 ++ l2) = let! a := for_each body a l1 in for_each body a l2.
Proof.
  induction l1 as [|b l1 IH]; intros a; cbn [app for_each]; [done|].
  destruct (body a b); cbn [bind]; [apply IH|done].
Qed.

Lemma for_each_bind {A B C} (inner : B → list C) (body : A → C → result A)
    (l : list B) : ∀ a,
  for_each (λ a b, for_each body a (inner b)) a l = for_each body a (l ≫= inner).
Proof.
  induction l as [|b l IH]; intros a; [done|].
  cbn [for_each]. rewrite bind_cons, for_each_app.
  destruct (for_each body a (inner b)); cbn [bind]; [apply IH|done].
Qed.

Lemma for_each_ext {A B} (f g : A → B → result A) (l : list B) : ∀ a,
  (∀ a b, f a b = g a b) → for_each f a l = for_each g a l.
Proof.
  induction l as [|b l IH]; intros a Hfg; [done|].
  cbn [for_each]. rewrite Hfg. destruct (g a b); cbn [bind]; [by apply IH|done].
Qed.

Lemma make_func_bts_buttons all_fs pre calcplot_fs :
  make_func_bts all_fs pre calcplot_fs =
  for_each check_button (merge_cache all_fs pre) (buttons calcplot_fs).
Proof.
  unfold make_func_bts, buttons.
  rewrite <- (for_each_bind (λ tab : string * list (string * list string),
                               tab.2 ≫= (λ g : string * list string, g.2))
                            check_button).
  apply for_each_ext. intros d tab.
  apply (for_each_bind (λ g : string * list string, g.2) check_button).
Qed.

(** The button loop over a dictionary with the functions [known]. *)
Lemma check_buttons_spec (known : gset string) (l : list string) :
  ∀ d : gmap string Z,
    dom d = known →
    match list_find (λ f, f ∉ known) l with
    | Some (_, f) => for_each check_button d l = Raise (KeyError f)
    | None =>
        ∃ d', for_each check_button d l = Ok d' ∧
              ∀ k, d' !! k = match d !! k with
                              | Some v =>
                                  Some (if bool_decide (k ∈ l) && truthy v then 1 else v)
                              | None => None
                              end
    end.
Proof.
  induction l as [|f l IH]; intros d Hdom.
  { cbn. exists d. split; [done|]. intros k. by destruct (d !! k). }
  cbn [list_find for_each].
  destruct (decide (f ∉ known)) as [Hf|Hf].
  { cbn. rewrite <- Hdom in Hf. apply not_elem_of_dom in Hf.
    unfold check_button. by rewrite Hf. }
  apply dec_stable in Hf. rewrite <- Hdom in Hf. apply elem_of_dom in Hf as [v Hv].
  set (d1 := if truthy v then <[f := 1]> d else d).
  assert (Hcb : check_button d f = Ok d1).
  { unfold check_button. by rewrite Hv. }
  rewrite Hcb. cbn [bind].
  assert (Hdom1 : dom d1 = known).
  { unfold d1. destruct (truthy v); [|done].
    rewrite dom_insert_L, <- Hdom.
    apply set_eq. intros x. rewrite elem_of_union, elem_of_singleton.
    split; [intros [->|?]; [by apply elem_of_dom|done]|by right]. }
  specialize (IH d1 Hdom1).
  destruct (list_find (λ f0, f0 ∉ known) l) as [[i g]|]; cbn [fmap option_fmap option_map].
  { exact IH. }
  destruct IH as (d' & Hrun & Hd'). exists d'. split; [exact Hrun|].
  intros k. rewrite Hd'. unfold d1.
  destruct (decide (k = f)) as [->|Hne].
  - rewrite Hv. rewrite (bool_decide_eq_true_2 (f ∈ f :: l)) by left.
    destruct (truthy v) eqn:Htv.
    + rewrite lookup_insert_eq. by destruct (bool_decide (f ∈ l)).
    + rewrite Hv, Htv. by rewrite !andb_false_r.
  - assert (bool_decide (k ∈ f :: l) = bool_decide (k ∈ l)) as ->.
    { apply bool_decide_ext. rewrite elem_of_cons. tauto. }
    destruct (truthy v); [by rewrite lookup_insert_ne|done].
Qed.

Lemma dom_merge_cache (all_fs : gmap string Z) pre :
  dom (merge_cache all_fs pre) = dom all_fs.
Proof.
  apply set_eq. intros k. rewrite !elem_of_dom, merge_cache_lookup.
  destruct (all_fs !! k) as [v|]; [|done].
  destruct (truthy v); split; eauto.
Qed.
End old_selection_facts.

(** X12.  The selection the older window starts with, after
    [make_func_bts].  If a function with a button is not in [opd.all_fs],
    the call ends with the KeyError of the first such function.
    Otherwise the function dictionary has exactly the functions of
    [opd.all_fs]: a function that is on by default keeps its default
    whatever the cache says, and a function that is off by default takes
    its cached value when the cache has one; then every function with a
    button whose value is not 0 is set to 1, so a function with a button
    starts at 0 or 1, and a function without one keeps the merged value.
    Cached entries of functions that no longer exist are never taken
    over. *)
Theorem make_func_bts_selection (all_fs : gmap string Z)
    (pre_func_dict : option (gmap string Z))
    (calcplot_fs : list (string * list (string * list string))) :
  let bts := OldFuncButtons.buttons calcplot_fs in
  match list_find (λ f, f ∉ dom all_fs) bts with
  | Some (_, f) =>
      OldFuncButtons.make_func_bts all_fs pre_func_dict calcplot_fs
        = Raise (KeyError f)
  | None =>
      ∃ func_dict,
        OldFuncButtons.make_func_bts all_fs pre_func_dict calcplot_fs = Ok func_dict ∧
        ∀ f, func_dict !! f =
             match all_fs !! f with
             | None => None
             | Some v =>
                 let merged := if OldFuncButtons.truthy v then v
                               else default v (pre_func_dict ≫= (.!! f)) in
                 Some (if bool_decide (f ∈ bts) && OldFuncButtons.truthy merged
                       then 1 else merged)
             end
  end.
Proof.
  intros bts. rewrite make_func_bts_buttons. fold bts.
  pose proof (check_buttons_spec (dom all_fs) bts
                (OldFuncButtons.merge_cache all_fs pre_func_dict)
                (dom_merge_cache all_fs pre_func_dict)) as H.
  destruct (list_find _ bts) as [[i g]|]; [exact H|].
  destruct H as (d' & Hrun & Hd'). exists d'. split; [exact Hrun|].
  intros f. rewrite Hd', merge_cache_lookup.
  destruct (all_fs !! f) as [v|]; [|done]. cbv zeta.
  by destruct (OldFuncButtons.truthy v).
Qed.

Section old_layout_facts.
Import OldFuncButtons.

Lemma grid_ok_place w r c r' c' (ps : list (widget * (nat * nat))) :
  (r ≤ 15)%nat →
  NoDup (snd <$> ps) →
  (∀ p, p ∈ ps → (p.2.1 ≤ 15)%nat ∧ (16 * p.2.2 + p.2.1 < 16 * c + r)%nat) →
  (16 * c + r < 16 * c' + r')%nat →
  NoDup (snd <$> (ps ++ [(w, (r, c))])) ∧
  ∀ p, p ∈ ps ++ [(w, (r, c))] →
       (p.2.1 ≤ 15)%nat ∧ (16 * p.2.2 + p.2.1 < 16 * c' + r')%nat.
Proof.
  intros Hr Hnd Hps Hlt. split.
  - rewrite fmap_app. apply NoDup_app. split; [done|]. split; [|apply NoDup_singleton].
    intros pos Hin. intros Hin'. apply list_elem_of_singleton in Hin'. simpl in Hin'.
    subst pos. apply list_elem_of_fmap in Hin as (p & Hp & Hin).
    destruct (Hps p Hin) as [_ Hk]. rewrite <- Hp in Hk. simpl in Hk. lia.
  - intros p [Hin|Hin]%elem_of_app.
    + destruct (Hps p Hin). split; [done|lia].
    + apply list_elem_of_singleton in Hin as ->. simpl. split; [done|lia].
Qed.

Lemma add_button_ok g function :
  grid_ok 15 g → grid_ok 14 (add_button g function).
Proof.
  intros (Hr & Hnd & Hps). unfold add_button, r_max.
  destruct (Nat.leb_spec 15 (S (r_cnt g))) as [Hge|Hlt].
  - destruct (grid_ok_place (FuncButton function) (r_cnt g) (c_cnt g) 0 (S (c_cnt g))
                (placed g) Hr Hnd Hps) as [Hnd' Hps']; [lia|].
    split; [simpl; lia|]. split; [exact Hnd'|]. intros p Hp. simpl.
    destruct (Hps' p Hp). split; [done|lia].
  - destruct (grid_ok_place (FuncButton function) (r_cnt g) (c_cnt g)
                (S (r_cnt g)) (c_cnt g) (placed g) Hr Hnd Hps) as [Hnd' Hps']; [lia|].
    split; [simpl; lia|]. split; [exact Hnd'|]. intros p Hp. simpl.
    destruct (Hps' p Hp). split; [done|lia].
Qed.

Lemma add_buttons_ok functions g :
  functions ≠ [] → grid_ok 15 g → grid_ok 14 (foldl add_button g functions).
Proof.
  intros Hne Hg. destruct functions as [|f functions]; [done|]. simpl.
  pose proof (add_button_ok g f Hg) as Hg'. clear Hne Hg.
  revert Hg'. generalize (add_button g f). clear g.
  induction functions as [|f' functions IH]; intros g Hg; simpl; [done|].
  apply IH. apply add_button_ok.
  destruct Hg as (Hr & Hnd & Hps). split; [lia|done].
Qed.

Lemma add_group_ok g group :
  group.2 ≠ [] → grid_ok 14 g → grid_ok 14 (add_group g group).
Proof.
  intros Hne (Hr & Hnd & Hps). unfold add_group, r_max.
  destruct (Nat.ltb_spec 15 (r_cnt g)) as [?|_]; [lia|].
  apply add_buttons_ok; [done|].
  destruct (grid_ok_place (GroupLabel group.1) (r_cnt g) (c_cnt g)
              (S (r_cnt g)) (c_cnt g) (placed g)) as [Hnd' Hps'];
    [lia|done|done|lia|].
  split; [simpl; lia|]. split; [exact Hnd'|exact Hps'].
Qed.
End old_layout_facts.

(** X13.  The grid of a tab in [make_func_bts].  When every function group
    of the tab has at least one function, no two widgets (group labels or
    buttons) are put into the same cell, and all of them are in rows 0 to
    15. *)
Theorem layout_tab_cells_distinct (groups : list (string * list string)) :
  Forall (λ group, group.2 ≠ []) groups →
  NoDup (snd <$> OldFuncButtons.layout_tab groups) ∧
  Forall (λ p, (p.2.1 ≤ 15)%nat) (OldFuncButtons.layout_tab groups).
Proof.
  intros Hgroups. unfold OldFuncButtons.layout_tab.
  assert (OldFuncButtons.grid_ok 14 {| OldFuncButtons.r_cnt := 0; OldFuncButtons.c_cnt := 0;
                        OldFuncButtons.placed := [] |}) as H0.
  { split; [simpl; lia|]. split; [constructor|]. intros p Hp.
    by apply elem_of_nil in Hp. }
  revert H0. generalize {| OldFuncButtons.r_cnt := 0; OldFuncButtons.c_cnt := 0;
                           OldFuncButtons.placed := [] |}.
  induction Hgroups as [|group groups Hne _ IH]; intros g Hg; simpl.
  - destruct Hg as (_ & Hnd & Hps). split; [done|].
    apply Forall_forall. intros p Hp. by destruct (Hps p Hp).
  - apply IH. by apply add_group_ok.
Qed.

Lemma layout_tab_cells_distinct_witness :
  NoDup (snd <$> OldFuncButtons.layout_tab
                   [("Preprocessing", ["filter_raw"; "find_events"]);
                    ("Plot", ["plot_raw"])]) ∧
  OldFuncButtons.layout_tab [("Plot", ["plot_raw"])]
  = [(OldFuncButtons.GroupLabel "Plot", (0, 0))%nat;
     (OldFuncButtons.FuncButton "plot_raw", (1, 0))%nat].
Proof.
  split; [|reflexivity].
  apply (layout_tab_cells_distinct
           [("Preprocessing", ["filter_raw"; "find_events"]); ("Plot", ["plot_raw"])]).
  repeat constructor; done.
Defined.

(** Without that condition cells can collide: after a label in row 15 the
    row counter is reset without a change of column. *)
Example layout_tab_empty_groups_collide :
  let fs := ["f01"; "f02"; "f03"; "f04"; "f05"; "f06"; "f07";
             "f08"; "f09"; "f10"; "f11"; "f12"; "f13"] in
  let cells := OldFuncButtons.layout_tab [("a", fs); ("b", []); ("c", []); ("d", [])] in
  cells !! 0%nat = Some (OldFuncButtons.GroupLabel "a", (0, 0)%nat) ∧
  last cells = Some (OldFuncButtons.GroupLabel "d", (0, 0)%nat).
Proof. split; reflexivity. Qed.

(** X14.  After [get_paths] has returned, the key-value store agrees with
    the window: it holds the window's home path and project name.  The
    home path is the stored one if that is a directory, and otherwise the
    non-empty answer of the directory dialog. *)
Theorem get_paths_store_agrees
    (isdir : string → bool) (listdir : string → list string)
    (has_data_dir : string → string → bool)
    (getExistingDirectory : string) (getText : string * bool)
    (qs : gmap string string) (p : OldWindow.paths) :
  OldWindow.get_paths isdir listdir has_data_dir getExistingDirectory getText qs
    = Ok p →
  OldWindow.qsettings p !! "home_path" = Some (OldWindow.home_path p) ∧
  OldWindow.qsettings p !! "project_name" = OldWindow.project_name p ∧
  ((qs !! "home_path" = Some (OldWindow.home_path p) ∧
    isdir (OldWindow.home_path p) = true) ∨
   (OldWindow.home_path p = getExistingDirectory ∧ getExistingDirectory ≠ "")).
Proof.
  intros Hget. unfold OldWindow.get_paths in Hget.
  destruct (OldWindow.get_home_path _ _ _) as [[home qs']|e] eqn:Hhome; [|done].
  simpl in Hget.
  assert (qs' !! "home_path" = Some home ∧
          ((qs !! "home_path" = Some home ∧ isdir home = true) ∨
           (home = getExistingDirectory ∧ getExistingDirectory ≠ ""))) as [Hh Horigin].
  { unfold OldWindow.get_home_path in Hhome.
    destruct (qs !! "home_path") as [h|] eqn:Hq.
    - destruct (isdir h) eqn:Hd; simpl in Hhome.
      + injection Hhome as <- <-. split; [done|]. by left.
      + destruct (decide (getExistingDirectory = "")) as [He|He].
        * by rewrite bool_decide_eq_true_2 in Hhome.
        * rewrite bool_decide_eq_false_2 in Hhome by done.
          injection Hhome as <- <-. rewrite lookup_insert_eq. split; [done|by right].
    - destruct (decide (getExistingDirectory = "")) as [He|He].
      + by rewrite bool_decide_eq_true_2 in Hhome.
      + rewrite bool_decide_eq_false_2 in Hhome by done.
        injection Hhome as <- <-. rewrite lookup_insert_eq. split; [done|by right]. }
  destruct (Nat.eqb _ _).
  - destruct getText as [text []]; [|done]. injection Hget as <-. simpl.
    rewrite lookup_insert_ne by done. rewrite lookup_insert_eq. done.
  - destruct (OldWindow.unknown_project _ _).
    + destruct (List.filter _ _) as [|first rest]; [done|].
      injection Hget as <-. simpl.
      rewrite lookup_insert_ne by done. rewrite lookup_insert_eq. done.
    + injection Hget as <-. simpl. done.
Qed.

Lemma get_paths_store_agrees_witness :
  ∃ p, OldWindow.get_paths (λ _, false) (λ _, ["pilot"]) (λ _ _, true)
         "/data" ("", false) ∅ = Ok p ∧
       OldWindow.qsettings p !! "home_path" = Some "/data" ∧
       OldWindow.qsettings p !! "project_name" = Some "pilot".
Proof.
  pose proof (get_paths_store_agrees (λ _, false) (λ _, ["pilot"]) (λ _ _, true)
                "/data" ("", false) ∅ _ eq_refl) as (H1 & H2 & _).
  eexists. split; [reflexivity|]. split; [exact H1|exact H2].
Defined.

(** X15.  What the launcher does is decided by the first action that is
    not a press of Clear: Stop ends it with SystemExit(0); Start, or
    closing the window, lets it fall through; while there is no such
    action the event loop is still running. *)
Theorem launcher_by_first_action (actions : list OldWindow.action) :
  OldWindow.launcher actions
  = (λ a, match a with
          | OldWindow.PressStop => OldWindow.SystemExit 0
          | _ => OldWindow.FallThrough
          end) <$> OldFuncButtons.first_closing actions.
Proof.
  unfold OldWindow.launcher.
  induction actions as [|a actions IH]; [done|].
  destruct a; simpl; [by destruct actions|by destruct actions|exact IH|by destruct actions].
Qed.


(** ** The selection and the function table *)

Lemma foldl_insert_const_lookup (l : list string) (v : Z) : ∀ (m : gmap string Z) f,
  foldl (λ s f, <[f := v]> s) m l !! f =
  if bool_decide (f ∈ l) then Some v else m !! f.
Proof.
  induction l as [|a l IH]; intros m f; cbn [foldl].
  - done.
  - rewrite IH. destruct (decide (f = a)) as [->|Hne].
    + rewrite lookup_insert_eq.
      rewrite (bool_decide_true (a ∈ a :: l)) by constructor.
      by case_bool_decide.
    + rewrite lookup_insert_ne by done.
      case_bool_decide; [rewrite bool_decide_true by (by constructor); done|].
      rewrite bool_decide_false; [done|]. by intros [?|?]%elem_of_cons.
Qed.

Lemma sync_sel_functions_lookup idx (sel : gmap string Z) f :
  NewWindowTools.sync_sel_functions idx sel !! f =
  if bool_decide (f ∈ idx) then Some (default 0 (sel !! f)) else None.
Proof.
  unfold NewWindowTools.sync_sel_functions.
  set (f_rm := List.filter _ (map_to_list sel).*1).
  set (sel' := foldl _ sel f_rm).
  assert (Hsel' : ∀ g, sel' !! g = if bool_decide (g ∈ idx) then sel !! g else None).
  { intros g. unfold sel'. rewrite foldl_delete_lookup.
    case_bool_decide as Hin.
    - rewrite decide_False; [done|].
      unfold f_rm. rewrite list_elem_of_In, filter_In, <- list_elem_of_In.
      intros [_ H]. by rewrite bool_decide_true in H.
    - case_decide as Hrm; [done|].
      destruct (sel !! g) as [v|] eqn:Hg; [|done].
      exfalso. apply Hrm. unfold f_rm.
      rewrite list_elem_of_In, filter_In, <- list_elem_of_In. split.
      + apply list_elem_of_fmap. exists (g, v). split; [done|].
        by apply elem_of_map_to_list.
      + by rewrite bool_decide_false. }
  rewrite foldl_insert_const_lookup.
  case_bool_decide as Hadd.
  - rewrite list_elem_of_In, filter_In, <- list_elem_of_In in Hadd.
    destruct Hadd as [Hin Hnone]. apply bool_decide_eq_true in Hnone.
    rewrite bool_decide_true by done.
    rewrite Hsel', bool_decide_true in Hnone by done. by rewrite Hnone.
  - rewrite Hsel'. case_bool_decide as Hin; [|done].
    destruct (sel !! f) as [v|] eqn:Hf; [done|].
    exfalso. apply Hadd.
    rewrite list_elem_of_In, filter_In, <- list_elem_of_In. split; [done|].
    apply bool_decide_eq_true. by rewrite Hsel', bool_decide_true.
Qed.

(** X17. [add_func_bts] brings the selection in step with the functions
    of the selected modules: when at least one function is left, the
    selected functions become exactly the functions of the cleaned
    table, each keeping the value it had and each new one starting at 0;
    when none is left (all modules deselected) the selection is not
    touched, so it can keep functions that are no longer shown. *)
Theorem add_func_bts_selection_lookup (pd_funcs : CustomModules.dataframe)
    (selected_modules : list string) (sel_functions : gmap string Z) (f : string) :
  let cleaned := NewWindowTools.cleaned_pd_funcs pd_funcs selected_modules in
  NewWindowTools.add_func_bts_selection pd_funcs selected_modules sel_functions !! f =
  match cleaned with
  | [] => sel_functions !! f
  | _ :: _ =>
      if bool_decide (f ∈ CustomModules.index cleaned)
      then Some (default 0 (sel_functions !! f))
      else None
  end.
Proof.
  intros cleaned. unfold NewWindowTools.add_func_bts_selection.
  fold cleaned. destruct cleaned as [|r rs] eqn:Hc; [done|].
  cbn [length Nat.eqb]. apply sync_sel_functions_lookup.
Qed.

(** ** The rows of group boxes *)

Lemma row_width_app (r1 r2 : list (string * Z)) :
  NewWindowTools.row_width (r1 ++ r2) =
  NewWindowTools.row_width r1 + NewWindowTools.row_width r2.
Proof.
  unfold NewWindowTools.row_width.
  induction r1 as [|b r1 IH]; cbn [app foldr]; lia.
Qed.

Lemma add_group_box_step (max_h_size : Z) (t : NewWindowTools.tab_layout)
    (b : string * Z) :
  NewWindowTools.h_size t = NewWindowTools.row_width (NewWindowTools.tab_h_layout t) →
  let t1 := NewWindowTools.add_group_box max_h_size t b in
  NewWindowTools.tab_h_layout t1 ≠ [] ∧
  NewWindowTools.h_size t1 = NewWindowTools.row_width (NewWindowTools.tab_h_layout t1) ∧
  ((length (NewWindowTools.tab_h_layout t1) ≤ 1)%nat ∨
   NewWindowTools.row_width (NewWindowTools.tab_h_layout t1) ≤ max_h_size) ∧
  ∃ pre,
    NewWindowTools.tab_v_layout t1 = NewWindowTools.tab_v_layout t ++ pre ∧
    pre = (if NewWindowTools.h_size t + b.2 >? max_h_size
           then [NewWindowTools.tab_h_layout t] else []) ∧
    concat pre ++ NewWindowTools.tab_h_layout t1 = NewWindowTools.tab_h_layout t ++ [b].
Proof.
  intros Hh t1. unfold t1, NewWindowTools.add_group_box.
  destruct (Z.gtb_spec (NewWindowTools.h_size t + b.2) max_h_size) as [Hgt|Hle];
    cbn [NewWindowTools.h_size NewWindowTools.tab_h_layout
         NewWindowTools.tab_v_layout].
  - split_and!; [done|cbn; lia|left; cbn; lia|].
    exists [NewWindowTools.tab_h_layout t].
    split_and!; [done|done|]. cbn. by rewrite app_nil_r.
  - split_and!.
    + by destruct (NewWindowTools.tab_h_layout t).
    + rewrite row_width_app, Hh. cbn. lia.
    + right. rewrite row_width_app, <- Hh. cbn. lia.
    + exists []. split_and!; [by rewrite app_nil_r|done|done].
Qed.

Lemma tab_fold_rows (max_h_size : Z) (boxes : list (string * Z)) :
  ∀ t : NewWindowTools.tab_layout,
    NewWindowTools.tab_h_layout t ≠ [] →
    NewWindowTools.h_size t = NewWindowTools.row_width (NewWindowTools.tab_h_layout t) →
    ((length (NewWindowTools.tab_h_layout t) ≤ 1)%nat ∨
     NewWindowTools.row_width (NewWindowTools.tab_h_layout t) ≤ max_h_size) →
    let t' := foldl (NewWindowTools.add_group_box max_h_size) t boxes in
    NewWindowTools.tab_h_layout t' ≠ [] ∧
    ∃ rs,
      NewWindowTools.tab_v_layout t' ++ [NewWindowTools.tab_h_layout t'] =
        NewWindowTools.tab_v_layout t ++ rs ∧
      Forall (λ r, r ≠ [] ∧ ((length r ≤ 1)%nat ∨
                             NewWindowTools.row_width r ≤ max_h_size)) rs ∧
      concat rs = NewWindowTools.tab_h_layout t ++ boxes.
Proof.
  induction boxes as [|b bs IH]; intros t Hne Hh Hok; cbn [foldl].
  - split; [done|]. exists [NewWindowTools.tab_h_layout t].
    split_and!; [done| |by cbn; rewrite !app_nil_r].
    constructor; [done|constructor].
  - destruct (add_group_box_step max_h_size t b Hh)
      as (Hne1 & Hh1 & Hok1 & pre & Hv1 & Hpre & Hcat1).
    destruct (IH _ Hne1 Hh1 Hok1) as (Hne' & rs & Hrows & Hall & Hcat).
    split; [exact Hne'|].
    exists (pre ++ rs). split_and!.
    + rewrite Hrows, Hv1. by rewrite <- app_assoc.
    + apply Forall_app. split; [|done]. rewrite Hpre.
      destruct (_ >? _); constructor; [done|constructor].
    + rewrite concat_app, Hcat, app_assoc, Hcat1. by rewrite <- app_assoc.
Qed.

Lemma tab_rows_cons (max_h_size : Z) (b : string * Z) (bs : list (string * Z)) :
  ∃ rs,
    NewWindowTools.tab_rows max_h_size (b :: bs) =
      (if b.2 >? max_h_size then [[]] else []) ++ rs ∧
    Forall (λ r, r ≠ [] ∧ ((length r ≤ 1)%nat ∨
                           NewWindowTools.row_width r ≤ max_h_size)) rs ∧
    concat rs = b :: bs.
Proof.
  unfold NewWindowTools.tab_rows. cbn [foldl].
  set (t0 := {| NewWindowTools.h_size := 0; NewWindowTools.tab_h_layout := [];
                NewWindowTools.tab_v_layout := [] |}).
  destruct (add_group_box_step max_h_size t0 b eq_refl)
    as (Hne1 & Hh1 & Hok1 & pre & Hv1 & Hpre & Hcat1).
  destruct (tab_fold_rows max_h_size bs _ Hne1 Hh1 Hok1)
    as (Hne' & rs & Hrows & Hall & Hcat).
  cbv zeta in Hne', Hrows |- *.
  destruct (NewWindowTools.tab_h_layout (foldl _ _ bs)) as [|c cur] eqn:Hcur; [done|].
  cbn [length Nat.ltb Nat.leb]. rewrite Hrows, Hv1.
  cbn [t0 NewWindowTools.tab_v_layout NewWindowTools.h_size
       NewWindowTools.tab_h_layout app] in Hpre, Hcat1 |- *.
  rewrite Z.add_0_l in Hpre. subst pre.
  exists rs. split_and!; [done|done|].
  rewrite Hcat. destruct (_ >? _); cbn in Hcat1; by rewrite Hcat1.
Qed.

(** X18. The wrapping of the group boxes of a tab in [add_func_bts]: the
    rows hold all the boxes, in order; a row with more than one box is
    never wider than the tab; every row after the first holds a box; and
    the first row is an empty layout exactly when the first box alone is
    wider than the tab. *)
Theorem tab_rows_wrap (max_h_size : Z) (boxes : list (string * Z)) :
  let rows := NewWindowTools.tab_rows max_h_size boxes in
  concat rows = boxes ∧
  Forall (λ r, (length r ≤ 1)%nat ∨ NewWindowTools.row_width r ≤ max_h_size) rows ∧
  (∀ i r, rows !! S i = Some r → r ≠ []) ∧
  (rows !! 0%nat = Some [] ↔ ∃ b bs, boxes = b :: bs ∧ max_h_size < b.2).
Proof.
  intros rows. destruct boxes as [|b bs].
  { cbn. split_and!; [done|constructor|done|].
    split; [done|]. by intros (?&?&?&?). }
  destruct (tab_rows_cons max_h_size b bs) as (rs & Hrows & Hall & Hcat).
  unfold rows. rewrite Hrows. clear rows Hrows.
  assert (Hne : ∀ i r, rs !! i = Some r → r ≠ []).
  { intros i r Hi. by apply (Forall_lookup_1 _ _ _ _ Hall) in Hi as [? _]. }
  assert (Hok : Forall (λ r, (length r ≤ 1)%nat ∨
                             NewWindowTools.row_width r ≤ max_h_size) rs).
  { eapply Forall_impl; [exact Hall|]. by intros r [_ ?]. }
  destruct (Z.gtb_spec b.2 max_h_size) as [Hgt|Hle]; cbn [app].
  - split_and!.
    + done.
    + constructor; [left; cbn; lia|done].
    + intros i r Hi. cbn in Hi. by eapply Hne.
    + split; [intros _; by exists b, bs|done].
  - split_and!.
    + done.
    + done.
    + intros i r Hi. by eapply Hne.
    + split.
      * intros H0. by apply Hne in H0.
      * intros (b'&bs'&[= <- <-]&?). lia.
Qed.

(** ** Buttons and selection *)

Lemma foldl_insert_with_lookup {A V} (g : A → V) (l : list (string * A)) :
  NoDup l.*1 →
  ∀ (acc : gmap string V) k,
    foldl (λ s fb, <[fb.1 := g fb.2]> s) acc l !! k
    = match (list_to_map l : gmap string A) !! k with
      | Some a => Some (g a)
      | None => acc !! k
      end.
Proof.
  induction l as [|[k1 v1] l IH]; intros Hnd acc k; simpl.
  { by rewrite lookup_empty. }
  apply NoDup_cons in Hnd as [Hk1 Hnd]. rewrite IH by done.
  destruct (decide (k = k1)) as [->|Hne].
  - rewrite (not_elem_of_list_to_map_1 l k1 Hk1). by rewrite !lookup_insert_eq.
  - by rewrite !(lookup_insert_ne _ k1 k) by done.
Qed.

Lemma func_group_toggled_lookup (bt_dict : gmap string NewWindowTools.push_button)
    (sel : gmap string Z) f :
  NewWindowTools.func_group_toggled bt_dict sel !! f =
  match bt_dict !! f with
  | Some b => Some (if NewWindowTools.isChecked b && NewWindowTools.isEnabled b
                    then 1 else 0)
  | None => sel !! f
  end.
Proof.
  unfold NewWindowTools.func_group_toggled.
  rewrite (foldl_insert_with_lookup
             (λ b, if NewWindowTools.isChecked b && NewWindowTools.isEnabled b
                   then 1 else 0)) by apply NoDup_fst_map_to_list.
  by rewrite list_to_map_to_list.
Qed.

Lemma update_selected_funcs_lookup (bt_dict : gmap string NewWindowTools.push_button)
    (sel : gmap string Z) f :
  NewWindowTools.update_selected_funcs bt_dict sel !! f =
  (λ b, {| NewWindowTools.isChecked :=
             match sel !! f with
             | Some v => NewWindowTools.truthy v
             | None => false
             end;
           NewWindowTools.isEnabled := NewWindowTools.isEnabled b |}) <$> bt_dict !! f.
Proof.
  unfold NewWindowTools.update_selected_funcs.
  rewrite map_lookup_imap. by destruct (bt_dict !! f).
Qed.

(** X19. The function buttons and the selection of the project:
    [update_selected_funcs] checks exactly the buttons of the selected
    functions and leaves which buttons are enabled alone;
    [func_group_toggled] then writes 1 for every function whose button is
    checked and enabled and 0 for every other function with a button, and
    leaves functions without a button alone.  So toggling a group after a
    refresh keeps the selected functions with an enabled button selected
    (as 1) and deselects the functions whose button is disabled; and
    [clear] leaves no function with a button selected and no button
    checked. *)
Theorem buttons_follow_selection (bt_dict : gmap string NewWindowTools.push_button)
    (sel_functions : gmap string Z) (f : string) :
  let bt := NewWindowTools.update_selected_funcs bt_dict sel_functions in
  dom bt = dom bt_dict ∧
  NewWindowTools.func_group_toggled bt sel_functions !! f =
    match bt_dict !! f with
    | Some b =>
        Some (if match sel_functions !! f with
                 | Some v => NewWindowTools.truthy v
                 | None => false
                 end && NewWindowTools.isEnabled b
              then 1 else 0)
    | None => sel_functions !! f
    end ∧
  (NewWindowTools.clear bt_dict sel_functions).2 !! f =
    (if bool_decide (f ∈ dom bt_dict) then Some 0 else sel_functions !! f) ∧
  (NewWindowTools.clear bt_dict sel_functions).1 !! f =
    (λ b, {| NewWindowTools.isChecked := false;
             NewWindowTools.isEnabled := NewWindowTools.isEnabled b |}) <$> bt_dict !! f.
Proof.
  intros bt. subst bt. split_and!.
  - apply set_eq. intros g. rewrite !elem_of_dom, update_selected_funcs_lookup.
    by rewrite fmap_is_Some.
  - rewrite func_group_toggled_lookup, update_selected_funcs_lookup.
    by destruct (bt_dict !! f).
  - unfold NewWindowTools.clear. cbn [snd].
    rewrite (foldl_insert_with_lookup (λ _, 0)) by apply NoDup_fst_map_to_list.
    rewrite list_to_map_to_list. case_bool_decide as Hd.
    + apply elem_of_dom in Hd as [b ->]. done.
    + apply not_elem_of_dom in Hd. by rewrite Hd.
  - unfold NewWindowTools.clear. cbn [fst]. by rewrite lookup_fmap.
Qed.

(** ** Adding and changing the project *)

(** X20. The project tools of the newer window keep the project box in
    step with the list of projects and the current project in the list:
    from such a state [add_project] and [project_changed] (at an index
    of the box) succeed and lead to such a state again.  A new project is
    appended and becomes the current one, in the settings too; a
    cancelled dialog changes neither the list nor the current project.
    Changing the project makes the chosen item current, while the
    settings still name the project that was current before: the changed
    one is written only by the next [save_main]. *)
Theorem project_tools_keep_box_in_step (s : NewWindowTools.project_state) :
  NewWindowTools.projects_ok s →
  (∀ project ok, ∃ s',
      NewWindowTools.add_project project ok s = Ok s' ∧
      NewWindowTools.projects_ok s' ∧
      NewWindow.current_project (NewWindowTools.win s') =
        (if ok then JString project
         else NewWindow.current_project (NewWindowTools.win s)) ∧
      NewWindow.projects (NewWindowTools.win s') =
        (if ok then NewWindow.projects (NewWindowTools.win s) ++ [project]
         else NewWindow.projects (NewWindowTools.win s)) ∧
      NewWindow.settings (NewWindowTools.win s') !! "current_project" =
        Some (NewWindow.current_project (NewWindowTools.win s'))) ∧
  (∀ idx p, NewWindowTools.project_box s !! idx = Some p → ∃ s',
      NewWindowTools.project_changed idx s = Ok s' ∧
      NewWindowTools.projects_ok s' ∧
      NewWindow.current_project (NewWindowTools.win s') = JString p ∧
      NewWindow.projects (NewWindowTools.win s') =
        NewWindow.projects (NewWindowTools.win s) ∧
      NewWindow.settings (NewWindowTools.win s') !! "current_project" =
        Some (NewWindow.current_project (NewWindowTools.win s))).
Proof.
  intros [Hbox (p0 & Hcur & Hin)]. split.
  - intros project [|].
    + unfold NewWindowTools.add_project, NewWindowTools.update_project_box.
      cbn [NewWindowTools.win NewWindowTools.project_box NewWindow.current_project
           NewWindow.projects NewWindow.settings NewWindowTools.save_main json_in].
      rewrite bool_decide_true by (apply elem_of_app; right; constructor).
      eexists. split; [reflexivity|].
      cbn [NewWindowTools.win NewWindowTools.project_box NewWindow.current_project
           NewWindow.projects NewWindow.settings].
      split_and!; [split; [done|] |done|done|by rewrite lookup_insert_eq].
      exists project. split; [done|]. apply elem_of_app; right; constructor.
    + unfold NewWindowTools.add_project. eexists. split; [reflexivity|].
      cbn [NewWindowTools.win NewWindowTools.project_box NewWindow.current_project
           NewWindow.projects NewWindow.settings NewWindowTools.save_main].
      split_and!; [split; [done|by exists p0] |done|done|by rewrite lookup_insert_eq].
  - intros idx p Hp.
    assert (Hpin : p ∈ NewWindow.projects (NewWindowTools.win s)).
    { rewrite <- Hbox. by eapply list_elem_of_lookup_2. }
    unfold NewWindowTools.project_changed, NewWindowTools.update_project_box.
    cbn [NewWindowTools.win NewWindowTools.project_box NewWindow.current_project
         NewWindow.projects NewWindow.settings NewWindowTools.save_main json_in].
    rewrite Hp. cbn [default]. rewrite bool_decide_true by done.
    eexists. split; [reflexivity|].
    cbn [NewWindowTools.win NewWindowTools.project_box NewWindow.current_project
         NewWindow.projects NewWindow.settings].
    split_and!; [split; [done|by exists p] |done|done|by rewrite lookup_insert_eq].
Qed.

Lemma project_tools_keep_box_in_step_witness :
  let s := {| NewWindowTools.win :=
                {| NewWindow.settings := ∅;
                   NewWindow.default_settings := ∅;
                   NewWindow.current_project := JString "study";
                   NewWindow.projects := ["pilot"; "study"] |};
              NewWindowTools.project_box := ["pilot"; "study"] |} in
  NewWindowTools.projects_ok s ∧
  (∃ s', NewWindowTools.project_changed 0 s = Ok s' ∧
         NewWindow.current_project (NewWindowTools.win s') = JString "pilot" ∧
         NewWindow.settings (NewWindowTools.win s') !! "current_project" =
           Some (JString "study")).
Proof.
  intros s.
  assert (Hok : NewWindowTools.projects_ok s).
  { split; [reflexivity|]. exists "study". split; [reflexivity|].
    right. left. }
  split; [exact Hok|].
  destruct (proj2 (project_tools_keep_box_in_step s Hok) 0%nat "pilot" eq_refl)
    as (s' & Hrun & _ & Hcur & _ & Hset).
  exists s'. split_and!; [exact Hrun|exact Hcur|exact Hset].
Defined.

(** ** Settings: loading and asking *)

(** X21. Loading the settings and asking for one: the defaults that
    [load_settings] copies into the loaded settings are the ones
    [get_setting] would fall back to, so an answer of [get_setting] is
    the same before and after the copy; a loaded value always wins over
    the default; loading settings that were loaded before copies
    nothing; and settings that have every default key are left as they
    are. *)
Theorem load_then_get_setting {V : Type} (default_settings settings : gmap string V)
    (setting : string) :
  let loaded := Settings.load_settings default_settings (Some settings) in
  Settings.get_setting loaded default_settings setting =
    Settings.get_setting settings default_settings setting ∧
  (∀ v, settings !! setting = Some v →
        Settings.get_setting loaded default_settings setting = Ok v) ∧
  Settings.load_settings default_settings (Some loaded) = loaded ∧
  (dom default_settings ⊆ dom settings → loaded = settings).
Proof.
  intros loaded. subst loaded. split_and!.
  - unfold Settings.get_setting. rewrite load_settings_lookup.
    destruct (settings !! setting); [done|].
    by destruct (default_settings !! setting).
  - intros v Hv. unfold Settings.get_setting.
    by rewrite load_settings_lookup, Hv.
  - apply map_eq. intros k. rewrite !load_settings_lookup.
    destruct (settings !! k); [done|]. by destruct (default_settings !! k).
  - intros Hsub. apply map_eq. intros k. rewrite load_settings_lookup.
    destruct (settings !! k) eqn:Hk; [done|].
    apply not_elem_of_dom in Hk.
    apply (not_elem_of_dom (D:=gset string)). intros Hin. apply Hk. by apply Hsub.
Qed.

(** ** The files of a custom package *)

Section scan_facts.
Import CustomModules.

Lemma custom_module_match_head s g :
  Re.custom_module_match s = Some g →
  ∃ c s' g', s = String c s' ∧ g = String c g'.
Proof.
  destruct s as [|c s']; [done|]. cbn.
  destruct (Re.dot c); [|done].
  destruct (Re.module_tail s') as [g'|]; [|done].
  intros [= <-]. eauto.
Qed.

Lemma visible_not_init f g :
  visible_file f = true → Re.custom_module_match f = Some g → g ≠ "__init__".
Proof.
  intros Hv Hm ->. apply custom_module_match_head in Hm as (c & s1 & g1 & -> & [= <- _]).
  unfold visible_file in Hv. cbn in Hv. discriminate Hv.
Qed.

Lemma classify_fold pkg_path (l : list string) :
  Forall (λ f, visible_file f = true) l →
  ∀ fd,
    let fd' := foldl (classify pkg_path) fd l in
    functions fd' =
      from_option (λ f, Some (join pkg_path f)) (functions fd)
                  (last (List.filter Re.functions_match l)) ∧
    parameters fd' =
      from_option (λ f, Some (join pkg_path f)) (parameters fd)
                  (last (List.filter
                           (λ f, negb (Re.functions_match f) && Re.parameters_match f) l)) ∧
    modules fd' =
      modules fd ++
      omap (λ f, if Re.functions_match f || Re.parameters_match f then None
                 else Re.custom_module_match f) l.
Proof.
  induction 1 as [|f l Hf _ IH]; intros fd; cbn [foldl].
  { cbn. by rewrite app_nil_r. }
  destruct (IH (classify pkg_path fd f)) as (IHf & IHp & IHm).
  cbv zeta. rewrite IHf, IHp, IHm. clear IHf IHp IHm IH.
  unfold classify. cbn [List.filter omap list_omap].
  destruct (Re.functions_match f) eqn:Hfm; cbn [negb andb orb].
  { cbn [functions parameters modules]. rewrite last_cons.
    split_and!; [|done|done].
    by destruct (last (List.filter Re.functions_match l)). }
  destruct (Re.parameters_match f) eqn:Hpm; cbn [negb andb orb].
  { cbn [functions parameters modules]. rewrite last_cons.
    split_and!; [done| |done].
    by destruct (last (List.filter _ l)). }
  destruct (Re.custom_module_match f) as [g|] eqn:Hg; [|done].
  rewrite bool_decide_false by by eapply visible_not_init.
  cbn [negb functions parameters modules].
  split_and!; [done|done|]. by rewrite <- app_assoc.
Qed.
End scan_facts.

(** X24. What [import_custom_modules] finds in a package directory,
    among the files whose name starts with neither a dot nor an
    underscore: the function table is the last file whose name contains
    [_functions.csv], the parameter table the last other file whose name
    contains [_parameters.csv], and the modules are the remaining files
    that the module pattern matches, in the order of the listing.  No
    module is called [__init__]: such a file is skipped with the hidden
    ones, so the test for that name never decides anything. *)
Theorem scan_finds (pkg_path : string) (files : list string) :
  let fd := CustomModules.scan pkg_path files in
  let visible := List.filter CustomModules.visible_file files in
  CustomModules.functions fd =
    CustomModules.join pkg_path <$> last (List.filter Re.functions_match visible) ∧
  CustomModules.parameters fd =
    CustomModules.join pkg_path <$>
      last (List.filter (λ f, negb (Re.functions_match f) && Re.parameters_match f)
                        visible) ∧
  CustomModules.modules fd =
    omap (λ f, if Re.functions_match f || Re.parameters_match f then None
               else Re.custom_module_match f) visible ∧
  "__init__" ∉ CustomModules.modules fd.
Proof.
  intros fd visible.
  assert (Hvis : Forall (λ f, CustomModules.visible_file f = true) visible).
  { apply Forall_forall. intros f Hf.
    unfold visible in Hf. rewrite list_elem_of_In in Hf.
    by apply filter_In in Hf as [_ ?]. }
  destruct (classify_fold pkg_path visible Hvis
              {| CustomModules.functions := None; CustomModules.parameters := None;
                 CustomModules.modules := [] |}) as (Hf & Hp & Hm).
  cbv zeta in Hf, Hp, Hm.
  cbn [CustomModules.functions CustomModules.parameters
       CustomModules.modules app] in Hf, Hp, Hm.
  unfold fd, CustomModules.scan. fold visible.
  split_and!.
  - rewrite Hf. by destruct (last _).
  - rewrite Hp. by destruct (last _).
  - exact Hm.
  - rewrite Hm. intros Hin. apply list_elem_of_omap in Hin as (f & Hfv & Hmod).
    cbv beta in Hmod. destruct (_ || _); [done|].
    eapply visible_not_init; [|exact Hmod|done].
    by apply (proj1 (Forall_forall _ _) Hvis).
Qed.

(** ** Importing the custom packages *)

Section import_facts.
Import CustomModules.
Variable exec_module_ok : string → bool.
Variable read_csv : string → option dataframe.
Variable custom_pkg_path : string.

Lemma gset_union_swap (a b c : gset string) : b ∪ (a ∪ c) = a ∪ b ∪ c.
Proof. apply set_eq. intros x. rewrite !elem_of_union. tauto. Qed.

Lemma filter_length_eq {A} (p : A → bool) (l : list A) :
  length l = length (List.filter p l) ↔ List.filter (λ x, negb (p x)) l = [].
Proof.
  induction l as [|a l IH]; cbn [List.filter length]; [done|].
  pose proof (List.filter_length_le p l) as Hle.
  destruct (p a); cbn [negb length].
  - rewrite <- IH. split; [by intros [= ?]|by intros ->].
  - split; [lia|done].
Qed.

Lemma import_modules_fold pkg_name pkg_path (ms : list string) : ∀ w n,
  foldl (import_module exec_module_ok pkg_name pkg_path) (w, n) ms =
  ({| custom :=
        alter (λ s, list_to_set
                      (List.filter (λ m, exec_module_ok (join pkg_path (Re.group0 m))) ms)
                    ∪ s) pkg_name (custom w);
      pd_funcs := pd_funcs w; pd_params := pd_params w;
      dialogs :=
        dialogs w ++
        (ModuleError <$>
           List.filter (λ m, negb (exec_module_ok (join pkg_path (Re.group0 m)))) ms) |},
   (n + length (List.filter (λ m, exec_module_ok (join pkg_path (Re.group0 m))) ms))%nat).
Proof.
  induction ms as [|m ms IH]; intros w n; cbn [foldl List.filter].
  - cbn. rewrite Nat.add_0_r, app_nil_r. f_equal. destruct w as [c f p d].
    cbn. f_equal. apply map_eq. intros k.
    destruct (decide (k = pkg_name)) as [->|Hne].
    + rewrite lookup_alter_eq. destruct (c !! pkg_name) as [s|]; [|done].
      cbn. f_equal. symmetry. apply (left_id_L ∅ (∪)).
    + by rewrite lookup_alter_ne.
  - unfold import_module at 2.
    destruct (exec_module_ok (join pkg_path (Re.group0 m))) eqn:Hm; cbn [negb];
      rewrite IH; cbn [custom pd_funcs pd_params dialogs length fmap list_fmap].
    + f_equal; [|lia]. f_equal. rewrite alter_alter_eq. apply alter_ext.
      intros s _. cbn. apply gset_union_swap.
    + f_equal. f_equal. by rewrite <- app_assoc.
Qed.

(** The body of the package loop, with the module loop summed up. *)
Lemma import_package_eq (w : window) (pkg_name : string) (files : list string) :
  let pkg_path := join custom_pkg_path pkg_name in
  let fd := scan pkg_path files in
  let good := List.filter (λ m, exec_module_ok (join pkg_path (Re.group0 m))) (modules fd) in
  let bad :=
    List.filter (λ m, negb (exec_module_ok (join pkg_path (Re.group0 m)))) (modules fd) in
  import_package exec_module_ok read_csv custom_pkg_path w (pkg_name, files) =
  match bad with
  | [] =>
      match read_csv_at read_csv (functions fd), read_csv_at read_csv (parameters fd) with
      | Some read_pd_funcs, Some read_pd_params =>
          {| custom := <[pkg_name := list_to_set good]> (custom w);
             pd_funcs := (extend_registries pkg_name (pd_funcs w) (pd_params w)
                                            read_pd_funcs read_pd_params).1;
             pd_params := (extend_registries pkg_name (pd_funcs w) (pd_params w)
                                             read_pd_funcs read_pd_params).2;
             dialogs := dialogs w |}
      | _, _ =>
          {| custom := <[pkg_name := list_to_set good]> (custom w);
             pd_funcs := pd_funcs w; pd_params := pd_params w;
             dialogs := dialogs w ++ [PackageError pkg_name] |}
      end
  | _ :: _ =>
      {| custom := <[pkg_name := list_to_set good]> (custom w);
         pd_funcs := pd_funcs w; pd_params := pd_params w;
         dialogs := dialogs w ++ (ModuleError <$> bad) |}
  end.
Proof.
  intros pkg_path fd good bad. unfold import_package. fold pkg_path. fold fd.
  rewrite whole_set_always, import_modules_fold. fold good. fold bad.
  cbn [custom pd_funcs pd_params dialogs Nat.add].
  assert (Hc : alter (λ s, list_to_set good ∪ s) pkg_name (<[pkg_name := ∅]> (custom w))
               = <[pkg_name := list_to_set good]> (custom w)).
  { rewrite alter_insert_eq. f_equal. apply (right_id_L ∅ (∪)). }
  rewrite Hc. clear Hc.
  destruct (Nat.eqb_spec (length (modules fd)) (length good)) as [Heq|Hne].
  - apply filter_length_eq in Heq. fold bad in Heq. rewrite Heq.
    rewrite app_nil_r.
    destruct (read_csv_at read_csv (functions fd)) as [rf|]; [|done].
    destruct (read_csv_at read_csv (parameters fd)) as [rp|]; [|done].
    by destruct (extend_registries _ _ _ _ _).
  - destruct bad as [|b bad'] eqn:Hbad; [|done].
    exfalso. apply Hne. by apply filter_length_eq.
Qed.

Lemma extend_registries_new pkg_name (fs ps rf rp : dataframe) :
  ∃ fa pa,
    extend_registries pkg_name fs ps rf rp = (fs ++ fa, ps ++ pa) ∧
    (∀ r, r ∈ fa → (r.1 ∉ index fs) ∧ r.2 !! "pkg_name" = Some pkg_name) ∧
    (∀ r, r ∈ pa → r.1 ∉ index ps).
Proof.
  eexists _, _. split; [reflexivity|]. split.
  - intros r [Hr Hn]%elem_of_to_append. split; [done|].
    unfold set_column in Hr. apply list_elem_of_fmap in Hr as (r0 & -> & _).
    cbn. by rewrite lookup_insert_eq.
  - by intros r [_ Hn]%elem_of_to_append.
Qed.

Lemma import_package_tables (w : window) (pkg_name : string) (files : list string) :
  let w' := import_package exec_module_ok read_csv custom_pkg_path w (pkg_name, files) in
  ∃ fa pa,
    pd_funcs w' = pd_funcs w ++ fa ∧ pd_params w' = pd_params w ++ pa ∧
    (∀ r, r ∈ fa → (r.1 ∉ index (pd_funcs w)) ∧ r.2 !! "pkg_name" = Some pkg_name) ∧
    (∀ r, r ∈ pa → r.1 ∉ index (pd_params w)).
Proof.
  intros w'. unfold w'. rewrite import_package_eq.
  assert (Hnil : ∀ w1, pd_funcs w1 = pd_funcs w → pd_params w1 = pd_params w →
            ∃ fa pa : dataframe,
              pd_funcs w1 = pd_funcs w ++ fa ∧ pd_params w1 = pd_params w ++ pa ∧
              (∀ r, r ∈ fa → (r.1 ∉ index (pd_funcs w)) ∧ r.2 !! "pkg_name" = Some pkg_name) ∧
              (∀ r, r ∈ pa → r.1 ∉ index (pd_params w))).
  { intros w1 Hf Hp. exists [], []. rewrite !app_nil_r.
    split_and!; [done|done| |]; by intros r Hr%elem_of_nil. }
  destruct (List.filter _ _) as [|b bad]; [|by apply Hnil].
  destruct (read_csv_at read_csv _) as [rf|]; [|by apply Hnil].
  destruct (read_csv_at read_csv _) as [rp|]; [|by apply Hnil].
  destruct (extend_registries_new pkg_name (pd_funcs w) (pd_params w) rf rp)
    as (fa & pa & He & Hfa & Hpa).
  exists fa, pa. cbn [pd_funcs pd_params]. rewrite He. by split_and!.
Qed.

Lemma import_packages_tables (ds : list (string * list string)) : ∀ w,
  let w' := foldl (import_package exec_module_ok read_csv custom_pkg_path) w ds in
  ∃ fa pa,
    pd_funcs w' = pd_funcs w ++ fa ∧ pd_params w' = pd_params w ++ pa ∧
    (∀ r, r ∈ fa → (r.1 ∉ index (pd_funcs w)) ∧
                   ∃ d, d ∈ ds ∧ r.2 !! "pkg_name" = Some d.1) ∧
    (∀ r, r ∈ pa → r.1 ∉ index (pd_params w)).
Proof.
  induction ds as [|[pkg_name files] ds IH]; intros w; cbn [foldl].
  { exists [], []. rewrite !app_nil_r.
    split_and!; [done|done| |]; by intros r Hr%elem_of_nil. }
  destruct (import_package_tables w pkg_name files) as (fa1 & pa1 & Hf1 & Hp1 & Hfa1 & Hpa1).
  destruct (IH (import_package exec_module_ok read_csv custom_pkg_path w (pkg_name, files)))
    as (fa2 & pa2 & Hf2 & Hp2 & Hfa2 & Hpa2).
  cbv zeta. exists (fa1 ++ fa2), (pa1 ++ pa2).
  rewrite Hf2, Hp2, Hf1, Hp1, <- !app_assoc. split_and!; [done|done| |].
  - intros r [Hr|Hr]%elem_of_app.
    + destruct (Hfa1 r Hr) as [Hn Hpkg]. split; [done|].
      exists (pkg_name, files). split; [by left|done].
    + destruct (Hfa2 r Hr) as [Hn (d & Hd & Hpkg)]. split.
      * intros Hin. apply Hn. rewrite Hf1. unfold index in *.
        rewrite fmap_app. apply elem_of_app. by left.
      * exists d. split; [by right|done].
  - intros r [Hr|Hr]%elem_of_app.
    + by apply Hpa1.
    + intros Hin. apply (Hpa2 r Hr). rewrite Hp1. unfold index in *.
      rewrite fmap_app. apply elem_of_app. by left.
Qed.

Lemma filter_name_new (fs fa : dataframe) name :
  (∀ r, r ∈ fa → r.1 ∉ index fs) → name ∈ index fs →
  List.filter (λ r, bool_decide (r.1 = name)) (fs ++ fa) =
  List.filter (λ r, bool_decide (r.1 = name)) fs.
Proof.
  intros Hfa Hname. rewrite List.filter_app.
  rewrite <- (app_nil_r (List.filter _ fs)) at 2. f_equal.
  induction fa as [|r fa IH]; [done|]. cbn [List.filter].
  rewrite bool_decide_false.
  - apply IH. intros r' Hr'. apply Hfa. by right.
  - intros <-. by apply (Hfa r); [left|].
Qed.

Lemma import_packages_custom (ds : list (string * list string)) : ∀ w,
  let w' := foldl (import_package exec_module_ok read_csv custom_pkg_path) w ds in
  dom (custom w') = dom (custom w) ∪ list_to_set ds.*1 ∧
  ∃ new,
    dialogs w' = dialogs w ++ new ∧
    ∀ d, d ∈ new →
         (∃ pkg_name files m,
             (pkg_name, files) ∈ ds ∧
             m ∈ modules (scan (join custom_pkg_path pkg_name) files) ∧
             exec_module_ok (join (join custom_pkg_path pkg_name) (Re.group0 m)) = false ∧
             d = ModuleError m) ∨
         (∃ pkg_name, pkg_name ∈ ds.*1 ∧ d = PackageError pkg_name).
Proof.
  induction ds as [|[pkg_name files] ds IH]; intros w; cbn [foldl].
  { split; [cbn; by rewrite (right_id_L ∅ (∪))|]. exists []. rewrite app_nil_r.
    split; [done|]. by intros d Hd%elem_of_nil. }
  destruct (IH (import_package exec_module_ok read_csv custom_pkg_path w (pkg_name, files)))
    as (Hdom & new2 & Hd2 & Hnew2).
  cbv zeta. rewrite Hdom, Hd2. clear Hdom Hd2 IH.
  rewrite import_package_eq.
  set (fd := scan (join custom_pkg_path pkg_name) files).
  assert (Hbad : ∀ m, m ∈ List.filter
                        (λ m, negb (exec_module_ok
                                      (join (join custom_pkg_path pkg_name) (Re.group0 m))))
                        (modules fd) →
                 m ∈ modules fd ∧
                 exec_module_ok (join (join custom_pkg_path pkg_name) (Re.group0 m)) = false).
  { intros m. rewrite !list_elem_of_In, filter_In, negb_true_iff. tauto. }
  assert (Hlater : ∀ d, d ∈ new2 →
            (∃ pkg_name0 files0 m,
                (pkg_name0, files0) ∈ (pkg_name, files) :: ds ∧
                m ∈ modules (scan (join custom_pkg_path pkg_name0) files0) ∧
                exec_module_ok (join (join custom_pkg_path pkg_name0) (Re.group0 m)) = false ∧
                d = ModuleError m) ∨
            (∃ pkg_name0, pkg_name0 ∈ ((pkg_name, files) :: ds).*1 ∧ d = PackageError pkg_name0)).
  { intros d Hd. destruct (Hnew2 d Hd) as [(p & f & m & Hin & ?)|(p & Hin & ?)].
    - left. exists p, f, m. split; [by right|done].
    - right. exists p. split; [by right|done]. }
  destruct (List.filter _ (modules fd)) as [|b bad] eqn:Hf.
  - destruct (read_csv_at read_csv (functions fd)) as [rf|];
      [destruct (read_csv_at read_csv (parameters fd)) as [rp|]|];
      cbn [custom dialogs]; (split; [rewrite dom_insert_L; cbn; symmetry; apply gset_union_swap|]).
    + exists new2. split; [done|]. exact Hlater.
    + exists (PackageError pkg_name :: new2). split; [by rewrite <- app_assoc|].
      intros d [->|Hd]%elem_of_cons; [|by apply Hlater].
      right. exists pkg_name. split; [by left|done].
    + exists (PackageError pkg_name :: new2). split; [by rewrite <- app_assoc|].
      intros d [->|Hd]%elem_of_cons; [|by apply Hlater].
      right. exists pkg_name. split; [by left|done].
  - cbn [custom dialogs]. split; [rewrite dom_insert_L; cbn; symmetry; apply gset_union_swap|].
    exists ((ModuleError <$> b :: bad) ++ new2). split; [by rewrite <- app_assoc|].
    intros d [Hd|Hd]%elem_of_app; [|by apply Hlater].
    apply list_elem_of_fmap in Hd as (m & -> & Hm).
    destruct (Hbad m Hm) as [Hin Hex].
    left. exists pkg_name, files, m. split; [by left|done].
Qed.
End import_facts.

(** X23. One package directory in [import_custom_modules].  The package
    is entered in [all_modules['custom']] with the modules that were
    executed without error.  If a module failed, the tables are not read:
    the registries stay as they are and one error dialog per failed
    module is shown.  If every module was executed (also when there is
    none), the two tables are read: when both can be read the registries
    are extended and nothing is shown; when one cannot (or is missing
    from the directory) the registries stay as they are and the package
    error is shown. *)
Theorem import_package_outcome (exec_module_ok : string → bool)
    (read_csv : string → option CustomModules.dataframe) (custom_pkg_path : string)
    (w : CustomModules.window) (pkg_name : string) (files : list string) :
  let pkg_path := CustomModules.join custom_pkg_path pkg_name in
  let fd := CustomModules.scan pkg_path files in
  let ok := λ m, exec_module_ok (CustomModules.join pkg_path (Re.group0 m)) in
  let w' := CustomModules.import_package exec_module_ok read_csv custom_pkg_path
                                         w (pkg_name, files) in
  CustomModules.custom w' =
    <[pkg_name := list_to_set (List.filter ok (CustomModules.modules fd))]>
      (CustomModules.custom w) ∧
  match List.filter (λ m, negb (ok m)) (CustomModules.modules fd) with
  | [] =>
      match CustomModules.read_csv_at read_csv (CustomModules.functions fd),
            CustomModules.read_csv_at read_csv (CustomModules.parameters fd) with
      | Some read_pd_funcs, Some read_pd_params =>
          (CustomModules.pd_funcs w', CustomModules.pd_params w') =
            CustomModules.extend_registries pkg_name (CustomModules.pd_funcs w)
              (CustomModules.pd_params w) read_pd_funcs read_pd_params ∧
          CustomModules.dialogs w' = CustomModules.dialogs w
      | _, _ =>
          CustomModules.pd_funcs w' = CustomModules.pd_funcs w ∧
          CustomModules.pd_params w' = CustomModules.pd_params w ∧
          CustomModules.dialogs w' =
            CustomModules.dialogs w ++ [CustomModules.PackageError pkg_name]
      end
  | bad =>
      CustomModules.pd_funcs w' = CustomModules.pd_funcs w ∧
      CustomModules.pd_params w' = CustomModules.pd_params w ∧
      CustomModules.dialogs w' =
        CustomModules.dialogs w ++ (CustomModules.ModuleError <$> bad)
  end.
Proof.
  intros pkg_path fd ok w'. unfold w'. rewrite import_package_eq.
  fold pkg_path. fold fd.
  change (λ m, exec_module_ok (CustomModules.join pkg_path (Re.group0 m))) with ok.
  change (λ m, negb (exec_module_ok (CustomModules.join pkg_path (Re.group0 m))))
    with (λ m, negb (ok m)).
  destruct (List.filter (λ m, negb (ok m)) _) as [|b bad]; [|done].
  destruct (CustomModules.read_csv_at read_csv (CustomModules.functions fd)) as [rf|];
    [|done].
  destruct (CustomModules.read_csv_at read_csv (CustomModules.parameters fd)) as [rp|];
    [|done].
  cbn [CustomModules.custom CustomModules.pd_funcs CustomModules.pd_params
       CustomModules.dialogs].
  by destruct (CustomModules.extend_registries _ _ _ _ _).
Qed.

(** X22. The registries after [import_custom_modules]: the tables
    shipped with the program come first, unchanged; every row after them
    has a name that is not in the shipped table, and a function row
    carries the name of the package directory it was read from; so under
    a shipped name the rows are the shipped ones, whatever the packages
    hold and whether their modules load. *)
Theorem import_keeps_shipped_tables (exec_module_ok : string → bool)
    (read_csv : string → option CustomModules.dataframe) (custom_pkg_path : string)
    (basic_funcs basic_params : CustomModules.dataframe)
    (dirs : list (string * list string)) :
  let w := CustomModules.import_custom_modules exec_module_ok read_csv custom_pkg_path
             basic_funcs basic_params dirs in
  ∃ fa pa,
    CustomModules.pd_funcs w = basic_funcs ++ fa ∧
    CustomModules.pd_params w = basic_params ++ pa ∧
    (∀ r, r ∈ fa →
          (r.1 ∉ CustomModules.index basic_funcs) ∧
          ∃ d, d ∈ dirs ∧ (Re.startswith "." d.1 = false) ∧
               (r.2 !! "pkg_name" = Some d.1)) ∧
    (∀ r, r ∈ pa → r.1 ∉ CustomModules.index basic_params) ∧
    (∀ name, name ∈ CustomModules.index basic_funcs →
       List.filter (λ r, bool_decide (r.1 = name)) (CustomModules.pd_funcs w) =
       List.filter (λ r, bool_decide (r.1 = name)) basic_funcs) ∧
    (∀ name, name ∈ CustomModules.index basic_params →
       List.filter (λ r, bool_decide (r.1 = name)) (CustomModules.pd_params w) =
       List.filter (λ r, bool_decide (r.1 = name)) basic_params).
Proof.
  intros w. unfold w, CustomModules.import_custom_modules.
  destruct (import_packages_tables exec_module_ok read_csv custom_pkg_path
              (List.filter (λ d, negb (Re.startswith "." d.1)) dirs)
              {| CustomModules.custom := ∅; CustomModules.pd_funcs := basic_funcs;
                 CustomModules.pd_params := basic_params; CustomModules.dialogs := [] |})
    as (fa & pa & Hf & Hp & Hfa & Hpa).
  cbv zeta in Hf, Hp. cbn [CustomModules.pd_funcs CustomModules.pd_params] in Hf, Hp, Hfa, Hpa.
  exists fa, pa. rewrite Hf, Hp. split_and!; [done|done| |done| |].
  - intros r Hr. destruct (Hfa r Hr) as [Hn (d & Hd & Hpkg)]. split; [done|].
    rewrite list_elem_of_In, filter_In, <- list_elem_of_In, negb_true_iff in Hd.
    exists d. by destruct Hd.
  - intros name Hname. apply filter_name_new; [|done]. intros r Hr. by apply Hfa.
  - intros name Hname. by apply filter_name_new.
Qed.

(** X25. The packages and the dialogs after [import_custom_modules]:
    every directory whose name does not start with a dot is entered in
    [all_modules['custom']], whatever it holds, and nothing else is; and
    every dialog shown is the error of a module of such a directory that
    could not be executed or the error of reading the tables of such a
    directory: the warning about missing files is never among them. *)
Theorem import_registers_every_directory (exec_module_ok : string → bool)
    (read_csv : string → option CustomModules.dataframe) (custom_pkg_path : string)
    (basic_funcs basic_params : CustomModules.dataframe)
    (dirs : list (string * list string)) :
  let w := CustomModules.import_custom_modules exec_module_ok read_csv custom_pkg_path
             basic_funcs basic_params dirs in
  let shown := List.filter (λ d, negb (Re.startswith "." d.1)) dirs in
  dom (CustomModules.custom w) = list_to_set shown.*1 ∧
  (∀ d, d ∈ CustomModules.dialogs w →
        (∃ pkg_name files m,
            (pkg_name, files) ∈ shown ∧
            m ∈ CustomModules.modules
                  (CustomModules.scan (CustomModules.join custom_pkg_path pkg_name) files) ∧
            exec_module_ok
              (CustomModules.join (CustomModules.join custom_pkg_path pkg_name)
                                  (Re.group0 m)) = false ∧
            d = CustomModules.ModuleError m) ∨
        (∃ pkg_name, pkg_name ∈ shown.*1 ∧ d = CustomModules.PackageError pkg_name)) ∧
  CustomModules.no_import_problem (CustomModules.dialogs w).
Proof.
  intros w shown. unfold w, CustomModules.import_custom_modules. fold shown.
  destruct (import_packages_custom exec_module_ok read_csv custom_pkg_path shown
              {| CustomModules.custom := ∅; CustomModules.pd_funcs := basic_funcs;
                 CustomModules.pd_params := basic_params; CustomModules.dialogs := [] |})
    as (Hdom & new & Hd & Hnew).
  cbv zeta in Hdom, Hd. cbn [CustomModules.custom CustomModules.dialogs app] in Hdom, Hd.
  rewrite Hdom, Hd. split_and!.
  - rewrite dom_empty_L. apply (left_id_L ∅ (∪)).
  - exact Hnew.
  - intros pkg missing Hin.
    destruct (Hnew _ Hin) as [(?&?&?&_&_&_&?)|(?&_&?)]; discriminate.
Qed.

(** ** The prefix of a subject name and the loop over the subjects *)

Lemma String_append (c : ascii) (a b : string) : String c a +:+ b = String c (a +:+ b).
Proof. done. Qed.

Lemma startswith_append p : ∀ s,
  Re.startswith p s = true → s = p +:+ PyStr.drop (String.length p) s.
Proof.
  induction p as [|a p IH]; intros s; [done|].
  destruct s as [|b s]; [done|]. cbn [Re.startswith String.length PyStr.drop].
  intros [Hab Hp]%andb_true_iff. apply Ascii.eqb_eq in Hab as ->.
  rewrite String_append. f_equal. by apply IH.
Qed.

Lemma take_while_append p : ∀ s,
  s = Re.take_while p s +:+ PyStr.drop (String.length (Re.take_while p s)) s.
Proof.
  induction s as [|c s IH]; [done|]. cbn [Re.take_while].
  destruct (p c); [|done].
  cbn [String.length PyStr.drop]. rewrite String_append. by rewrite <- IH.
Qed.

Lemma match_pp_prefix name p :
  Re.match_pp name = Some p → ∃ rest, name = p +:+ rest.
Proof.
  unfold Re.match_pp. destruct (Re.startswith "pp" name) eqn:Hpp; [|done].
  apply startswith_append in Hpp. cbn [String.length] in Hpp.
  set (rest := PyStr.drop 2 name) in *.
  pose proof (take_while_append Re.is_digit rest) as Hds.
  set (ds := Re.take_while Re.is_digit rest) in *.
  case_bool_decide as Hne; [done|].
  destruct (PyStr.drop (String.length ds) rest) as [|c tail] eqn:Htail.
  - intros [= <-]. exists "". by rewrite Hpp at 1; rewrite Hds at 1.
  - destruct (Re.is_lower c); intros [= <-].
    + exists tail. rewrite Hpp at 1. rewrite Hds at 1.
      by rewrite !append_assoc.
    + exists (String c tail). rewrite Hpp at 1. rewrite Hds at 1.
      by rewrite !append_assoc.
Qed.

Lemma match_pp_matches name :
  is_Some (Re.match_pp name) ↔
  ∃ d rest, Re.is_digit d = true ∧ name = "pp" +:+ String d rest.
Proof.
  split.
  - intros [p Hp]. revert Hp. unfold Re.match_pp.
    destruct (Re.startswith "pp" name) eqn:Hpp; [|done].
    apply startswith_append in Hpp. cbn [String.length] in Hpp.
    destruct (PyStr.drop 2 name) as [|d rest] eqn:Hrest; [done|].
    cbn [Re.take_while]. destruct (Re.is_digit d) eqn:Hd; [|done].
    intros _. by exists d, rest.
  - intros (d & rest & Hd & ->). unfold Re.match_pp.
    change (Re.startswith "pp" ("pp" +:+ String d rest)) with true.
    change (PyStr.drop 2 ("pp" +:+ String d rest)) with (String d rest).
    cbn [Re.take_while]. rewrite Hd.
    rewrite bool_decide_false by done.
    destruct (PyStr.drop _ _) as [|c tail]; [done|]. by destruct (Re.is_lower c).
Qed.

(** X26. The prefix under which a subject is looked up in the ERM and
    the MRI-subject dictionary is an initial part of the subject's name.
    With [unspecified_names] every name has one; without, exactly the
    names that start with [pp] and a digit have one, and every other
    name ends the loop with an AttributeError (the failed match has no
    [group]); no other error comes from taking the prefix. *)
Theorem prefix_of_initial_part (unspecified_names : bool) (name : string) :
  (∀ prefix, Driver.prefix_of unspecified_names name = Ok prefix →
             ∃ rest, name = prefix +:+ rest) ∧
  (unspecified_names = true →
     ∃ prefix, Driver.prefix_of unspecified_names name = Ok prefix) ∧
  (unspecified_names = false →
     ((∃ prefix, Driver.prefix_of unspecified_names name = Ok prefix) ↔
      ∃ d rest, Re.is_digit d = true ∧ name = "pp" +:+ String d rest)) ∧
  (∀ e, Driver.prefix_of unspecified_names name = Raise e →
        e = AttributeError ∧ unspecified_names = false).
Proof.
  unfold Driver.prefix_of. split_and!.
  - intros prefix. destruct unspecified_names.
    + cbn. intros [= <-]. eexists. apply take_while_append.
    + destruct (Re.match_pp name) as [p|] eqn:Hp; [|done].
      intros [= <-]. by eapply match_pp_prefix.
  - intros ->. cbn. eauto.
  - intros ->. rewrite <- match_pp_matches. split.
    + intros [prefix Hp]. destruct (Re.match_pp name); [by eexists|done].
    + intros [p ->]. by exists p.
  - intros e. destruct unspecified_names; [done|].
    destruct (Re.match_pp name); [done|]. by intros [= <-].
Qed.

Section driver_log_facts.
Import Driver DriverLog.
Variable unspecified_names : bool.
Variable erm_dict sub_to_mri : gmap string string.
Variable bad_channels_dict : gmap string (list N).
Variable add_outcome : add_function → option exn.



End driver_log_facts.



(** ** The directories and files the windows create *)

Section file_system_facts.
Import FileSystem.

Lemma join_cons (p : list string) (name : string) :
  name ≠ "" → join p name = name :: p.
Proof. intros Hn. unfold join. by rewrite bool_decide_false. Qed.


Lemma mkdir_ok (name : string) (parent : list string) (t : gmap (list string) node) :
  t !! parent = Some Dir → t !! (name :: parent) = None →
  mkdir (name :: parent) t = Done (<[name :: parent := Dir]> t).
Proof. intros Hp Hn. unfold mkdir, exists_. by rewrite Hp, Hn. Qed.


Section make_paths_facts.
Variable home_path : list string.
Variable project_name : string.





End make_paths_facts.
End file_system_facts.

Section base_paths_facts.
Import FileSystem.

Lemma base_phase (parent : list string) (names : list string) :
  ∀ t : gmap (list string) node,
    t !! parent = Some Dir →
    match os_for (λ t p, if negb (isdir p t) then mkdir p t else Done t) t
                 ((λ name, name :: parent) <$> names) with
    | Done t' =>
        (∀ name, name ∈ names → isfile (name :: parent) t = false) ∧
        (∀ name, name ∈ names → isdir (name :: parent) t' = true) ∧
        t ⊆ t' ∧
        (∀ q x, t' !! q = Some x →
                t !! q = Some x ∨ (x = Dir ∧ ∃ name, name ∈ names ∧ q = name :: parent))
    | OSError e =>
        e = FileExistsError ∧
        ∃ name, name ∈ names ∧ isfile (name :: parent) t = true
    end.
Proof.
  induction names as [|name names IH]; intros t Hparent.
  { cbn. split_and!; [by intros ? ?%elem_of_nil..|done|]. intros q x ?. by left. }
  cbn [fmap list_fmap os_for]. unfold isdir at 1.
  destruct (t !! (name :: parent)) as [[|s]|] eqn:Hn; cbn [negb].
  - specialize (IH t Hparent). destruct (os_for _ t _) as [t'|e].
    + destruct IH as (Hf & Hd & Hsub & Hnew). split_and!; [| |done|].
      * intros n [->|Hin]%elem_of_cons; [|by apply Hf].
        unfold isfile. by rewrite Hn.
      * intros n [->|Hin]%elem_of_cons; [|by apply Hd].
        unfold isdir. by rewrite (lookup_weaken _ _ _ _ Hn Hsub).
      * intros q x Hq. destruct (Hnew _ _ Hq) as [?|(-> & n & Hin & ->)]; [by left|].
        right. split; [done|]. exists n. split; [by right|done].
    + destruct IH as (-> & n & Hin & Hfile). split; [done|].
      exists n. split; [by right|done].
  - unfold mkdir, exists_. rewrite Hparent, Hn. split; [done|].
    exists name. split; [by left|]. unfold isfile. by rewrite Hn.
  - rewrite mkdir_ok by done.
    assert (Hsub1 : t ⊆ <[name :: parent := Dir]> t) by by apply insert_subseteq.
    specialize (IH (<[name :: parent := Dir]> t) (lookup_weaken _ _ _ _ Hparent Hsub1)).
    destruct (os_for _ (<[name :: parent := Dir]> t) _) as [t'|e].
    + destruct IH as (Hf & Hd & Hsub & Hnew). split_and!.
      * intros n [->|Hin]%elem_of_cons; [unfold isfile; by rewrite Hn|].
        specialize (Hf n Hin). unfold isfile in *.
        destruct (t !! (n :: parent)) as [[|s]|] eqn:Hq; try done.
        by rewrite (lookup_weaken _ _ _ _ Hq Hsub1) in Hf.
      * intros n [->|Hin]%elem_of_cons; [|by apply Hd].
        unfold isdir. by rewrite (lookup_weaken _ _ _ _ (lookup_insert_eq _ _ _) Hsub).
      * by etrans.
      * intros q x Hq. destruct (Hnew _ _ Hq) as [Hq1|(-> & n & Hin & ->)].
        -- apply lookup_insert_Some in Hq1 as [[<- <-]|[_ ?]]; [|by left].
           right. split; [done|]. exists name. split; [by left|done].
        -- right. split; [done|]. exists n. split; [by right|done].
    + destruct IH as (-> & n & Hin & Hfile). split; [done|].
      exists n. split; [by right|]. unfold isfile in *.
      destruct (decide (n = name)) as [->|Hne].
      * by rewrite lookup_insert_eq in Hfile.
      * rewrite lookup_insert_ne in Hfile; [done|]. by intros [= ->].
Qed.

Lemma base_settled (l : list (list string)) (t : gmap (list string) node) :
  Forall (λ p, isdir p t = true) l →
  os_for (λ t p, if negb (isdir p t) then mkdir p t else Done t) t l = Done t.
Proof.
  induction 1 as [|p l Hp _ IH]; [done|]. cbn [os_for]. by rewrite Hp.
Qed.
End base_paths_facts.



(** X29. [make_base_paths] of the newer window, with a home path that is
    a directory: it succeeds exactly when none of the three paths
    [projects], [freesurfer] and [custom_packages] is a regular file;
    then the three are directories, nothing that was there is changed,
    only these three can be new, and a second call changes nothing.  If
    one of them is a regular file, the call ends with FileExistsError:
    the test [isdir] lets the file through to [mkdir]. *)
Theorem make_base_paths_outcome (home_path : list string)
    (t : gmap (list string) FileSystem.node) :
  t !! home_path = Some FileSystem.Dir →
  match FileSystem.make_base_paths home_path t with
  | FileSystem.Done t' =>
      Forall (λ p, FileSystem.isfile p t = false) (FileSystem.base_paths home_path) ∧
      Forall (λ p, FileSystem.isdir p t' = true) (FileSystem.base_paths home_path) ∧
      t ⊆ t' ∧
      (∀ q x, t' !! q = Some x →
              t !! q = Some x ∨
              (x = FileSystem.Dir ∧ q ∈ FileSystem.base_paths home_path)) ∧
      FileSystem.make_base_paths home_path t' = FileSystem.Done t'
  | FileSystem.OSError e =>
      e = FileSystem.FileExistsError ∧
      Exists (λ p, FileSystem.isfile p t = true) (FileSystem.base_paths home_path)
  end.
Proof.
  intros Hhome. unfold FileSystem.make_base_paths.
  assert (Hbp : FileSystem.base_paths home_path =
                (λ name, name :: home_path) <$> ["projects"; "freesurfer"; "custom_packages"]).
  { unfold FileSystem.base_paths. by rewrite !join_cons by done. }
  rewrite Hbp.
  pose proof (base_phase home_path ["projects"; "freesurfer"; "custom_packages"] t Hhome)
    as H.
  destruct (FileSystem.os_for _ t _) as [t'|e].
  - destruct H as (Hf & Hd & Hsub & Hnew).
    assert (Hd' : Forall (λ p, FileSystem.isdir p t' = true)
                    ((λ name, name :: home_path) <$>
                       ["projects"; "freesurfer"; "custom_packages"])).
    { apply Forall_fmap, Forall_forall. intros name Hin. by apply Hd. }
    split_and!.
    + apply Forall_fmap, Forall_forall. intros name Hin. by apply Hf.
    + exact Hd'.
    + exact Hsub.
    + intros q x Hq. destruct (Hnew _ _ Hq) as [?|(-> & name & Hin & ->)]; [by left|].
      right. split; [done|]. apply list_elem_of_fmap. by exists name.
    + by apply base_settled.
  - destruct H as (-> & name & Hin & Hfile). split; [done|].
    apply Exists_exists. exists (name :: home_path). split; [|done].
    apply list_elem_of_fmap. by exists name.
Qed.

Lemma make_base_paths_outcome_witness :
  FileSystem.make_base_paths ["lab"]
    {[ ["lab"] := FileSystem.Dir; ["projects"; "lab"] := FileSystem.File "notes" ]}
  = FileSystem.OSError FileSystem.FileExistsError.
Proof.
  assert (Hhome : ({[ ["lab"] := FileSystem.Dir;
                      ["projects"; "lab"] := FileSystem.File "notes" ]}
                   : gmap (list string) FileSystem.node) !! ["lab"]
                  = Some FileSystem.Dir) by (vm_compute; reflexivity).
  generalize (make_base_paths_outcome _ _ Hhome).
  destruct (FileSystem.make_base_paths _ _) as [t'|e].
  - intros (Hf & _). apply Forall_cons in Hf as [Hf _].
    vm_compute in Hf. discriminate Hf.
  - by intros (-> & _).
Defined.


(** ** The missing entries of the subject loop, whatever the add functions do *)




(** ** The home path of the newer window *)

Section home_path_facts.
Import HomePath.
Variable isdir writable : string → bool.
Variable make_base_paths : string → option FileSystem.os_error.

Lemma needs_dialog_false hp :
  needs_dialog isdir writable hp = false →
  ∃ h, hp = Some h ∧ h ≠ "" ∧ isdir h = true ∧ writable h = true.
Proof.
  destruct hp as [h|]; [|done]. cbn.
  case_bool_decide; [done|].
  destruct (isdir h) eqn:Hd; [|done]. destruct (writable h) eqn:Hw; [|done].
  intros _. exists h. by split_and!.
Qed.

Lemma home_loop_end fuel : ∀ hp dialogs answers r,
  home_loop isdir writable make_base_paths fuel hp dialogs answers = Some r →
  match r with
  | Home h =>
      make_base_paths h = None ∧
      h ≠ "" ∧ writable h = true ∧ ((hp = Some h ∧ isdir h = true) ∨ h ∈ dialogs)
  | BasePathsError h e =>
      make_base_paths h = Some e ∧
      h ≠ "" ∧ writable h = true ∧ ((hp = Some h ∧ isdir h = true) ∨ h ∈ dialogs)
  | UserCanceled => "" ∈ dialogs ∧ NewWindow.Yes ∈ answers
  end.
Proof.
  induction fuel as [|fuel IH]; intros hp dialogs answers r; [done|].
  cbn [home_loop].
  destruct (needs_dialog isdir writable hp) eqn:Hn.
  - destruct dialogs as [|d ds]; [done|].
    case_bool_decide as Hd.
    + subst d. destruct answers as [|[] answers]; [done| |].
      * intros [= <-]. split; by constructor.
      * intros H. apply IH in H. destruct r as [h| |h e].
        -- destruct H as (?&?&?&[[[= <-] _]|?]); [done|].
           split_and!; auto. right. by constructor.
        -- destruct H. split; by constructor.
        -- destruct H as (?&?&?&[[[= <-] _]|?]); [done|].
           split_and!; auto. right. by constructor.
    + destruct (writable d) eqn:Hw; cbn [negb].
      * destruct (make_base_paths d) eqn:Hm; intros [= <-];
          (split_and!; auto; right; by constructor).
      * intros H. apply IH in H. destruct r as [h| |h e].
        -- destruct H as (?&?&?&[[[= <-] _]|?]); [congruence|].
           split_and!; auto. right. by constructor.
        -- destruct H. split; [by constructor|done].
        -- destruct H as (?&?&?&[[[= <-] _]|?]); [congruence|].
           split_and!; auto. right. by constructor.
  - apply needs_dialog_false in Hn as (h0&->&Hne&Hd&Hw).
    rewrite bool_decide_false by done. rewrite Hw. cbn [negb].
    destruct (make_base_paths h0) eqn:Hm; intros [= <-]; split_and!; auto.
Qed.

Lemma home_loop_fuel fuel : ∀ hp dialogs answers,
  (length dialogs < fuel)%nat →
  home_loop isdir writable make_base_paths fuel hp dialogs answers =
  home_loop isdir writable make_base_paths (S (length dialogs)) hp dialogs answers.
Proof.
  induction fuel as [|fuel IH]; intros hp dialogs answers Hlt; [lia|].
  cbn [home_loop].
  destruct (needs_dialog isdir writable hp) eqn:Hn.
  - destruct dialogs as [|d ds]; [done|].
    cbn [length] in Hlt.
    change (length (d :: ds)) with (S (length ds)).
    cbn [home_loop].
    case_bool_decide as Hd.
    + destruct answers as [|[] answers]; [done|done|].
      apply IH. lia.
    + destruct (writable d); cbn [negb]; [done|]. apply IH. lia.
  - apply needs_dialog_false in Hn as (h0&->&Hne&Hd&Hw).
    rewrite bool_decide_false by done. by rewrite Hw.
Qed.
End home_path_facts.

(** X16. [get_home_path] of the newer window, for every behaviour of
    [make_base_paths].  A stored home path that is an existing writable
    directory is taken without any dialog.  The path the loop settles on
    is non-empty and writable, and is either that stored directory or one
    of the dialog's answers; the call returns with it when
    [make_base_paths] returns, and ends with the error [make_base_paths]
    raises for it otherwise.  The only other error is the RuntimeError,
    raised after an empty dialog answer and a Yes to the question.  More
    iterations than the bound used here change nothing. *)
Theorem get_home_path_result (isdir writable : string → bool)
    (make_base_paths : string → option FileSystem.os_error)
    (stored : option string) (dialogs : list string)
    (answers : list NewWindow.button) :
  let r := HomePath.get_home_path isdir writable make_base_paths
                                  stored dialogs answers in
  (HomePath.needs_dialog isdir writable stored = false →
   ∃ h, stored = Some h ∧
        r = Some match make_base_paths h with
                 | None => HomePath.Home h
                 | Some e => HomePath.BasePathsError h e
                 end) ∧
  (∀ res, r = Some res →
     match res with
     | HomePath.Home h =>
         make_base_paths h = None ∧
         h ≠ "" ∧ writable h = true ∧
         ((stored = Some h ∧ isdir h = true) ∨ h ∈ dialogs)
     | HomePath.BasePathsError h e =>
         make_base_paths h = Some e ∧
         h ≠ "" ∧ writable h = true ∧
         ((stored = Some h ∧ isdir h = true) ∨ h ∈ dialogs)
     | HomePath.UserCanceled => "" ∈ dialogs ∧ NewWindow.Yes ∈ answers
     end) ∧
  (∀ fuel, (length dialogs < fuel)%nat →
           HomePath.home_loop isdir writable make_base_paths fuel stored dialogs answers
           = r).
Proof.
  intros r. subst r. unfold HomePath.get_home_path. split_and!.
  - intros Hn. apply needs_dialog_false in Hn as Hg.
    destruct Hg as (h&->&Hne&Hd&Hw). exists h. split; [done|].
    cbn [HomePath.home_loop]. rewrite Hn.
    rewrite bool_decide_false by done. rewrite Hw. cbn [negb].
    by destruct (make_base_paths h).
  - intros res. apply home_loop_end.
  - intros fuel. apply home_loop_fuel.
Qed.
